(** * airtable-connector: a shallow embedding of the client, the loader
      and the sender, with the properties of their specification.

    Sources embedded here:
    - [airtable_connector/lib/airtable.py] : [AirtableClient] ([request],
      [iter_chunks], [read], [write]), [build_append_payload],
      [build_update_payload], [is_iterator_error], [chunked];
    - [airtable_connector/load.py] : [parse_table_name], [process_record],
      [rename_column], [maybe_jsonify], [result_to_df], [materialize],
      [_load_chunks] (spelled [load_chunks] below), [rechunked], [load];
    - [airtable_connector/send.py] : [get_field_mappings], [row_to_record],
      [send_records].

    Python exceptions are values of [exn]; every effectful function is a
    state transformer over the record heap and the trace of HTTP exchanges
    and sleeps, or over the tables of the warehouse.  What the libraries
    compute is left open where the code only passes it on: [json.dumps],
    [urllib.parse.quote], [float] of a Decimal, and what pandas makes of
    the values of a column (the record [Pandas]). *)

From Stdlib Require Import ZArith QArith Qround List String Ascii Lia.
From Stdlib Require Import DecimalString.
From stdpp Require Import gmap strings list.

Set Warnings "-register-all".
Local Open Scope Z_scope.

(** ** Python strings (ASCII fragment) *)

Module PyStr.

Definition is_upper (c : ascii) : bool :=
let n := nat_of_ascii c in ((65 <=? n) && (n <=? 90))%nat.

Definition lower_char (c : ascii) : ascii :=
if is_upper c then ascii_of_nat (nat_of_ascii c + 32) else c.

(** [str.lower()] *)
Fixpoint lower (s : string) : string :=
match s with
| EmptyString => EmptyString
| String c s' => String (lower_char c) (lower s')
end.

(** [str.isspace()] on one ASCII character: tab, line feed, vertical tab,
form feed, carriage return, the four separators 0x1c-0x1f, space. *)
Definition is_space (c : ascii) : bool :=
let n := nat_of_ascii c in
(((9 <=? n) && (n <=? 13)) || ((28 <=? n) && (n <=? 32)))%nat.

Fixpoint lstrip (s : string) : string :=
match s with
| EmptyString => EmptyString
| String c s' => if is_space c then lstrip s' else s
end.

(** Drops the trailing whitespace: a character is kept when it is not a
space or when something is kept after it. *)
Fixpoint rstrip (s : string) : string :=
match s with
| EmptyString => EmptyString
| String c s' =>
match rstrip s' with
| EmptyString => if is_space c then EmptyString else String c EmptyString
| r => String c r
end
end.

(** [str.strip()] *)
Definition strip (s : string) : string := rstrip (lstrip s).

(** [str.split(sep)] for a one-character separator: never empty. *)
Fixpoint split (sep : ascii) (s : string) : list string :=
match s with
| EmptyString => [EmptyString]
| String c s' =>
if Ascii.eqb c sep then EmptyString :: split sep s'
else match split sep s' with
   | [] => [String c EmptyString]
   | w :: ws => String c w :: ws
   end
end.

(** [s.endswith(suffix)] *)
Fixpoint endswith (s suffix : string) : bool :=
String.eqb s suffix ||
match s with
| EmptyString => false
| String _ s' => endswith s' suffix
end.

(** [needle in haystack] for two strings *)
Fixpoint contains (haystack needle : string) : bool :=
String.prefix needle haystack ||
match haystack with
| EmptyString => false
| String _ h' => contains h' needle
end.

(** Truthiness of a string: non-empty. *)
Definition truthy (s : string) : bool :=
match s with EmptyString => false | _ => true end.

(** [s.replace(old, new)] for one-character [old] and [new]. *)
Fixpoint replace (old new : ascii) (s : string) : string :=
match s with
| EmptyString => EmptyString
| String c s' =>
String (if Ascii.eqb c old then new else c) (replace old new s')
end.

End PyStr.

(** ** Values *)

(** A binary64 float: mantissa times two to the exponent, or a special. *)
Inductive float64 : Type :=
| F64 (mantissa exponent : Z)
| F64_inf (negative : bool)
| F64_nan.

(** A decoded JSON document, as [response.json()] returns it: a number is
    an [int] or a [float], an object lists its (distinct) keys in order. *)
Inductive json : Type :=
| JNull
| JBool (b : bool)
| JInt (z : Z)
| JFloat (f : float64)
| JStr (s : string)
| JArr (items : list json)
| JObj (members : list (string * json)).

(** [d.get(key)] on a decoded object *)
Fixpoint obj_get (key : string) (members : list (string * json)) : option json :=
  match members with
  | [] => None
  | (k, v) :: rest => if String.eqb k key then Some v else obj_get key rest
  end.

(** A finite [decimal.Decimal]: coefficient times ten to the exponent. *)
Record decimal := { dec_coef : Z; dec_exp : Z }.

Record date := { d_year : nat; d_month : nat; d_day : nat }.

Record datetime :=
  { dt_date : date; dt_hour : nat; dt_minute : nat; dt_second : nat }.

(** The values a warehouse row holds and a record sent to the API holds. *)
Inductive pyval : Type :=
| PNone
| PBool (b : bool)
| PInt (z : Z)
| PFloat (f : float64)
| PStr (s : string)
| PDecimal (d : decimal)
| PDatetime (t : datetime)
| PDate (d : date)
| PList (items : list pyval).

(** A Python [dict] with string keys. *)
Abbreviation pydict := (gmap string pyval).

(** ** Exceptions, state and the state-and-error monad *)

Record Response := { status_code : Z; body : option json }.

Inductive exn : Type :=
| HTTPError (response : Response)
| AirtableIteratorError
| KeyError (key : string)
| TypeError
| AttributeError
| ValueError
| JSONDecodeError
| ProgrammingError
| InvalidIndexError.

(** One record envelope and one request body, as serialized on the wire. *)
Record Envelope := { env_id : option pyval; env_fields : pydict }.
Record Payload := { p_records : list Envelope; p_typecast : bool }.

Record Request :=
  { req_method : string;
    req_url : string;
    req_headers : gmap string string;
    req_json : option Payload }.

Inductive event : Type :=
| EvRequest (r : Request)
| EvSleep (seconds : Q).

(** Objects live in a heap: a record handed to [write] is a reference, and
    two references may be the same object. *)
Abbreviation loc := positive.

Record State :=
  { heap : gmap loc pydict;
    trace : list event (* oldest first *) }.

(** What a call does: return, raise, or - for a loop that was given too
    little fuel - not finish. *)
Inductive outcome (A : Type) : Type :=
| Ok (a : A)
| Raise (e : exn)
| Diverge.
Arguments Ok {A} a.
Arguments Raise {A} e.
Arguments Diverge {A}.

Definition M (S A : Type) : Type := S -> outcome A * S.

Definition ret {S A} (a : A) : M S A := fun st => (Ok a, st).
Definition raise {S A} (e : exn) : M S A := fun st => (Raise e, st).
Definition diverge {S A} : M S A := fun st => (Diverge, st).

Definition bind {S A B} (m : M S A) (k : A -> M S B) : M S B :=
  fun st =>
    match m st with
    | (Ok a, st') => k a st'
    | (Raise e, st') => (Raise e, st')
    | (Diverge, st') => (Diverge, st')
    end.

Notation "'let*' x := c1 'in' c2" := (bind c1 (fun x => c2))
  (at level 10, x name, c1 at level 100, c2 at level 200, only parsing).

(** [try: m except ...: h e] *)
Definition try_except {S A} (m : M S A) (h : exn -> M S A) : M S A :=
  fun st =>
    match m st with
    | (Raise e, st') => h e st'
    | r => r
    end.

Definition with_trace (st : State) (t : list event) : State :=
  {| heap := heap st; trace := t |}.

Definition emit (e : event) : M State unit :=
  fun st => (Ok tt, with_trace st (trace st ++ [e])).

(** [time.sleep(seconds)] *)
Definition sleep (seconds : Q) : M State unit := emit (EvSleep seconds).

Definition is_request (e : event) : bool :=
  match e with EvRequest _ => true | EvSleep _ => false end.

(** Number of HTTP exchanges so far. *)
Definition exchanges (t : list event) : nat :=
  length (List.filter is_request t).

Definition sleeps (t : list event) : list Q :=
  omap (fun e => match e with EvSleep d => Some d | EvRequest _ => None end) t.

Definition requests (t : list event) : list Request :=
  omap (fun e => match e with EvRequest r => Some r | EvSleep _ => None end) t.

(** ** lib/airtable.py *)

(** [seq[i:i+n] for i in range(0, len(seq), n)], for a positive step given
    as a [nat]: the starts are [0, n, 2n, ...] below [len(seq)]. *)
Definition range_starts (stop step : nat) : list nat :=
  (fun k => k * step)%nat <$> seq 0 (Nat.div (stop + (step - 1)) step).

Definition slice {A} (l : list A) (start stop : nat) : list A :=
  take (stop - start) (drop start l).

(** [chunked]: [range] raises [ValueError] on a zero step and is empty on a
    negative one. *)
Definition chunked {S A} (l : list A) (n : Z) : M S (list (list A)) :=
  if n =? 0 then raise ValueError
  else if n <? 0 then ret []
  else
    let step := Z.to_nat n in
    ret ((fun i => slice l i (i + step)) <$> range_starts (length l) step).

(** A payload as the Python object it is: each envelope refers to the
    caller's record. *)
Record EnvelopeObj := { eo_id : option pyval; eo_fields : loc }.
Record PayloadObj := { po_records : list EnvelopeObj; po_typecast : bool }.

(** The dict a reference points to.  A Python reference always points to
    an object; a reference outside the heap reads as an empty dict. *)
Definition heap_get (l : loc) (h : gmap loc pydict) : pydict :=
  default ∅ (h !! l).

(** [record.pop(key)] *)
Definition dict_pop (l : loc) (key : string) : M State pyval :=
  fun st =>
    let d := heap_get l (heap st) in
    match d !! key with
    | Some v =>
        (Ok v, {| heap := <[l := delete key d]> (heap st); trace := trace st |})
    | None => (Raise (KeyError key), st)
    end.

Definition build_append_payload (records : list loc) : M State PayloadObj :=
  ret {| po_records := (fun record => {| eo_id := None; eo_fields := record |})
                         <$> records;
         po_typecast := true |}.

Fixpoint update_envelopes (records : list loc) : M State (list EnvelopeObj) :=
  match records with
  | [] => ret []
  | record :: rest =>
      let* id := dict_pop record "id" in
      let* envelopes := update_envelopes rest in
      ret ({| eo_id := Some id; eo_fields := record |} :: envelopes)
  end.

Definition build_update_payload (records : list loc) : M State PayloadObj :=
  let* envelopes := update_envelopes records in
  ret {| po_records := envelopes; po_typecast := true |}.

(** What [requests] puts on the wire for [json=payload]: the objects as
    they are when the call is made. *)
Definition serialize (p : PayloadObj) : M State Payload :=
  fun st =>
    (Ok {| p_records :=
             (fun e => {| env_id := eo_id e;
                          env_fields := heap_get (eo_fields e) (heap st) |})
               <$> po_records p;
           p_typecast := po_typecast p |}, st).

(** Truthiness of a decoded JSON value. *)
Definition json_truthy (v : json) : bool :=
  match v with
  | JNull => false
  | JBool b => b
  | JInt z => negb (z =? 0)
  | JFloat (F64 m _) => negb (m =? 0)
  | JFloat _ => true
  | JStr s => PyStr.truthy s
  | JArr items => match items with [] => false | _ => true end
  | JObj members => match members with [] => false | _ => true end
  end.

(** [needle in container]: substring of a string, element of a list, key of
    a dict; anything else is not iterable. *)
Definition json_contains_str (container : json) (needle : string) : outcome bool :=
  match container with
  | JStr s => Ok (PyStr.contains s needle)
  | JArr items =>
      Ok (existsb (fun v => match v with
                            | JStr s => String.eqb s needle
                            | _ => false
                            end) items)
  | JObj members => Ok (existsb (fun kv => String.eqb (fst kv) needle) members)
  | _ => Raise TypeError
  end.

(** Iterating a decoded JSON value. *)
Definition json_iter (v : json) : outcome (list json) :=
  match v with
  | JArr items => Ok items
  | JStr s => Ok ((fun c => JStr (String c EmptyString)) <$> list_ascii_of_string s)
  | JObj members => Ok ((fun kv => JStr (fst kv)) <$> members)
  | _ => Raise TypeError
  end.

Definition lift {S A} (r : outcome A) : M S A := fun st => (r, st).

(** [response.json()] *)
Definition response_json (r : Response) : outcome json :=
  match body r with
  | Some data => Ok data
  | None => Raise JSONDecodeError
  end.

(** [data.get(key, default)] on whatever [response.json()] returned. *)
Definition data_get (data : json) (key : string) (dflt : json) : outcome json :=
  match data with
  | JObj members => Ok (default dflt (obj_get key members))
  | _ => Raise AttributeError
  end.

(** [is_iterator_error]: the membership test sits in the [else] branch of
    the [try], so what it raises is not caught. *)
Definition is_iterator_error (response : Response) : outcome bool :=
  if status_code response =? 422 then
    match response_json response with
    | Ok data =>
        match data_get data "error" (JStr "") with
        | Ok err => json_contains_str err "LIST_RECORDS_ITERATOR_NOT_AVAILABLE"
        | Raise e => Raise e
        | Diverge => Diverge
        end
    | _ => Ok false
    end
  else Ok false.

(** The instance attributes of [AirtableClient] that the methods read. *)
Record AirtableClient :=
  { base_id : string;
    write_chunk_size : Z;
    requests_per_second_limit : positive }.

Section Client.

(** The API server, seen from the client: the response to the [n]-th HTTP
exchange of the run (counting from 0).  The client is deterministic, so
every behaviour of a server in one run is such a sequence. *)
Variable server : nat -> Response.

(** [urllib.parse.quote] and the formatting of a value in an f-string. *)
Variable quote : string -> string.
Variable format_json : json -> string.

Variable self : AirtableClient.

(** [self.session.request(method, url, headers=headers, json=json)] *)
Definition session_request (req : Request) : M State Response :=
fun st =>
(Ok (server (exchanges (trace st))),
 with_trace st (trace st ++ [EvRequest req])).

(** [response.raise_for_status()] *)
Definition raise_for_status (response : Response) : M State unit :=
if (400 <=? status_code response) && (status_code response <? 600)
then raise (HTTPError response)
else ret tt.

(** [math.ceil(wait * 1.5)] *)
Definition next_wait (wait : Z) : Z := Qceiling (inject_Z wait * (3 # 2)).

(** The [while True] loop of [request]; the [log.warn] leaves no trace. *)
Fixpoint request_loop (fuel : nat) (req : Request) (retries : nat) (wait : Z)
: M State Response :=
match fuel with
| O => diverge
| S fuel' =>
let* response := session_request req in
if negb (status_code response =? 429) || (retries =? 3)%nat
then ret response
else
let retries := S retries in
let* _ := sleep (inject_Z wait) in
request_loop fuel' req retries (next_wait wait)
end.

Definition default_headers (method : string) : gmap string string :=
if existsb (String.eqb (PyStr.lower method)) ["put"; "post"; "patch"]%string
then {[ "Content-Type"%string := "application/json"%string ]}
else ∅.

(** [AirtableClient.request]; the loop runs at most four times, which is
the fuel it is given ([request_loop_total] below). *)
Definition request (method url : string) (json : option Payload)
(headers : gmap string string) : M State Response :=
let headers := headers ∪ default_headers method in
let req := {| req_method := method; req_url := url;
        req_headers := headers; req_json := json |} in
let* response := request_loop 4 req 0 30 in
let* _ := raise_for_status response in
let* _ := sleep (1 # requests_per_second_limit self) in
ret response.

Definition table_url (table_name : string) : string :=
"https://api.airtable.com/v0/" +:+ base_id self +:+ "/" +:+ quote table_name.

Definition format_offset (offset : json) : string :=
match offset with
| JStr s => s
| other => format_json other
end.

(** One turn of the generator [iter_chunks], from the request to the
[yield]: the chunk yielded and the offset the generator resumes with
([JNull], Python's [None], when it will stop). *)
Definition iter_chunks_next (table_url : string) (offset : json)
: M State (json * json) :=
let url := if json_truthy offset
     then table_url +:+ "?offset=" +:+ format_offset offset
     else table_url in
let* response :=
try_except (request "get" url None ∅)
(fun exc =>
 match exc with
 | HTTPError r =>
     let* it := lift (is_iterator_error r) in
     if it : bool then raise AirtableIteratorError else raise exc
 | _ => raise exc
 end) in
let* data := lift (response_json response) in
let* records := lift (data_get data "records" (JArr [])) in
let* offset := lift (data_get data "offset" JNull) in
ret (records, offset).

(** [list(itertools.chain.from_iterable(self.iter_chunks(table_name)))]:
each chunk is iterated before the generator is resumed. *)
Fixpoint drain (fuel : nat) (table_url : string) (offset : json)
(acc : list json) : M State (list json) :=
match fuel with
| O => diverge
| S fuel' =>
let* step := iter_chunks_next table_url offset in
let* items := lift (json_iter step.1) in
match step.2 with
| JNull => ret (acc ++ items)
| offset => drain fuel' table_url offset (acc ++ items)
end
end.

Definition scan (fuel : nat) (table_name : string) : M State (list json) :=
drain fuel (table_url table_name) JNull [].

(** The [while True] loop of [read]. *)
Fixpoint read_loop (tries fuel : nat) (table_name : string) (restarts : nat)
: M State (list json) :=
match tries with
| O => diverge
| S tries' =>
try_except (scan fuel table_name)
(fun exc =>
   match exc with
   | AirtableIteratorError =>
       if (restarts =? 3)%nat then raise exc
       else read_loop tries' fuel table_name (S restarts)
   | _ => raise exc
   end)
end.

(** [AirtableClient.read]; [fuel] bounds the pages of one scan. *)
Definition read (fuel : nat) (table_name : string) : M State (list json) :=
read_loop 4 fuel table_name 0.

Fixpoint for_each {A} (items : list A) (body : A -> M State unit) : M State unit :=
match items with
| [] => ret tt
| x :: rest => let* _ := body x in for_each rest body
end.

(** [AirtableClient.write] *)
Definition write (records : list loc) (table_name : string) (update : bool)
: M State unit :=
let url := table_url table_name in
let '(method, build_payload) :=
if update then ("patch"%string, build_update_payload)
else ("post"%string, build_append_payload) in
let* chunks := chunked records (write_chunk_size self) in
for_each chunks (fun chunk =>
let* payload := build_payload chunk in
let* json := serialize payload in
let* _ := request method url (Some json) ∅ in
ret tt).

(** [AirtableClient.append] and [AirtableClient.update] *)
Definition append (records : list loc) (table_name : string) : M State unit :=
write records table_name false.

Definition update (records : list loc) (table_name : string) : M State unit :=
write records table_name true.

End Client.

(** ** load.py *)

(** [parse_table_name(name).values()]: database, schema, table. *)
Definition parse_table_name (name : string)
  : outcome (option string * string * string) :=
  match PyStr.split "." name with
  | [database; schema; table] => Ok (Some database, schema, table)
  | [schema; table] => Ok (None, schema, table)
  | _ => Raise ValueError
  end.

(** A Python [dict] in insertion order: [d[k] = v] and [d.pop(k, _)]. *)
Fixpoint dict_set (k : string) (v : json) (d : list (string * json))
  : list (string * json) :=
  match d with
  | [] => [(k, v)]
  | (k', v') :: rest =>
      if String.eqb k' k then (k', v) :: rest else (k', v') :: dict_set k v rest
  end.

Definition dict_remove (k : string) (d : list (string * json))
  : list (string * json) :=
  List.filter (fun kv => negb (String.eqb (fst kv) k)) d.

(** [d.update(other)] *)
Definition dict_update (d other : list (string * json)) : list (string * json) :=
  fold_left (fun acc kv => dict_set (fst kv) (snd kv) acc) other d.

(** [process_record]: [pop] exists with two arguments on a dict only, and
    [fields.keys()] on a dict only. *)
Definition process_record (record : json) : outcome (list (string * json)) :=
  match record with
  | JObj members =>
      let fields := default (JObj []) (obj_get "fields" members) in
      let record := dict_remove "fields" members in
      match fields with
      | JObj fmembers => Ok (dict_update record fmembers)
      | _ => Raise AttributeError
      end
  | JArr _ => Raise TypeError
  | _ => Raise AttributeError
  end.

Fixpoint process_records (records : list json)
  : outcome (list (list (string * json))) :=
  match records with
  | [] => Ok []
  | record :: rest =>
      match process_record record with
      | Ok r =>
          match process_records rest with
          | Ok rs => Ok (r :: rs)
          | other => other
          end
      | Raise e => Raise e
      | Diverge => Diverge
      end
  end.

Module Rename.

Definition is_word (c : ascii) : bool :=
let n := nat_of_ascii c in
(((97 <=? n) && (n <=? 122)) || ((48 <=? n) && (n <=? 57)) || (n =? 95))%nat.

(** [re.sub(r"[^a-z0-9_]+", "_", s)]; [in_run] says that the previous
character was already replaced. *)
Fixpoint sub_non_word (in_run : bool) (s : string) : string :=
match s with
| EmptyString => EmptyString
| String c s' =>
if is_word c then String c (sub_non_word false s')
else if in_run then sub_non_word true s'
   else String "_" (sub_non_word true s')
end.

(** [re.sub(r"_{2,}", "_", s)]; [after_underscore] says that the previous
character was an underscore. *)
Fixpoint squeeze_underscores (after_underscore : bool) (s : string) : string :=
match s with
| EmptyString => EmptyString
| String c s' =>
if Ascii.eqb c "_" then
if after_underscore then squeeze_underscores true s'
else String c (squeeze_underscores true s')
else String c (squeeze_underscores false s')
end.

End Rename.

Definition rename_column (name : string) : string :=
  let result := Rename.sub_non_word false (PyStr.lower name) in
  let result := Rename.squeeze_underscores false result in
  result.

(** A cell of a frame: a missing value (NaN, NA) or a value. *)
Inductive cell : Type :=
| CNaN
| CVal (v : json).

Record DataFrame := { df_columns : list string; df_rows : list (list cell) }.

Definition FieldInfo := list (string * string).

(** How often [name] occurs among [fields]. *)
Definition occurrences (name : string) (fields : list string) : nat :=
  length (List.filter (String.eqb name) fields).

(** What pandas makes of the values of one column is left open: the dtype
    it infers for them and what each value becomes under that dtype (an
    int beside a missing value becomes a float, an int beyond 2^53 is
    rounded with it, ...).  Each function takes the values of a column,
    top to bottom, and gives the values that are stored, as many and in
    the same order; the values are taken to stay JSON values. *)
Record Pandas :=
  { (** [pd.DataFrame(records, columns=columns)], one column of it *)
    pd_construct : list cell -> list cell;
    (** the values of the column that [df[name] = series.apply(f)]
        stores, given the results of [f] *)
    pd_apply : list cell -> list cell;
    (** [df.convert_dtypes()], one column of it *)
    pd_convert : list cell -> list cell }.

(** Column [j] of the rows of a frame. *)
Definition column (j : nat) (rows : list (list cell)) : list cell :=
  (fun row => default CNaN (row !! j)) <$> rows.

(** The rows with [values] as column [j]. *)
Definition set_column (j : nat) (values : list cell) (rows : list (list cell))
  : list (list cell) :=
  imap (fun i row => <[j := default CNaN (values !! i)]> row) rows.

(** The rows after pandas has worked on column [j], and on each of the
    first [width] columns. *)
Definition map_column (f : list cell -> list cell) (j : nat)
    (rows : list (list cell)) : list (list cell) :=
  set_column j (f (column j rows)) rows.

Definition map_columns (f : list cell -> list cell) (width : nat)
    (rows : list (list cell)) : list (list cell) :=
  fold_left (fun rows j => map_column f j rows) (seq 0 width) rows.

(** The place of the first column labelled [name]. *)
Fixpoint index_of (name : string) (columns : list string) : option nat :=
  match columns with
  | [] => None
  | c :: rest =>
      if String.eqb c name then Some O else S <$> index_of name rest
  end.

Section Load.

(** [json.dumps] *)
Variable json_dumps : json -> string.

Variable pd : Pandas.

(** [maybe_jsonify]: [pd.isna] holds of [None] and of the float NaN. *)
Definition maybe_jsonify (value : cell) : cell :=
match value with
| CNaN => value
| CVal v =>
let is_null :=
match v with
| JArr _ | JObj _ => false
| JNull | JFloat F64_nan => true
| _ => false
end in
if is_null then value else CVal (JStr (json_dumps v))
end.

(** [pd.DataFrame(records, columns=columns)]: under every column the value
each record has under that name, NaN when it has none, as pandas
stores the column. *)
Definition frame_of_records (records : list (list (string * json)))
(columns : list string) : DataFrame :=
{| df_columns := columns;
 df_rows :=
 map_columns (pd_construct pd) (length columns)
 ((fun record =>
     (fun c => match obj_get c record with
               | Some v => CVal v
               | None => CNaN
               end) <$> columns) <$> records) |}.

(** [df[name] = df[name].apply(f)].  Under a label that two columns carry,
[df[name]] is a frame, and [apply] calls [f] on each of its columns:
[maybe_jsonify] then tests the truth of a Series and raises
[ValueError]; a frame without rows is copied, [f] being called on no
column of it. *)
Definition apply_column (name : string) (f : cell -> cell) (df : DataFrame)
: outcome DataFrame :=
match index_of name (df_columns df) with
| None => Raise (KeyError name)
| Some j =>
if (occurrences name (df_columns df) =? 1)%nat then
  Ok {| df_columns := df_columns df;
        df_rows :=
          map_column (fun values => pd_apply pd (f <$> values)) j
            (df_rows df) |}
else
  match df_rows df with
  | [] => Ok df
  | _ => Raise ValueError
  end
end.

Definition is_serialized_type (field_type : string) : bool :=
existsb (String.eqb field_type)
["multipleSelects"; "multilineText"; "formula"]%string.

(** The loop over [field_info.items()]. *)
Fixpoint serialize_fields (field_info : FieldInfo) (df : DataFrame)
: outcome DataFrame :=
match field_info with
| [] => Ok df
| (field_name, field_type) :: rest =>
if is_serialized_type field_type then
  match apply_column field_name maybe_jsonify df with
  | Ok df => serialize_fields rest df
  | Raise e => Raise e
  | Diverge => Diverge
  end
else serialize_fields rest df
end.

Definition result_to_df (data : list json) (field_info : FieldInfo)
: outcome DataFrame :=
let columns := ["id"%string] ++ (fst <$> field_info) ++ ["createdTime"%string] in
match process_records data with
| Ok records =>
let df := frame_of_records records columns in
match serialize_fields field_info df with
| Ok df =>
  Ok {| df_columns := rename_column <$> df_columns df;
        df_rows :=
          map_columns (pd_convert pd) (length (df_columns df))
            (df_rows df) |}
| Raise e => Raise e
| Diverge => Diverge
end
| Raise e => Raise e
| Diverge => Diverge
end.

End Load.

(** The warehouse: tables by qualified name [schema.table].  Schemas are
    implicit ([create schema if not exists] changes no table).  The
    database refuses a statement only for what the tables show - a table
    that is missing, or present, against the statement - and takes every
    value; other failures of the database or the connection are outside
    this model. *)
Record Table := { t_columns : list string; t_rows : list (list cell) }.

Abbreviation Warehouse := (gmap string Table).

Definition identifier (schema table : string) : string :=
  schema +:+ "." +:+ table.

Module Sql.

(** [drop table if exists identifier(name)] *)
Definition drop_table_if_exists (name : string) : M Warehouse unit :=
fun wh => (Ok tt, delete name wh).

(** [drop table identifier(name)] *)
Definition drop_table (name : string) : M Warehouse unit :=
fun wh =>
match wh !! name with
| Some _ => (Ok tt, delete name wh)
| None => (Raise ProgrammingError, wh)
end.

(** [delete from identifier(name)] *)
Definition delete_from (name : string) : M Warehouse unit :=
fun wh =>
match wh !! name with
| Some t => (Ok tt, <[name := {| t_columns := t_columns t; t_rows := [] |}]> wh)
| None => (Raise ProgrammingError, wh)
end.

(** [describe table identifier(name)] *)
Definition describe_table (name : string) : M Warehouse unit :=
fun wh =>
match wh !! name with
| Some _ => (Ok tt, wh)
| None => (Raise ProgrammingError, wh)
end.

(** [alter table identifier(a) swap with identifier(b)] *)
Definition swap_with (a b : string) : M Warehouse unit :=
fun wh =>
match wh !! a, wh !! b with
| Some ta, Some tb => (Ok tt, <[a := tb]> (<[b := ta]> wh))
| _, _ => (Raise ProgrammingError, wh)
end.

(** [alter table identifier(a) rename to identifier(b)] *)
Definition rename_to (a b : string) : M Warehouse unit :=
fun wh =>
match wh !! a, wh !! b with
| Some ta, None => (Ok tt, <[b := ta]> (delete a wh))
| _, _ => (Raise ProgrammingError, wh)
end.

Inductive if_exists_policy := IfExistsFail | IfExistsAppend.

(** The columns of the table that [to_sql] creates for the labels of a
frame: a label that is listed twice gives one column, in the place where
the label comes first (the later column of that name replaces the
earlier one in the table definition). *)
Fixpoint distinct_labels (seen labels : list string) : list string :=
match labels with
| [] => []
| c :: rest =>
if bool_decide (c ∈ seen) then distinct_labels seen rest
else c :: distinct_labels (c :: seen) rest
end.

Definition table_columns (labels : list string) : list string :=
distinct_labels [] labels.

(** The value a row of a frame gives for a label: the values are passed
by label, so under a label listed twice the last of its values. *)
Definition last_value (label : string) (labels : list string)
(row : list cell) : cell :=
fold_left
(fun value item => if String.eqb item.1 label then item.2 else value)
(zip labels row) CNaN.

(** The row that is inserted into a table with [columns]; a column the
frame does not have is left null. *)
Definition stored_row (columns labels : list string) (row : list cell)
: list cell :=
(fun c => if bool_decide (c ∈ labels) then last_value c labels row else CNaN)
<$> columns.

(** [df.to_sql(table, connection, schema=schema, if_exists=...)]: creates
the table when it is missing, also for a frame without rows, and then
inserts the rows by label; nothing is inserted, and nothing checked, for
a frame without rows.  The database takes every value, and refuses an
insert only for a label that is no column of the table. *)
Definition to_sql (df : DataFrame) (name : string) (if_exists : if_exists_policy)
: M Warehouse unit :=
fun wh =>
match wh !! name with
| None =>
let columns := table_columns (df_columns df) in
(Ok tt, <[name := {| t_columns := columns;
                     t_rows := stored_row columns (df_columns df)
                                 <$> df_rows df |}]> wh)
| Some t =>
match if_exists with
| IfExistsFail => (Raise ValueError, wh)
| IfExistsAppend =>
    match df_rows df with
    | [] => (Ok tt, wh)
    | rows =>
        if forallb (fun c => bool_decide (c ∈ t_columns t)) (df_columns df)
        then (Ok tt, <[name := {| t_columns := t_columns t;
                                  t_rows := t_rows t
                                            ++ (stored_row (t_columns t)
                                                  (df_columns df) <$> rows) |}]> wh)
        else (Raise ProgrammingError, wh)
    end
end
end.

End Sql.

(** [table_exists] *)
Definition table_exists (schema table : string) : M Warehouse bool :=
  try_except
    (let* _ := Sql.describe_table (identifier schema table) in ret true)
    (fun exc =>
       match exc with
       | ProgrammingError => ret false
       | _ => raise exc
       end).

(** [materialize]; the [dtype] argument only chooses column types. *)
Definition materialize (df : DataFrame) (schema table : string)
    (if_exists : Sql.if_exists_policy) : M Warehouse unit :=
  Sql.to_sql df (identifier schema table) if_exists.

(** What the loader iterates over: a generator that yields chunks and then
    stops or raises. *)
Inductive ChunkStream : Type :=
| Stop
| Yield (chunk : list json) (rest : ChunkStream)
| Throw (e : exn).

(** [pd.concat([df, pd.DataFrame([{c: None for c in df.columns}])])]: the
    frame with one more row, of [None].  The frames are aligned by
    label; when the frame lists a label twice its labels differ from the
    keys of the dict, and pandas refuses to align on labels that are not
    unique. *)
Definition concat_null_row (df : DataFrame) : outcome DataFrame :=
  if bool_decide (NoDup (df_columns df))
  then Ok {| df_columns := df_columns df;
             df_rows := df_rows df
                        ++ [(fun _ => CVal JNull) <$> df_columns df] |}
  else Raise InvalidIndexError.

Section Loader.

Variable json_dumps : json -> string.

Variable pd : Pandas.

(** The [for chunk in chunks] loop of [_load_chunks]. *)
Fixpoint load_loop (chunks : ChunkStream) (field_info : FieldInfo)
(schema temporary_table : string) (count : nat) : M Warehouse nat :=
match chunks with
| Stop => ret count
| Throw e => raise e
| Yield chunk rest =>
let* df := lift (result_to_df json_dumps pd chunk field_info) in
let* _ := materialize df schema temporary_table Sql.IfExistsAppend in
let count := (count + length (df_rows df))%nat in
load_loop rest field_info schema temporary_table count
end.

(** [_load_chunks] *)
Definition load_chunks (chunks : ChunkStream) (field_info : FieldInfo)
(destination : string) : M Warehouse nat :=
let* parts := lift (parse_table_name destination) in
let '(database, schema, table) := parts in
let temporary_table := table +:+ "__loader_tmp" in
let schema :=
match database with
| Some database =>
if PyStr.truthy database then database +:+ "." +:+ schema else schema
| None => schema
end in
let* _ := Sql.drop_table_if_exists (identifier schema temporary_table) in
let* count := load_loop chunks field_info schema temporary_table 0 in
let* _ :=
if (count =? 0)%nat then
let* nulls_df := lift (result_to_df json_dumps pd [] field_info) in
let* nulls_df := lift (concat_null_row nulls_df) in
let* _ := materialize nulls_df schema temporary_table Sql.IfExistsFail in
Sql.delete_from (identifier schema temporary_table)
else ret tt in
let* exists_ := table_exists schema table in
let* _ :=
if exists_ : bool then
let* _ := Sql.swap_with (identifier schema temporary_table)
          (identifier schema table) in
Sql.drop_table (identifier schema temporary_table)
else
Sql.rename_to (identifier schema temporary_table)
(identifier schema table) in
ret count.

End Loader.

(** ** send.py *)

Module Strftime.

Definition digits (n : nat) : string :=
DecimalString.NilEmpty.string_of_uint (Nat.to_uint n).

(** Two digits, zero padded. *)
Definition pad2 (n : nat) : string :=
if (n <? 10)%nat then "0" +:+ digits n else digits n.

(** [t.strftime("%m/%d/%Y %H:%M:%S")], for a year of four digits. *)
Definition format (t : datetime) : string :=
pad2 (d_month (dt_date t)) +:+ "/" +:+ pad2 (d_day (dt_date t)) +:+ "/"
+:+ digits (d_year (dt_date t)) +:+ " "
+:+ pad2 (dt_hour t) +:+ ":" +:+ pad2 (dt_minute t) +:+ ":"
+:+ pad2 (dt_second t).

End Strftime.

(** [result[key].append(value)] on a [defaultdict(list)]: a key that is
    missing is entered, after the others, with the empty list first. *)
Fixpoint defaultdict_append (key value : string)
  (result : list (string * list string)) : list (string * list string) :=
  match result with
  | [] => [(key, [value])]
  | (k, values) :: rest =>
      if String.eqb k key then (k, values ++ [value]) :: rest
      else (k, values) :: defaultdict_append key value rest
  end.

(** [get_field_mappings]: the items of the result, in insertion order. *)
Definition get_field_mappings (airtable_fields : list string)
  : list (string * list string) :=
  fold_left
    (fun result field =>
       defaultdict_append field
         (PyStr.replace " " "_" (PyStr.lower field)) result)
    airtable_fields (defaultdict_append "id" "id" []).

(** The mappings as [row_to_record] takes them, where the candidates of a
    field may also be [None]. *)
Definition mapping_items (field_mappings : list (string * list string))
  : list (string * option (list string)) :=
  (fun item => (item.1, Some item.2)) <$> field_mappings.

Section Send.

(** [float(value)] for a [Decimal]. *)
Variable float_of_decimal : decimal -> float64.

(** The encoding of a selected value in [row_to_record].  A
[datetime.date] that is not a [datetime] reaches
[value.isoformat("%m/%d/%Y")], and [date.isoformat] takes no argument. *)
Definition encode_value (query_name : string) (value : pyval) : outcome pyval :=
match value with
| PDecimal d => Ok (PFloat (float_of_decimal d))
| PDatetime t => Ok (PStr (Strftime.format t))
| PDate _ => Raise TypeError
| PStr s =>
if PyStr.truthy (PyStr.strip s) && PyStr.endswith query_name "_list"
then Ok (PList ((fun item => PStr (PyStr.strip item)) <$> PyStr.split "|" s))
else Ok value
| _ => Ok value
end.

(** The inner loop: the first candidate whose value is not [None]. *)
Fixpoint first_candidate (row : pydict) (query_names : list string)
: outcome (option pyval) :=
match query_names with
| [] => Ok None
| query_name :: rest =>
match row !! query_name with
| None | Some PNone => first_candidate row rest
| Some value =>
  match encode_value query_name value with
  | Ok v => Ok (Some v)
  | Raise e => Raise e
  | Diverge => Diverge
  end
end
end.

(** The outer loop over [field_mappings.items()]. *)
Fixpoint row_to_record_loop (row : pydict)
(field_mappings : list (string * option (list string))) (result : pydict)
: outcome pydict :=
match field_mappings with
| [] => Ok result
| (airtable_name, query_names) :: rest =>
let query_names := default [] query_names in
match first_candidate row query_names with
| Ok (Some value) =>
  row_to_record_loop row rest (<[airtable_name := value]> result)
| Ok None => row_to_record_loop row rest result
| Raise e => Raise e
| Diverge => Diverge
end
end.

Definition row_to_record (row : pydict)
(field_mappings : list (string * option (list string))) : outcome pydict :=
row_to_record_loop row field_mappings ∅.

End Send.

Section Sender.

Variable server : nat -> Response.
Variable quote : string -> string.
Variable self : AirtableClient.
Variable float_of_decimal : decimal -> float64.

(** A new [dict]: an object that no reference made so far points to. *)
Definition new_dict (d : pydict) : M State loc :=
fun st =>
let l := fresh (dom (heap st)) in
(Ok l, {| heap := <[l := d]> (heap st); trace := trace st |}).

(** [[row_to_record(row, field_mappings) for row in result]] *)
Fixpoint records_of (result : list pydict)
(field_mappings : list (string * option (list string)))
: M State (list loc) :=
match result with
| [] => ret []
| row :: rest =>
let* record := lift (row_to_record float_of_decimal row field_mappings) in
let* l := new_dict record in
let* ls := records_of rest field_mappings in
ret (l :: ls)
end.

(** [send_records]; [table_info] is an item of the configuration, as the
YAML reader returns it. *)
Definition send_records (airtable_table : string) (result : list pydict)
(table_info : list (string * json))
(field_mappings : list (string * option (list string))) : M State unit :=
let* name :=
lift (match obj_get "table" table_info with
  | Some name => Ok name
  | None => Raise (KeyError "table")
  end) in
let update := json_truthy (default (JBool false) (obj_get "update" table_info)) in
let* records := records_of result field_mappings in
match records with
| [] => ret tt
| _ => write server quote self records airtable_table update
end.

End Sender.

(** [rechunked]: the buffer [xs] is yielded when it holds [n] records or
    more, and once more, if it is not empty, when the chunks end; an
    exception of the chunks ends the generator and the buffer is lost. *)
Fixpoint rechunked_from (xs : list json) (chunks : ChunkStream) (n : Z)
  : ChunkStream :=
  match chunks with
  | Stop => match xs with [] => Stop | _ => Yield xs Stop end
  | Throw e => Throw e
  | Yield chunk rest =>
      let xs := xs ++ chunk in
      if n <=? Z.of_nat (length xs)
      then Yield xs (rechunked_from [] rest n)
      else rechunked_from xs rest n
  end.

Definition rechunked (chunks : ChunkStream) (n : Z) : ChunkStream :=
  rechunked_from [] chunks n.

Section Restarts.

Variable json_dumps : json -> string.

Variable pd : Pandas.

(** The chunks that the call of [airtable.iter_chunks(table_name)] made
after [n] restarts turns out to deliver. *)
Variable scans : nat -> ChunkStream.

(** The [while True] loop of [load]. *)
Fixpoint load_from (tries restarts : nat) (field_info : FieldInfo)
(destination : string) : M Warehouse nat :=
match tries with
| O => diverge
| S tries' =>
try_except
(load_chunks json_dumps pd (rechunked (scans restarts) 5000) field_info
 destination)
(fun exc =>
   match exc with
   | AirtableIteratorError =>
       if (restarts =? 3)%nat then raise exc
       else load_from tries' (S restarts) field_info destination
   | _ => raise exc
   end)
end.

(** [load] *)
Definition load (field_info : FieldInfo) (destination : string)
: M Warehouse nat :=
load_from 4 0 field_info destination.

End Restarts.


(** ** Vocabulary of the statements and inputs of the examples *)

(** The status codes on which [raise_for_status] raises. *)
Definition is_error_status (r : Response) : bool :=
  (400 <=? status_code r) && (status_code r <? 600).

(** The request [request] hands to the session. *)
Definition request_of (method url : string) (json : option Payload)
    (headers : gmap string string) : Request :=
  {| req_method := method; req_url := url;
     req_headers := headers ∪ default_headers method; req_json := json |}.

(** What a call of [request] leaves on the trace when every response is a
    429: four exchanges, three sleeps between them, nothing after. *)
Definition exhausted_events (req : Request) : list event :=
  [EvRequest req; EvSleep (30 # 1); EvRequest req; EvSleep (45 # 1);
   EvRequest req; EvSleep (68 # 1); EvRequest req].

(** A response on which [request] neither retries nor raises. *)
Definition is_success (r : Response) : bool :=
  negb (status_code r =? 429) && negb (is_error_status r).



(** [ceil(n / size)] for a positive [size]. *)
Definition ceil_div (n size : nat) : nat := Nat.div (n + (size - 1)) size.

(** The chunks [chunked] cuts a list into, for a positive size. *)
Definition chunks_of {A} (l : list A) (size : nat) : list (list A) :=
  (fun i => slice l i (i + size)) <$> range_starts (length l) size.

(** The body of an append request for a chunk of records, read in heap [h]. *)
Definition append_body (h : gmap loc pydict) (chunk : list loc) : Payload :=
  {| p_records :=
       (fun l => {| env_id := None; env_fields := heap_get l h |}) <$> chunk;
     p_typecast := true |}.

(** The body of an update request for a chunk of records, as the records
    are in heap [h] before the call. *)
Definition update_body (h : gmap loc pydict) (chunk : list loc) : Payload :=
  {| p_records :=
       (fun l => {| env_id := heap_get l h !! "id"%string;
                    env_fields := delete "id"%string (heap_get l h) |}) <$> chunk;
     p_typecast := true |}.

(** The events of one successful request. *)
Definition exchange_events (self : AirtableClient) (req : Request) : list event :=
  [EvRequest req; EvSleep (1 # requests_per_second_limit self)].

(** The state [st'] is [st] with the [id] popped from the records [ls],
    every other record and every other key as it was. *)
Definition popped (ls : list loc) (st st' : State) : Prop :=
  forall l,
    heap_get l (heap st')
    = if bool_decide (l ∈ ls) then delete "id"%string (heap_get l (heap st))
      else heap_get l (heap st).

(** Every record of [ls] carries an [id] in state [st]. *)
Definition carry_ids (ls : list loc) (st : State) : Prop :=
  forall l, l ∈ ls -> is_Some (heap_get l (heap st) !! "id"%string).

(** The column labels [result_to_df] starts from, and the labels of the
    frame it returns. *)
Definition source_columns (field_info : FieldInfo) : list string :=
  ["id"%string] ++ (fst <$> field_info) ++ ["createdTime"%string].

Definition frame_columns (field_info : FieldInfo) : list string :=
  ["id"%string] ++ (rename_column <$> (fst <$> field_info))
  ++ ["createdtime"%string].

(** The candidate [row_to_record] settles on: the first one whose value in
    the row is present and not [None]. *)
Definition selected (row : pydict) (query_names : list string)
  : option (string * pyval) :=
  head (omap (fun q =>
                match row !! q with
                | None | Some PNone => None
                | Some v => Some (q, v)
                end) query_names).

(** Values that are sent as they are. *)
Definition is_plain (v : pyval) : bool :=
  match v with
  | PNone | PBool _ | PInt _ | PFloat _ | PList _ => true
  | _ => false
  end.

(** The encoding rules, for a value drawn from column [q]. *)
Inductive encoded (float_of_decimal : decimal -> float64)
  : string -> pyval -> pyval -> Prop :=
| encoded_decimal q d :
    encoded float_of_decimal q (PDecimal d) (PFloat (float_of_decimal d))
| encoded_datetime q t :
    encoded float_of_decimal q (PDatetime t) (PStr (Strftime.format t))
| encoded_list q s :
    PyStr.strip s <> EmptyString ->
    PyStr.endswith q "_list" = true ->
    encoded float_of_decimal q (PStr s)
      (PList ((fun item => PStr (PyStr.strip item)) <$> PyStr.split "|" s))
| encoded_string q s :
    PyStr.strip s = EmptyString \/ PyStr.endswith q "_list" = false ->
    encoded float_of_decimal q (PStr s) (PStr s)
| encoded_plain q v :
    is_plain v = true -> encoded float_of_decimal q v v.

(** The chunks a stream yields before it stops or raises. *)
Fixpoint yielded (chunks : ChunkStream) : list (list json) :=
  match chunks with
  | Yield chunk rest => chunk :: yielded rest
  | Stop | Throw _ => []
  end.

(** The schema [_load_chunks] works in: prefixed by the database when the
    destination names one. *)
Definition effective_schema (database : option string) (schema : string)
  : string :=
  match database with
  | Some database =>
      if PyStr.truthy database then database +:+ "." +:+ schema else schema
  | None => schema
  end.

(** The rows of a frame of [result_to_df] as a table created for its
    labels stores them. *)
Definition loaded_rows (field_info : FieldInfo) (df : DataFrame)
  : list (list cell) :=
  Sql.stored_row (Sql.table_columns (frame_columns field_info))
    (frame_columns field_info) <$> df_rows df.

(** The temporary table after the frames were appended to it, in order:
    created by the first of them. *)
Definition appended (field_info : FieldInfo) (frames : list DataFrame)
  : option Table :=
  match frames with
  | [] => None
  | _ => Some {| t_columns := Sql.table_columns (frame_columns field_info);
                 t_rows := concat (loaded_rows field_info <$> frames) |}
  end.

(** The delays [request] sleeps ahead of its first, second and third retry. *)
Definition backoff_delays : list Q := [30 # 1; 45 # 1; 68 # 1].

(** From exchange [n] on, the server serves the given pages, each with the
    offset its response carries ([JNull], Python's [None], when it carries
    none); only the last page has no offset. *)
Inductive serves_cursors (server : nat -> Response)
  : nat -> list (list json * json) -> Prop :=
| cursors_last n members page :
    is_success (server n) = true ->
    body (server n) = Some (JObj members) ->
    obj_get "records" members = Some (JArr page) ->
    default JNull (obj_get "offset" members) = JNull ->
    serves_cursors server n [(page, JNull)]
| cursors_more n members page offset pages :
    is_success (server n) = true ->
    body (server n) = Some (JObj members) ->
    obj_get "records" members = Some (JArr page) ->
    default JNull (obj_get "offset" members) = offset ->
    offset <> JNull ->
    serves_cursors server (S n) pages ->
    serves_cursors server n ((page, offset) :: pages).

(** The URL [iter_chunks] asks for, given the offset it holds. *)
Definition page_url (format_json : json -> string) (table_url : string)
    (offset : json) : string :=
  if json_truthy offset
  then table_url +:+ "?offset=" +:+ format_offset format_json offset
  else table_url.

(** [sep.join(parts)], and the number of occurrences of a character. *)
Fixpoint join (sep : ascii) (parts : list string) : string :=
  match parts with
  | [] => EmptyString
  | [part] => part
  | part :: rest => part +:+ String sep (join sep rest)
  end.

Fixpoint count_char (c : ascii) (s : string) : nat :=
  match s with
  | EmptyString => 0
  | String c' s' => (if Ascii.eqb c' c then 1 else 0) + count_char c s'
  end.

(** Every character of the string passes the test. *)
Fixpoint all_chars (test : ascii -> bool) (s : string) : bool :=
  match s with
  | EmptyString => true
  | String c s' => test c && all_chars test s'
  end.

(** The string has no two underscores in a row; [after_underscore] says
    that an underscore stands just before it. *)
Fixpoint single_underscores (after_underscore : bool) (s : string) : bool :=
  match s with
  | EmptyString => true
  | String c s' =>
      if Ascii.eqb c "_"
      then negb after_underscore && single_underscores true s'
      else single_underscores false s'
  end.

(** How a stream ends: [None] when it stops, the exception when it raises. *)
Fixpoint stream_end (chunks : ChunkStream) : option exn :=
  match chunks with
  | Stop => None
  | Throw e => Some e
  | Yield _ rest => stream_end rest
  end.

(** The query column [get_field_mappings] reads a field from. *)
Definition column_of (field : string) : string :=
  PyStr.replace " " "_" (PyStr.lower field).

(** [field_mappings.get(name)] *)
Fixpoint candidates_of (name : string)
    (field_mappings : list (string * list string)) : option (list string) :=
  match field_mappings with
  | [] => None
  | (k, values) :: rest =>
      if String.eqb k name then Some values else candidates_of name rest
  end.


(** [n] runs in a row, the first after [i] restarts, each ended by
    [AirtableIteratorError], lead from the first warehouse to the second. *)
Inductive aborted_runs (run : nat -> M Warehouse nat)
  : nat -> nat -> Warehouse -> Warehouse -> Prop :=
| aborted_none i wh : aborted_runs run i 0 wh wh
| aborted_more i n wh wh1 wh2 :
    run i wh = (Raise AirtableIteratorError, wh1) ->
    aborted_runs run (S i) n wh1 wh2 ->
    aborted_runs run i (S n) wh wh2.


(** The run of [_load_chunks] that [load] makes after [i] restarts. *)
Definition load_run (json_dumps : json -> string) (pd : Pandas)
    (scans : nat -> ChunkStream) (field_info : FieldInfo)
    (destination : string) (i : nat) : M Warehouse nat :=
  load_chunks json_dumps pd (rechunked (scans i) 5000) field_info destination.


(** Pandas gives as many values as a column has. *)
Definition keeps_lengths (pd : Pandas) : Prop :=
  (forall values, length (pd_construct pd values) = length values)
  /\ (forall values, length (pd_apply pd values) = length values)
  /\ (forall values, length (pd_convert pd values) = length values).

(** Whether the FieldInfo gives [name] one of the serialized types. *)
Definition serialized_in (field_info : FieldInfo) (name : string) : bool :=
  existsb (fun field => String.eqb field.1 name && is_serialized_type field.2)
    field_info.

(** The value a processed record has under a name, NaN when it has none. *)
Definition record_cell (name : string) (record : list (string * json)) : cell :=
  match obj_get name record with
  | Some v => CVal v
  | None => CNaN
  end.


Module Examples.

Definition client : AirtableClient :=
{| base_id := "appBase"; write_chunk_size := 10;
 requests_per_second_limit := 5 |}.

Definition init : State := {| heap := ∅; trace := [] |}.

Definition rate_limited : Response := {| status_code := 429; body := None |}.

(** A server that answers every exchange with a 429. *)
Definition always_429 (n : nat) : Response := rate_limited.


(** [quote] on a name made of unreserved characters; the formatting of an
offset that is no string is never reached in the examples. *)
Definition quote_unreserved (s : string) : string := s.
Definition format_unused (v : json) : string := "".

Definition iterator_expired : Response :=
{| status_code := 422;
 body := Some (JObj [("error"%string,
                  JStr "LIST_RECORDS_ITERATOR_NOT_AVAILABLE")]) |}.

Definition page (records : list json) (offset : option string) : Response :=
{| status_code := 200;
 body := Some (JObj (("records"%string, JArr records)
                 :: match offset with
                    | Some o => [("offset"%string, JStr o)]
                    | None => []
                    end)) |}.

Definition rec_ (id : string) : json :=
JObj [("id"%string, JStr id); ("createdTime"%string, JStr "2020-01-01");
("fields"%string, JObj [("Name"%string, JStr id)])].



(** A 422 whose payload has a null [error] member. *)
Definition null_error : Response :=
{| status_code := 422; body := Some (JObj [("error"%string, JNull)]) |}.

Definition always_null_error (n : nat) : Response := null_error.


(** A server that accepts every request. *)
Definition accepting (n : nat) : Response :=
{| status_code := 200; body := Some (JObj []) |}.

(** Twenty-five records without an id, at the references 1 to 25. *)
Definition refs25 : list loc := Pos.of_nat <$> seq 1 25.

Definition heap25 : gmap loc pydict :=
list_to_map ((fun l => (l, {[ "Name"%string := PInt (Z.pos l) ]})) <$> refs25).

Definition state25 : State := {| heap := heap25; trace := [] |}.

(** Three records that carry an id, written two at a time. *)
Definition client2 : AirtableClient :=
{| base_id := "appBase"; write_chunk_size := 2;
 requests_per_second_limit := 5 |}.

Definition heap3 : gmap loc pydict :=
{[ 1%positive := {[ "id"%string := PStr "recA"; "Name"%string := PStr "a" ]};
 2%positive := {[ "id"%string := PStr "recB"; "Name"%string := PStr "b" ]};
 3%positive := {[ "id"%string := PStr "recC" ]} ]}.

Definition state3 : State := {| heap := heap3; trace := [] |}.


(** [json.dumps] is not reached on a frame without rows. *)
Definition dumps_unused (v : json) : string := "".

(** A pandas that stores every value as it is given, as pandas does for
columns of strings. *)
Definition as_given : Pandas :=
{| pd_construct := fun values => values;
 pd_apply := fun values => values;
 pd_convert := fun values => values |}.

Definition one_field : FieldInfo :=
[("Created Time!!"%string, "singleLineText"%string)].


(** [float] on a [Decimal] that is a whole number below 2^53 is exact;
the examples use no other. *)
Definition float_of_whole (d : decimal) : float64 := F64 (dec_coef d) 0.

Definition seen : datetime :=
{| dt_date := {| d_year := 2021; d_month := 3; d_day := 9 |};
 dt_hour := 14; dt_minute := 5; dt_second := 0 |}.

Definition row : pydict :=
{[ "amount"%string := PDecimal {| dec_coef := 3; dec_exp := 0 |};
 "seen"%string := PDatetime seen;
 "tags_list"%string := PStr "a | b";
 "name"%string := PNone;
 "alt_name"%string := PStr "x" ]}.

Definition mappings : list (string * option (list string)) :=
[("id", Some ["id"]); ("Amount", Some ["amount"]); ("Seen", Some ["seen"]);
 ("Tags", Some ["tags_list"]); ("Name", Some ["name"; "alt_name"]);
 ("Unmapped", None)]%string.

(** A [_list] column holding a blank string, and a column holding a date. *)
Definition blank_row : pydict := {[ "tags_list"%string := PStr " " ]}.

Definition day_row : pydict :=
{[ "day"%string := PDate {| d_year := 2021; d_month := 3; d_day := 9 |} ]}.


(** Two chunks, three records, one field. *)
Definition two_chunks : ChunkStream :=
Yield [rec_ "a"; rec_ "b"] (Yield [rec_ "c"] Stop).

Definition name_field : FieldInfo := [("Name"%string, "singleLineText"%string)].

Definition shaped_row (id : string) : list cell :=
[CVal (JStr id); CVal (JStr id); CVal (JStr "2020-01-01")].

(** A warehouse that already has the destination and a temporary table left
behind by a failed load. *)
Definition old_table : Table :=
{| t_columns := ["id"%string]; t_rows := [[CVal (JStr "old")]] |}.

Definition used_warehouse : Warehouse :=
{[ "db.sch.tbl"%string := old_table;
 "db.sch.tbl__loader_tmp"%string := old_table;
 "db.sch.other"%string := old_table ]}.


(** A 422 whose [error] member is an object carrying the code as its
[type]. *)
Definition typed_error : Response :=
{| status_code := 422;
 body := Some (JObj [("error"%string,
                  JObj [("type"%string,
                         JStr "LIST_RECORDS_ITERATOR_NOT_AVAILABLE")])]) |}.


(** Two 429 responses, then an accepted request. *)
Definition twice_limited (n : nat) : Response :=
match n with
| 0 | 1 => rate_limited
| _ => accepting n
end%nat.

(** A server that is down. *)
Definition unavailable : Response := {| status_code := 503; body := None |}.
Definition always_unavailable (n : nat) : Response := unavailable.


(** Three pages; the second comes with an empty offset. *)
Definition odd_cursors (n : nat) : Response :=
match n with
| 0 => page [rec_ "a"] (Some "itrA")
| 1 => page [rec_ "b"] (Some "")
| _ => page [rec_ "c"] None
end%nat.


(** A server that accepts the first request and fails the second. *)
Definition fails_second (n : nat) : Response :=
match n with
| 1 => unavailable
| _ => accepting n
end%nat.

Definition client0 : AirtableClient :=
{| base_id := "appBase"; write_chunk_size := 0;
 requests_per_second_limit := 5 |}.

(** Three records of which the second has no id. *)
Definition heap_missing : gmap loc pydict :=
{[ 1%positive := {[ "id"%string := PStr "recA"; "Name"%string := PStr "a" ]};
 2%positive := {[ "Name"%string := PStr "b" ]};
 3%positive := {[ "id"%string := PStr "recC" ]} ]}.

Definition state_missing : State := {| heap := heap_missing; trace := [] |}.


(** A record with a tag list, and the field types of its table. *)
Definition tagged : json :=
JObj [("id"%string, JStr "rec1"); ("createdTime"%string, JStr "2020-01-01");
  ("fields"%string,
   JObj [("Tags"%string, JArr [JStr "x"; JStr "y"]);
         ("Name"%string, JStr "n")])].

Definition tag_fields : FieldInfo :=
[("Name", "singleLineText"); ("Tags", "multipleSelects");
 ("Notes", "multilineText")]%string.

(** A stand-in for [json.dumps] that tells a list from the rest. *)
Definition dumps_kind (v : json) : string :=
match v with
| JArr _ => "[...]"
| _ => "..."
end.


(** Pages of two, one, none and two records. *)
Definition paged : ChunkStream :=
Yield [rec_ "a"; rec_ "b"]
(Yield [rec_ "c"] (Yield [] (Yield [rec_ "d"; rec_ "e"] Stop))).

(** A stream of two empty pages. *)
Definition empty_pages : ChunkStream := Yield [] (Yield [] Stop).

(** A stream that dies of an expired iterator after one page. *)
Definition dying : ChunkStream :=
Yield [rec_ "a"; rec_ "b"] (Throw AirtableIteratorError).


(** The members of a record one of whose fields is called [id]. *)
Definition overlapping : list (string * json) :=
[("id"%string, JStr "rec1"); ("createdTime"%string, JStr "2020-01-01");
 ("fields"%string,
JObj [("id"%string, JStr "shadow"); ("Name"%string, JStr "n")])].


(** The fields of a destination table, one of them with a space. *)
Definition table_fields : list string :=
["Amount"; "Seen"; "Tags List"; "Name"; "Missing"]%string.


(** Two equal rows that carry an id, and the items of the configuration
for a table that is appended to and one that is updated. *)
Definition id_row : pydict :=
{[ "id"%string := PStr "recA"; "name"%string := PStr "n" ]}.

Definition name_mappings : list (string * option (list string)) :=
mapping_items (get_field_mappings ["Name"%string]).

Definition append_info : list (string * json) :=
[("table"%string, JStr "db.sch.view")].

Definition update_info : list (string * json) :=
[("table"%string, JStr "db.sch.view"); ("update"%string, JBool true)].


Definition day_mappings : list (string * option (list string)) :=
mapping_items (get_field_mappings ["Name"; "Day"]%string).

(** The record of [id_row]. *)
Definition id_record : pydict :=
{[ "id"%string := PStr "recA"; "Name"%string := PStr "n" ]}.


(** The first scan dies of an expired iterator, the later ones complete. *)
Definition flaky_scans (n : nat) : ChunkStream :=
match n with
| O => dying
| _ => paged
end.


(** Two fields that are renamed to the same label, and a record that has
both. *)
Definition colliding_fields : FieldInfo :=
[("A B"%string, "singleLineText"%string);
 ("a_b"%string, "singleLineText"%string)].

Definition colliding_record : json :=
JObj [("id"%string, JStr "rec1"); ("createdTime"%string, JStr "2020-01-01");
    ("fields"%string,
     JObj [("A B"%string, JStr "first"); ("a_b"%string, JStr "second")])].


(** One 429, then the answer that the iterator has expired. *)
Definition limited_then_expired (n : nat) : Response :=
match n with
| O => rate_limited
| _ => iterator_expired
end.


(** A table one of whose fields is a formula called [id]. *)
Definition id_formula : FieldInfo :=
[("Name"%string, "singleLineText"%string); ("id"%string, "formula"%string)].

End Examples.

(** * Properties *)

(** ** The trace *)

Lemma exchanges_app (t u : list event) :
  exchanges (t ++ u) = (exchanges t + exchanges u)%nat.
Proof. unfold exchanges. by rewrite List.filter_app, length_app. Qed.

Lemma exchanges_snoc_request (t : list event) (r : Request) :
  exchanges (t ++ [EvRequest r]) = S (exchanges t).
Proof. rewrite exchanges_app. cbn. lia. Qed.

Lemma exchanges_snoc_sleep (t : list event) (d : Q) :
  exchanges (t ++ [EvSleep d]) = exchanges t.
Proof. rewrite exchanges_app. cbn. lia. Qed.

Lemma with_trace_trace (st : State) (t : list event) :
  trace (with_trace st t) = t.
Proof. reflexivity. Qed.

Lemma with_trace_heap (st : State) (t : list event) :
  heap (with_trace st t) = heap st.
Proof. reflexivity. Qed.

Lemma with_trace_twice (st : State) (t u : list event) :
  with_trace (with_trace st t) u = with_trace st u.
Proof. reflexivity. Qed.

Lemma with_trace_same (st : State) : with_trace st (trace st) = st.
Proof. by destruct st. Qed.

(** ** [AirtableClient.request] *)

Section RequestProperties.

Variable server : nat -> Response.
Variable self : AirtableClient.

Implicit Types (st : State) (req : Request).

(** A 429 below the retry budget: sleep [wait], then go round again. *)
Lemma request_loop_retry fuel req retries wait st :
status_code (server (exchanges (trace st))) = 429 ->
retries <> 3%nat ->
request_loop server (S fuel) req retries wait st
= request_loop server fuel req (S retries) (next_wait wait)
(with_trace st (trace st ++ [EvRequest req; EvSleep (inject_Z wait)])).
Proof.
intros H429 Hr. cbn [request_loop]. unfold bind at 1, session_request.
rewrite H429. cbn [Z.eqb Pos.eqb negb orb].
destruct (Nat.eqb_spec retries 3) as [|_]; [done|].
unfold bind at 1, sleep, emit. cbn [with_trace heap trace].
unfold with_trace. by rewrite <- app_assoc.
Qed.

(** Any other response, or a 429 when the budget is spent, leaves the loop. *)
Lemma request_loop_break fuel req retries wait st :
status_code (server (exchanges (trace st))) <> 429 \/ retries = 3%nat ->
request_loop server (S fuel) req retries wait st
= (Ok (server (exchanges (trace st))),
 with_trace st (trace st ++ [EvRequest req])).
Proof.
intros H. cbn [request_loop]. unfold bind at 1, session_request.
destruct H as [H | ->].
- destruct (Z.eqb_spec (status_code (server (exchanges (trace st)))) 429);
[done|]. reflexivity.
- by rewrite orb_true_r.
Qed.

(** The loop of [request] returns within four turns: it never runs out of
fuel, and what it returns is the response to the last exchange. *)
Lemma request_loop_total fuel req retries wait st :
(4 <= retries + fuel)%nat -> (retries <= 3)%nat ->
exists evs,
request_loop server fuel req retries wait st
= (Ok (server (exchanges (trace st ++ evs))),
 with_trace st (trace st ++ evs ++ [EvRequest req])).
Proof.
revert retries wait st.
induction fuel as [|fuel IH]; intros retries wait st Hfuel Hret; [lia|].
destruct (decide (status_code (server (exchanges (trace st))) = 429
            /\ retries <> 3%nat)) as [[H429 Hne] | Hbreak].
- rewrite request_loop_retry by done.
destruct (IH (S retries) (next_wait wait)
        (with_trace st (trace st ++ [EvRequest req; EvSleep (inject_Z wait)])))
as [evs Hevs]; [lia | lia |].
exists ([EvRequest req; EvSleep (inject_Z wait)] ++ evs).
rewrite Hevs. rewrite with_trace_trace, with_trace_twice.
by rewrite <- !app_assoc.
- exists []. rewrite request_loop_break.
+ by rewrite app_nil_r.
+ destruct (decide (retries = 3%nat)); [by right | left].
intros H; apply Hbreak; done.
Qed.


Lemma request_429_exhausted method url json headers st :
(forall k, (k < 4)%nat ->
 status_code (server (exchanges (trace st) + k)) = 429) ->
request server self method url json headers st
= (Raise (HTTPError (server (exchanges (trace st) + 3))),
 with_trace st
 (trace st ++ exhausted_events (request_of method url json headers))).
Proof.
intros H. unfold request. fold (request_of method url json headers).
set (req := request_of method url json headers).
unfold bind at 1.
rewrite request_loop_retry;
[| rewrite <- (Nat.add_0_r (exchanges (trace st))); apply H; lia | done].
rewrite request_loop_retry; rewrite ?with_trace_trace;
[| rewrite exchanges_app; apply H; cbn; lia | done].
rewrite request_loop_retry; rewrite ?with_trace_trace;
[| rewrite !exchanges_app; rewrite <- Nat.add_assoc; apply H; cbn; lia
 | done].
rewrite request_loop_break; rewrite ?with_trace_trace; [| by right].
rewrite !with_trace_twice, !exchanges_app, <- !Nat.add_assoc.
change (exchanges [EvRequest req; EvSleep (inject_Z 30)]
  + (exchanges [EvRequest req; EvSleep (inject_Z (next_wait 30))]
     + exchanges
         [EvRequest req;
          EvSleep (inject_Z (next_wait (next_wait 30)))]))%nat
with 3%nat.
unfold raise_for_status.
rewrite (H 3%nat) by lia. cbn [Z.leb Z.ltb Z.compare Pos.compare
Pos.compare_cont andb]. unfold raise.
by rewrite <- !app_assoc.
Qed.

(** [request] always returns or raises; it returns the final response
after the throttle sleep when that response is no error, and raises
[HTTPError] right after the final exchange when it is one. *)
Lemma request_outcome method url json headers st :
exists evs,
let final := server (exchanges (trace st ++ evs)) in
let req := request_of method url json headers in
request server self method url json headers st
= if is_error_status final
then (Raise (HTTPError final),
    with_trace st (trace st ++ evs ++ [EvRequest req]))
else (Ok final,
    with_trace st
      (trace st ++ evs
       ++ [EvRequest req;
           EvSleep (1 # requests_per_second_limit self)])).
Proof.
destruct (request_loop_total 4 (request_of method url json headers)
      0 30 st) as [evs Hevs]; [lia | lia |].
exists evs. cbn zeta. unfold request.
fold (request_of method url json headers).
unfold bind at 1. rewrite Hevs.
unfold bind at 1, raise_for_status, is_error_status.
destruct ((400 <=? status_code (server (exchanges (trace st ++ evs))))
    && (status_code (server (exchanges (trace st ++ evs))) <? 600));
[reflexivity|].
unfold ret at 1. unfold bind, sleep, emit, ret.
rewrite with_trace_trace, with_trace_twice.
by rewrite <- !app_assoc.
Qed.

(** C2: while every response is a 429, [request] sleeps 30, 45 and 68 (each
the ceiling of one and a half times the one before) ahead of its three
retries, and raises [HTTPError] on the fourth 429 without retrying. *)
Theorem request_backoff_on_sustained_429 method url json headers st :
(forall k, (k < 4)%nat ->
 status_code (server (exchanges (trace st) + k)) = 429) ->
exists st',
request server self method url json headers st
= (Raise (HTTPError (server (exchanges (trace st) + 3))), st')
/\ heap st' = heap st
/\ (exists evs, trace st' = trace st ++ evs
            /\ sleeps evs = [30 # 1; 45 # 1; 68 # 1]%Q
            /\ exchanges evs = 4%nat
            /\ last evs
               = Some (EvRequest (request_of method url json headers)))
/\ next_wait 30 = 45 /\ next_wait 45 = 68.
Proof.
intros H. eexists. split; [by apply request_429_exhausted|].
split; [reflexivity|]. split; [|done].
by exists (exhausted_events (request_of method url json headers)).
Qed.

(** C9 (as amended): [request] sleeps [1 / requests_per_second_limit] after
the final response exactly when that response is a success; when the
final response is an error, the exhausted 429 included, it raises
[HTTPError] and the final exchange is the last thing it does. *)
Theorem request_throttles_exactly_on_success method url json headers st :
exists evs st',
let final := server (exchanges (trace st ++ evs)) in
let req := request_of method url json headers in
let throttle := EvSleep (1 # requests_per_second_limit self) in
heap st' = heap st
/\ if is_error_status final
 then request server self method url json headers st
    = (Raise (HTTPError final), st')
    /\ trace st' = trace st ++ evs ++ [EvRequest req]
 else request server self method url json headers st = (Ok final, st')
    /\ trace st' = trace st ++ evs ++ [EvRequest req; throttle].
Proof.
destruct (request_outcome method url json headers st) as [evs Hevs].
cbn zeta in Hevs. exists evs.
destruct (is_error_status (server (exchanges (trace st ++ evs)))) eqn:E;
eexists; cbn zeta; rewrite E; (split; [|split; [exact Hevs|]]);
reflexivity.
Qed.

End RequestProperties.

Lemma request_backoff_on_sustained_429_witness :
  (forall k, (k < 4)%nat ->
     status_code (Examples.always_429
                    (exchanges (trace Examples.init) + k)) = 429)
  /\ sleeps (trace (request Examples.always_429 Examples.client
                      "get" "https://api.airtable.com/v0/appBase/T" None ∅
                      Examples.init).2)
     = [30 # 1; 45 # 1; 68 # 1]%Q.
Proof.
  split; [reflexivity|].
  destruct (request_backoff_on_sustained_429 Examples.always_429
              Examples.client "get" "https://api.airtable.com/v0/appBase/T"
              None ∅ Examples.init (fun _ _ => eq_refl))
    as (st' & Hrun & _ & (evs & Htrace & Hs & _) & _).
  rewrite Hrun. cbn [snd]. rewrite Htrace. exact Hs.
Defined.

(** C9, as stated, fails: when the 429 budget is exhausted, [request] raises
    without any throttle sleep; the trace ends with the fourth exchange. *)
Lemma request_exhausted_without_throttle :
  let run := request Examples.always_429 Examples.client
               "get" "https://api.airtable.com/v0/appBase/T" None ∅
               Examples.init in
  run.1 = Raise (HTTPError Examples.rate_limited)
  /\ sleeps (trace run.2) = [30 # 1; 45 # 1; 68 # 1]%Q
  /\ last (trace run.2)
     <> Some (EvSleep (1 # requests_per_second_limit Examples.client)).
Proof.
  cbn zeta.
  rewrite (request_429_exhausted Examples.always_429 Examples.client)
    by reflexivity.
  repeat split. cbn. discriminate.
Qed.

(** ** [iter_chunks] and [read] *)

Section ReaderProperties.

Variable server : nat -> Response.
Variable quote : string -> string.
Variable format_json : json -> string.
Variable self : AirtableClient.

Implicit Types (st : State).

Lemma request_success method url json headers st :
is_success (server (exchanges (trace st))) = true ->
request server self method url json headers st
= (Ok (server (exchanges (trace st))),
 with_trace st
 (trace st ++ [EvRequest (request_of method url json headers);
             EvSleep (1 # requests_per_second_limit self)])).
Proof.
unfold is_success. intros [H429 Herr]%andb_prop.
apply negb_true_iff in H429, Herr.
unfold request. fold (request_of method url json headers).
unfold bind at 1. rewrite request_loop_break.
- unfold bind at 1, raise_for_status. fold (is_error_status
(server (exchanges (trace st)))). rewrite Herr.
unfold ret at 1. unfold bind, sleep, emit, ret.
rewrite with_trace_trace, with_trace_twice. by rewrite <- app_assoc.
- left. by apply Z.eqb_neq.
Qed.








(** What [iter_chunks] does with an error response: the verdict of
[is_iterator_error] decides, and an exception of the verdict itself
escapes as it is. *)
Lemma iter_chunks_next_on_error url offset st :
exists evs st',
let final := server (exchanges (trace st ++ evs)) in
is_error_status final = true ->
iter_chunks_next server format_json self url offset st
= (match is_iterator_error final with
 | Ok true => Raise AirtableIteratorError
 | Ok false => Raise (HTTPError final)
 | Raise e => Raise e
 | Diverge => Diverge
 end, st').
Proof.
unfold iter_chunks_next.
set (u := if json_truthy offset then _ else _).
destruct (request_outcome server self "get" u None ∅ st) as [evs Hevs].
cbn zeta in Hevs. exists evs. eexists. cbn zeta. intros Herr.
rewrite Herr in Hevs.
unfold bind at 1, try_except. rewrite Hevs.
unfold bind at 1, lift.
destruct (is_iterator_error (server (exchanges (trace st ++ evs))))
as [[|]| |]; reflexivity.
Qed.

End ReaderProperties.

(** On an object, [in] looks at the keys: the code as the value of a
    [type] member is not found. *)
Example is_iterator_error_typed_error :
  is_iterator_error Examples.typed_error = Ok false
  /\ is_iterator_error Examples.iterator_expired = Ok true.
Proof. split; reflexivity. Qed.

(** C4: a 422 whose payload is [{"error": null}] is an error response that
    does not name the iterator condition, and [iter_chunks] lets it out as a
    [TypeError], not as the [HTTPError] of the response. *)
Theorem iter_chunks_null_error_escapes_as_TypeError :
  is_error_status Examples.null_error = true
  /\ is_iterator_error Examples.null_error = Raise TypeError
  /\ (iter_chunks_next Examples.always_null_error Examples.format_unused
        Examples.client "https://api.airtable.com/v0/appBase/T" JNull
        Examples.init).1
     = Raise TypeError.
Proof. repeat split. Qed.


(** ** [chunked] *)

Section Chunked.

Context {A : Type}.
Implicit Types (l : list A) (size : nat).

Lemma ceil_div_covers n size : (0 < size)%nat -> (n <= ceil_div n size * size)%nat.
Proof.
intros Hs. unfold ceil_div.
pose proof (Nat.div_mod_eq (n + (size - 1)) size) as Hdm.
pose proof (Nat.mod_upper_bound (n + (size - 1)) size) as Hlt.
nia.
Qed.

Lemma ceil_div_tight n size :
(0 < size)%nat -> (0 < n)%nat -> ((ceil_div n size - 1) * size < n)%nat.
Proof.
intros Hs Hn. unfold ceil_div.
pose proof (Nat.div_mod_eq (n + (size - 1)) size) as Hdm.
pose proof (Nat.mod_upper_bound (n + (size - 1)) size) as Hlt.
nia.
Qed.

Lemma slices_concat l size k count :
concat ((fun i => slice l i (i + size))
    <$> ((fun j => j * size)%nat <$> seq k count))
= take (count * size) (drop (k * size) l).
Proof.
revert k. induction count as [|count IH]; intros k; [done|].
cbn [seq fmap list_fmap concat]. rewrite IH. unfold slice.
replace (k * size + size - k * size)%nat with size by lia.
replace (S k * size)%nat with (k * size + size)%nat by lia.
rewrite <- drop_drop. rewrite take_take_drop.
f_equal.
Qed.

(** The chunks, put end to end, are the list. *)
Lemma chunks_of_concat l size :
(0 < size)%nat -> concat (chunks_of l size) = l.
Proof.
intros Hs. unfold chunks_of, range_starts.
rewrite slices_concat. cbn [Nat.mul drop].
apply take_ge. apply (ceil_div_covers (length l) size Hs).
Qed.

Lemma chunks_of_length l size :
length (chunks_of l size) = ceil_div (length l) size.
Proof.
unfold chunks_of, range_starts. by rewrite !length_fmap, length_seq.
Qed.

(** The [i]-th chunk starts at [i * size] and is [size] long, or as long
as what is left. *)
Lemma chunks_of_lookup l size i chunk :
chunks_of l size !! i = Some chunk ->
chunk = take size (drop (i * size) l)
/\ length chunk = Nat.min size (length l - i * size).
Proof.
unfold chunks_of, range_starts. rewrite !list_lookup_fmap.
intros H. destruct (seq 0 _ !! i) as [j|] eqn:Ej; [|done].
apply lookup_seq in Ej as [-> _]. cbn in H. injection H as <-.
unfold slice. replace (i * size + size - i * size)%nat with size by lia.
split; [done|]. by rewrite length_take, length_drop.
Qed.

(** Every chunk is non-empty and at most [size] long; every chunk but the
last is exactly [size] long. *)
Lemma chunks_of_sizes l size i chunk :
(0 < size)%nat ->
chunks_of l size !! i = Some chunk ->
(0 < length chunk <= size)%nat
/\ ((S i < length (chunks_of l size))%nat -> length chunk = size).
Proof.
intros Hs H. pose proof (lookup_lt_Some _ _ _ H) as Hi.
rewrite chunks_of_length in *.
apply chunks_of_lookup in H as [_ ->].
assert (0 < length l)%nat as Hn.
{ destruct l; [|cbn; lia]. cbn in Hi. unfold ceil_div in Hi. cbn in Hi.
rewrite Nat.div_small in Hi by lia. lia. }
pose proof (ceil_div_tight (length l) size Hs Hn).
split; [nia|]. intros Hlast. nia.
Qed.

Lemma chunked_positive {S} l (n : Z) (st : S) :
0 < n -> chunked l n st = (Ok (chunks_of l (Z.to_nat n)), st).
Proof.
intros Hn. unfold chunked.
destruct (Z.eqb_spec n 0); [lia|].
destruct (Z.ltb_spec n 0); [lia|]. reflexivity.
Qed.

End Chunked.

(** ** [AirtableClient.write] *)

Section WriterProperties.

Variable server : nat -> Response.
Variable quote : string -> string.
Variable self : AirtableClient.

Implicit Types (st : State) (chunk : list loc) (chunks : list (list loc)).

Lemma exchanges_exchange_events req :
exchanges (exchange_events self req) = 1%nat.
Proof. reflexivity. Qed.

Lemma serialize_append chunk st :
bind (build_append_payload chunk) serialize st
= (Ok (append_body (heap st) chunk), st).
Proof.
unfold bind, build_append_payload, ret, serialize, append_body.
cbn [po_records po_typecast]. by rewrite <- list_fmap_compose.
Qed.

(** One turn of the loop of [write] in append mode. *)
Lemma append_turn url chunk st :
is_success (server (exchanges (trace st))) = true ->
(let* payload := build_append_payload chunk in
 let* json := serialize payload in
 let* _ := request server self "post" url (Some json) ∅ in
 ret tt) st
= (Ok tt,
 with_trace st
 (trace st
++ exchange_events self
     (request_of "post" url (Some (append_body (heap st) chunk)) ∅))).
Proof.
intros Hok. unfold bind at 1. unfold build_append_payload at 1, ret at 1.
unfold bind at 1. unfold serialize at 1. cbn [po_records po_typecast].
rewrite <- list_fmap_compose. unfold bind at 1.
rewrite request_success by done. reflexivity.
Qed.

(** The loop of [write] in append mode, when every exchange succeeds. *)
Lemma for_each_append url chunks st :
(forall k, (k < length chunks)%nat ->
 is_success (server (exchanges (trace st) + k)) = true) ->
for_each chunks
(fun chunk =>
 let* payload := build_append_payload chunk in
 let* json := serialize payload in
 let* _ := request server self "post" url (Some json) ∅ in
 ret tt) st
= (Ok tt,
 with_trace st
 (trace st
++ concat ((fun c => exchange_events self
              (request_of "post" url (Some (append_body (heap st) c)) ∅))
             <$> chunks))).
Proof.
revert st. induction chunks as [|c chunks IH]; intros st Hok.
- cbn. unfold ret. by rewrite app_nil_r, with_trace_same.
- cbn [for_each]. unfold bind at 1. rewrite append_turn
by (rewrite <- (Nat.add_0_r (exchanges _)); apply Hok; cbn; lia).
rewrite IH.
+ rewrite with_trace_trace, with_trace_twice, with_trace_heap.
cbn [fmap list_fmap concat]. by rewrite <- app_assoc.
+ intros k Hk. rewrite with_trace_trace, exchanges_app.
rewrite exchanges_exchange_events.
replace (exchanges (trace st) + 1 + k)%nat
with (exchanges (trace st) + S k)%nat by lia.
apply Hok. cbn. lia.
Qed.

Lemma requests_exchange_events (f : list loc -> Request) chunks :
requests (concat ((fun c => exchange_events self (f c)) <$> chunks))
= f <$> chunks.
Proof.
induction chunks as [|c chunks IH]; [done|].
cbn [fmap list_fmap concat]. unfold requests in *.
rewrite omap_app. cbn. by rewrite IH.
Qed.

(** C5: in append mode [write] cuts the records into consecutive chunks of
the configured size, in order, and sends one POST per chunk,
[ceil(n / size)] in all, each with the body
[{records: [{fields: record}, ...], typecast: true}], no envelope
carrying an [id]. *)
Theorem write_append_sends_chunks records table st :
0 < write_chunk_size self ->
let size := Z.to_nat (write_chunk_size self) in
(forall k, (k < ceil_div (length records) size)%nat ->
 is_success (server (exchanges (trace st) + k)) = true) ->
exists chunks evs,
write server quote self records table false st
= (Ok tt, with_trace st (trace st ++ evs))
/\ concat chunks = records
/\ length chunks = ceil_div (length records) size
/\ (forall i chunk, chunks !! i = Some chunk ->
  chunk = take size (drop (i * size) records)
  /\ (0 < length chunk <= size)%nat
  /\ ((S i < length chunks)%nat -> length chunk = size))
/\ requests evs
 = (fun chunk =>
    {| req_method := "post";
       req_url := table_url quote self table;
       req_headers := {[ "Content-Type"%string
                         := "application/json"%string ]};
       req_json :=
         Some {| p_records :=
                   (fun record =>
                      {| env_id := None;
                         env_fields := heap_get record (heap st) |})
                     <$> chunk;
                 p_typecast := true |} |}) <$> chunks.
Proof.
intros Hsize size Hok.
exists (chunks_of records size). eexists.
split; [|split; [|split; [|split]]].
- unfold write. cbn iota. unfold bind at 1.
rewrite chunked_positive by done. fold size.
rewrite for_each_append; [reflexivity|].
intros k Hk. apply Hok. by rewrite <- chunks_of_length.
- apply chunks_of_concat. lia.
- apply chunks_of_length.
- intros i chunk Hi. split; [by apply chunks_of_lookup in Hi as [? _]|].
apply chunks_of_sizes; [lia | done].
- rewrite (requests_exchange_events
       (fun c => request_of "post" (table_url quote self table)
                   (Some (append_body (heap st) c)) ∅)).
apply list_fmap_ext. intros i chunk _. unfold request_of, append_body.
f_equal; by rewrite (left_id_L ∅ (∪)).
Qed.

(** *** Update mode: the records are popped in place *)

Lemma heap_get_insert l d (h : gmap loc pydict) : heap_get l (<[l := d]> h) = d.
Proof. unfold heap_get. by rewrite lookup_insert_eq. Qed.

Lemma heap_get_insert_ne l l' d (h : gmap loc pydict) :
l <> l' -> heap_get l' (<[l := d]> h) = heap_get l' h.
Proof. intros. unfold heap_get. by rewrite lookup_insert_ne. Qed.

Lemma request_heap method url json headers st :
heap (request server self method url json headers st).2 = heap st.
Proof.
destruct (request_outcome server self method url json headers st)
as [evs H]. cbn zeta in H. rewrite H. by destruct (is_error_status _).
Qed.

Lemma update_envelopes_ok chunk st :
NoDup chunk -> carry_ids chunk st ->
exists st',
update_envelopes chunk st
= (Ok ((fun l => {| eo_id := heap_get l (heap st) !! "id"%string;
                eo_fields := l |}) <$> chunk), st')
/\ trace st' = trace st
/\ popped chunk st st'.
Proof.
revert st. induction chunk as [|l chunk IH]; intros st Hnd Hids.
- exists st. split; [done|]. split; [done|]. intros l.
by rewrite bool_decide_eq_false_2 by apply not_elem_of_nil.
- apply NoDup_cons in Hnd as [Hl Hnd].
destruct (Hids l) as [v Hv]; [apply list_elem_of_here|].
set (st1 := {| heap := <[l := delete "id"%string (heap_get l (heap st))]>
                     (heap st);
           trace := trace st |}).
assert (forall l', l' ∈ chunk -> heap_get l' (heap st1) = heap_get l' (heap st))
as Hsame.
{ intros l' Hl'. apply heap_get_insert_ne. intros ->. done. }
destruct (IH st1 Hnd) as (st' & Hrun & Htrace & Hpop).
{ intros l' Hl'. rewrite Hsame by done. apply Hids.
by apply list_elem_of_further. }
exists st'. split; [|split; [done|]].
+ cbn [update_envelopes]. unfold bind at 1, dict_pop. rewrite Hv.
fold st1. unfold bind at 1. rewrite Hrun. unfold ret.
cbn [fmap list_fmap]. rewrite Hv. do 3 f_equal.
apply list_fmap_ext. intros i l' Hi. rewrite Hsame; [done|].
by eapply list_elem_of_lookup_2.
+ intros l'. rewrite Hpop. destruct (decide (l' = l)) as [->|Hne].
* rewrite bool_decide_eq_false_2 by done.
rewrite bool_decide_eq_true_2 by apply list_elem_of_here.
apply heap_get_insert.
* cbn [heap st1]. rewrite heap_get_insert_ne by done.
destruct (decide (l' ∈ chunk)) as [Hin|Hnin].
-- rewrite !bool_decide_eq_true_2;
     [done | by apply list_elem_of_further | done].
-- rewrite !bool_decide_eq_false_2; [done | | done].
   by intros [?|?]%elem_of_cons.
Qed.

Lemma update_envelopes_inv chunk st envelopes st' :
update_envelopes chunk st = (Ok envelopes, st') ->
NoDup chunk /\ carry_ids chunk st.
Proof.
revert st envelopes st'.
induction chunk as [|l chunk IH]; intros st envs st' Hrun.
- split; [constructor | by intros l Hl%elem_of_nil].
- cbn [update_envelopes] in Hrun. unfold bind at 1, dict_pop in Hrun.
destruct (heap_get l (heap st) !! "id"%string) as [v|] eqn:Hv; [|done].
unfold bind at 1 in Hrun.
set (st1 := {| heap := <[l := delete "id"%string (heap_get l (heap st))]>
                     (heap st);
           trace := trace st |}) in *.
destruct (update_envelopes chunk st1) as [[envs1| |] st2] eqn:Hrest;
[|done|done].
destruct (IH _ _ _ Hrest) as [Hnd Hids].
assert (l ∉ chunk) as Hl.
{ intros Hl. destruct (Hids l Hl) as [w Hw]. cbn [heap st1] in Hw.
rewrite heap_get_insert in Hw. by rewrite lookup_delete_eq in Hw. }
split; [by apply NoDup_cons|].
intros l' [->|Hl']%elem_of_cons; [by eexists|].
specialize (Hids l' Hl'). cbn [heap st1] in Hids.
rewrite heap_get_insert_ne in Hids; [done|]. by intros ->.
Qed.

Lemma popped_app ls ks st st1 st' :
popped ls st st1 -> popped ks st1 st' -> popped (ls ++ ks) st st'.
Proof.
intros H1 H2 l. rewrite H2, H1.
destruct (decide (l ∈ ls)) as [Hl|Hl], (decide (l ∈ ks)) as [Hk|Hk];
rewrite ?(bool_decide_eq_true_2 (l ∈ ls)), ?(bool_decide_eq_false_2 (l ∈ ls)),
?(bool_decide_eq_true_2 (l ∈ ks)), ?(bool_decide_eq_false_2 (l ∈ ks))
by done;
[ rewrite bool_decide_eq_true_2 by (apply elem_of_app; by left)
| rewrite bool_decide_eq_true_2 by (apply elem_of_app; by left)
| rewrite bool_decide_eq_true_2 by (apply elem_of_app; by right)
| rewrite bool_decide_eq_false_2
by (intros [?|?]%elem_of_app; done) ];
try done.
apply delete_delete_eq.
Qed.

(** A record that still carries its [id] after [ls] were popped is none of
[ls], and is as it was. *)
Lemma popped_carry ls st st1 l :
popped ls st st1 ->
is_Some (heap_get l (heap st1) !! "id"%string) ->
(l ∉ ls) /\ heap_get l (heap st1) = heap_get l (heap st).
Proof.
intros Hpop Hsome. specialize (Hpop l).
destruct (decide (l ∈ ls)) as [Hl|Hl].
- rewrite bool_decide_eq_true_2 in Hpop by done. rewrite Hpop in Hsome.
rewrite lookup_delete_eq in Hsome. by destruct Hsome.
- by rewrite bool_decide_eq_false_2 in Hpop.
Qed.

Lemma update_body_ext (h1 h2 : gmap loc pydict) chunk :
(forall l, l ∈ chunk -> heap_get l h1 = heap_get l h2) ->
update_body h1 chunk = update_body h2 chunk.
Proof.
intros H. unfold update_body. f_equal. apply list_fmap_ext.
intros i l Hi. rewrite H; [done|]. by eapply list_elem_of_lookup_2.
Qed.

(** What is serialized after [build_update_payload]: the ids in the
envelopes, the records without them. *)
Lemma serialize_update chunk st st1 :
popped chunk st st1 ->
serialize
{| po_records := (fun l => {| eo_id := heap_get l (heap st) !! "id"%string;
                          eo_fields := l |}) <$> chunk;
 po_typecast := true |} st1
= (Ok (update_body (heap st) chunk), st1).
Proof.
intros Hpop. unfold serialize, update_body. cbn [po_records po_typecast].
rewrite <- list_fmap_compose. do 3 f_equal. apply list_fmap_ext.
intros i l Hi. cbn. f_equal. rewrite Hpop.
by rewrite bool_decide_eq_true_2 by by eapply list_elem_of_lookup_2.
Qed.

(** One turn of the loop of [write] in update mode. *)
Lemma update_turn_ok url chunk st :
NoDup chunk -> carry_ids chunk st ->
is_success (server (exchanges (trace st))) = true ->
exists st',
(let* payload := build_update_payload chunk in
 let* json := serialize payload in
 let* _ := request server self "patch" url (Some json) ∅ in
 ret tt) st = (Ok tt, st')
/\ trace st'
 = trace st
 ++ exchange_events self
      (request_of "patch" url (Some (update_body (heap st) chunk)) ∅)
/\ popped chunk st st'.
Proof.
intros Hnd Hids Hok.
destruct (update_envelopes_ok chunk st Hnd Hids) as (st1 & Hrun & Htr & Hpop).
eexists. split; [|split].
- unfold bind at 1. unfold build_update_payload, bind at 1. rewrite Hrun.
unfold ret at 1. unfold bind at 1. rewrite (serialize_update _ _ _ Hpop).
unfold bind at 1. rewrite request_success by by rewrite Htr.
reflexivity.
- by rewrite with_trace_trace, Htr.
- exact Hpop.
Qed.

Lemma update_turn_inv url chunk st st' :
(let* payload := build_update_payload chunk in
 let* json := serialize payload in
 let* _ := request server self "patch" url (Some json) ∅ in
 ret tt) st = (Ok tt, st') ->
NoDup chunk /\ carry_ids chunk st /\ popped chunk st st'.
Proof.
intros Hrun. unfold bind at 1 in Hrun.
unfold build_update_payload, bind at 1 in Hrun.
destruct (update_envelopes chunk st) as [[envs| |] st1] eqn:Henv;
[|done|done].
destruct (update_envelopes_inv _ _ _ _ Henv) as [Hnd Hids].
destruct (update_envelopes_ok chunk st Hnd Hids) as (st1' & Hrun' & _ & Hpop).
rewrite Henv in Hrun'. injection Hrun' as -> <-.
split; [done|]. split; [done|].
unfold ret at 1 in Hrun. unfold bind at 1 in Hrun.
rewrite (serialize_update _ _ _ Hpop) in Hrun. unfold bind at 1 in Hrun.
pose proof (request_heap "patch" url
        (Some (update_body (heap st) chunk)) ∅ st1) as Hheap.
destruct (request server self "patch" url _ ∅ st1) as [[r| |] st2];
[|done|done].
unfold ret in Hrun. injection Hrun as <-. cbn [snd] in Hheap.
intros l. rewrite Hheap. apply Hpop.
Qed.

(** The loop of [write] in update mode, when the records are distinct
objects that carry an id and every exchange succeeds. *)
Lemma for_each_update_ok url chunks st :
NoDup (concat chunks) -> carry_ids (concat chunks) st ->
(forall k, (k < length chunks)%nat ->
 is_success (server (exchanges (trace st) + k)) = true) ->
exists st',
for_each chunks
(fun chunk =>
 let* payload := build_update_payload chunk in
 let* json := serialize payload in
 let* _ := request server self "patch" url (Some json) ∅ in
 ret tt) st = (Ok tt, st')
/\ trace st'
 = trace st
 ++ concat ((fun c => exchange_events self
               (request_of "patch" url
                  (Some (update_body (heap st) c)) ∅)) <$> chunks)
/\ popped (concat chunks) st st'.
Proof.
revert st. induction chunks as [|c chunks IH]; intros st Hnd Hids Hok.
- exists st. split; [done|]. split; [by rewrite app_nil_r|].
intros l. by rewrite bool_decide_eq_false_2 by apply not_elem_of_nil.
- cbn [concat] in Hnd, Hids. apply NoDup_app in Hnd as (Hc & Hdisj & Hrest).
destruct (update_turn_ok url c st Hc) as (st1 & Hturn & Htr1 & Hpop1).
{ intros l Hl. apply Hids, elem_of_app. by left. }
{ rewrite <- (Nat.add_0_r (exchanges _)). apply Hok. cbn. lia. }
assert (forall l, l ∈ concat chunks ->
      heap_get l (heap st1) = heap_get l (heap st)) as Hsame.
{ intros l Hl. rewrite Hpop1. rewrite bool_decide_eq_false_2; [done|].
intros Hlc. by apply (Hdisj l). }
destruct (IH st1 Hrest) as (st' & Hloop & Htr & Hpop).
{ intros l Hl. rewrite Hsame by done. apply Hids, elem_of_app. by right. }
{ intros k Hk. rewrite Htr1, exchanges_app, exchanges_exchange_events.
replace (exchanges (trace st) + 1 + k)%nat
with (exchanges (trace st) + S k)%nat by lia.
apply Hok. cbn. lia. }
exists st'. split; [|split].
+ cbn [for_each]. unfold bind at 1. by rewrite Hturn.
+ rewrite Htr, Htr1. cbn [fmap list_fmap concat]. rewrite <- app_assoc.
do 2 f_equal. f_equal. apply list_fmap_ext. intros i c' Hi.
rewrite (update_body_ext (heap st1) (heap st) c'); [done|].
intros l Hl. apply Hsame. apply list_elem_of_In, in_concat.
exists c'. split; apply list_elem_of_In; [|done].
by eapply list_elem_of_lookup_2.
+ cbn [concat]. by eapply popped_app.
Qed.

(** When the loop completes, the records were distinct objects carrying
an id, and the ids are gone from them. *)
Lemma for_each_update_inv url chunks st st' :
for_each chunks
(fun chunk =>
 let* payload := build_update_payload chunk in
 let* json := serialize payload in
 let* _ := request server self "patch" url (Some json) ∅ in
 ret tt) st = (Ok tt, st') ->
NoDup (concat chunks) /\ carry_ids (concat chunks) st
/\ popped (concat chunks) st st'.
Proof.
revert st. induction chunks as [|c chunks IH]; intros st Hrun.
- cbn in Hrun. injection Hrun as <-. split; [constructor|].
split; [by intros l Hl%elem_of_nil|].
intros l. by rewrite bool_decide_eq_false_2 by apply not_elem_of_nil.
- cbn [for_each] in Hrun. unfold bind at 1 in Hrun.
match type of Hrun with
| match ?turn with _ => _ end = _ =>
destruct turn as [[[]| |] st1] eqn:Hturn; [|done|done]
end.
apply update_turn_inv in Hturn as (Hc & Hidc & Hpop1).
apply IH in Hrun as (Hrest & Hidr & Hpop).
assert (forall l, l ∈ concat chunks ->
      (l ∉ c) /\ heap_get l (heap st1) = heap_get l (heap st)) as Hsame.
{ intros l Hl. by apply popped_carry, Hidr. }
cbn [concat]. split; [|split].
+ apply NoDup_app. split; [done|]. split; [|done].
intros l Hl Hl'. by destruct (Hsame l Hl').
+ intros l [Hl|Hl]%elem_of_app; [by apply Hidc|].
destruct (Hsame l Hl) as [_ <-]. by apply Hidr.
+ by eapply popped_app.
Qed.

(** C6: in update mode, for distinct records that all carry an [id],
[write] sends one PATCH per chunk whose body has, for each record, the
record's [id] in the envelope, outside [fields], and the record
without its [id] as [fields], with [typecast: true]. *)
Theorem write_update_sends_ids_in_envelopes records table st :
0 < write_chunk_size self ->
NoDup records -> carry_ids records st ->
let size := Z.to_nat (write_chunk_size self) in
(forall k, (k < ceil_div (length records) size)%nat ->
 is_success (server (exchanges (trace st) + k)) = true) ->
exists chunks st' evs,
write server quote self records table true st = (Ok tt, st')
/\ trace st' = trace st ++ evs
/\ concat chunks = records
/\ requests evs
 = (fun chunk =>
    {| req_method := "patch";
       req_url := table_url quote self table;
       req_headers := {[ "Content-Type"%string
                         := "application/json"%string ]};
       req_json :=
         Some {| p_records :=
                   (fun record =>
                      {| env_id :=
                           heap_get record (heap st) !! "id"%string;
                         env_fields :=
                           delete "id"%string
                             (heap_get record (heap st)) |})
                     <$> chunk;
                 p_typecast := true |} |}) <$> chunks
/\ (forall r p e,
  r ∈ requests evs -> req_json r = Some p -> e ∈ p_records p ->
  req_method r = "patch"%string /\ p_typecast p = true
  /\ is_Some (env_id e) /\ env_fields e !! "id"%string = None).
Proof.
intros Hsize Hnd Hids size Hok.
pose proof (chunks_of_concat records size ltac:(lia)) as Hcat.
destruct (for_each_update_ok (table_url quote self table)
      (chunks_of records size) st) as (st' & Hloop & Htr & _).
{ by rewrite Hcat. } { by rewrite Hcat. }
{ intros k Hk. apply Hok. by rewrite <- chunks_of_length. }
assert (requests
    (concat ((fun c => exchange_events self
                (request_of "patch" (table_url quote self table)
                   (Some (update_body (heap st) c)) ∅))
               <$> chunks_of records size))
  = (fun chunk =>
       {| req_method := "patch";
          req_url := table_url quote self table;
          req_headers := {[ "Content-Type"%string
                            := "application/json"%string ]};
          req_json := Some (update_body (heap st) chunk) |})
      <$> chunks_of records size) as Hreqs.
{ rewrite (requests_exchange_events
       (fun c => request_of "patch" (table_url quote self table)
                   (Some (update_body (heap st) c)) ∅)).
apply list_fmap_ext. intros i chunk _. unfold request_of.
f_equal; by rewrite (left_id_L ∅ (∪)). }
exists (chunks_of records size), st'. eexists.
split; [|split; [exact Htr|split; [exact Hcat|split; [exact Hreqs|]]]].
- unfold write. cbn iota. unfold bind at 1.
rewrite chunked_positive by done. exact Hloop.
- rewrite Hreqs. intros r p e Hr Hp He.
apply list_elem_of_fmap in Hr as (chunk & -> & Hchunk).
cbn in Hp. injection Hp as <-. cbn in He.
apply list_elem_of_fmap in He as (l & -> & Hl). cbn.
split; [done|]. split; [done|]. split; [|apply lookup_delete_eq].
apply Hids. rewrite <- Hcat. apply list_elem_of_In, in_concat.
exists chunk. by split; apply list_elem_of_In.
Qed.

(** C10: a call of [write] in update mode (so also of [update]) that
completes has changed its input in place: every record passed in
carried an [id] before and has none after, the [id] having been
popped from the caller's dict; all else in the heap is as it was. *)
Theorem write_update_pops_ids_in_place records table st st' :
0 < write_chunk_size self ->
update server quote self records table st = (Ok tt, st') ->
(forall record, record ∈ records ->
 is_Some (heap_get record (heap st) !! "id"%string)
 /\ heap_get record (heap st') !! "id"%string = None
 /\ heap_get record (heap st')
= delete "id"%string (heap_get record (heap st)))
/\ (forall other, other ∉ records ->
heap_get other (heap st') = heap_get other (heap st)).
Proof.
intros Hsize Hrun. unfold update, write in Hrun. cbn iota in Hrun.
unfold bind at 1 in Hrun. rewrite chunked_positive in Hrun by done.
apply for_each_update_inv in Hrun as (_ & Hids & Hpop).
rewrite chunks_of_concat in Hids, Hpop by lia.
split.
- intros l Hl. split; [by apply Hids|].
rewrite Hpop, bool_decide_eq_true_2 by done.
split; [apply lookup_delete_eq | done].
- intros l Hl. by rewrite Hpop, bool_decide_eq_false_2.
Qed.

End WriterProperties.

(** Twenty-five records at size ten: three requests, of ten, ten and five
    records. *)
Lemma write_append_sends_chunks_witness :
  0 < write_chunk_size Examples.client
  /\ (forall k, (k < ceil_div (length Examples.refs25)
                       (Z.to_nat (write_chunk_size Examples.client)))%nat ->
        is_success (Examples.accepting
                      (exchanges (trace Examples.state25) + k)) = true)
  /\ (exists chunks evs,
        write Examples.accepting Examples.quote_unreserved Examples.client
          Examples.refs25 "T" false Examples.state25
        = (Ok tt, with_trace Examples.state25 (trace Examples.state25 ++ evs))
        /\ concat chunks = Examples.refs25
        /\ length chunks = 3%nat)
  /\ (fun r => length <$> (p_records <$> req_json r))
       <$> requests
             (trace (write Examples.accepting Examples.quote_unreserved
                       Examples.client Examples.refs25 "T" false
                       Examples.state25).2)
     = [Some 10; Some 10; Some 5]%nat.
Proof.
  split; [done|]. split; [done|]. split; [|by vm_compute].
  destruct (write_append_sends_chunks Examples.accepting
              Examples.quote_unreserved Examples.client Examples.refs25 "T"
              Examples.state25 eq_refl (fun _ _ => eq_refl))
    as (chunks & evs & Hrun & Hcat & Hlen & _).
  exists chunks, evs. split; [exact Hrun|]. split; [exact Hcat|exact Hlen].
Defined.

Lemma write_update_sends_ids_in_envelopes_witness :
  0 < write_chunk_size Examples.client2
  /\ NoDup [1; 2; 3]%positive
  /\ carry_ids [1; 2; 3]%positive Examples.state3
  /\ (exists st' evs,
        write Examples.accepting Examples.quote_unreserved Examples.client2
          [1; 2; 3]%positive "T" true Examples.state3 = (Ok tt, st')
        /\ trace st' = trace Examples.state3 ++ evs
        /\ forall r p e,
             r ∈ requests evs -> req_json r = Some p -> e ∈ p_records p ->
             req_method r = "patch"%string /\ p_typecast p = true
             /\ is_Some (env_id e) /\ env_fields e !! "id"%string = None)
  /\ requests
       (trace (write Examples.accepting Examples.quote_unreserved
                 Examples.client2 [1; 2; 3]%positive "T" true
                 Examples.state3).2)
     = (fun envelopes =>
          {| req_method := "patch";
             req_url := "https://api.airtable.com/v0/appBase/T";
             req_headers := {[ "Content-Type"%string
                               := "application/json"%string ]};
             req_json := Some {| p_records := envelopes;
                                 p_typecast := true |} |})
         <$> [ [ {| env_id := Some (PStr "recA");
                    env_fields := {[ "Name"%string := PStr "a" ]} |};
                 {| env_id := Some (PStr "recB");
                    env_fields := {[ "Name"%string := PStr "b" ]} |} ];
               [ {| env_id := Some (PStr "recC"); env_fields := ∅ |} ] ].
Proof.
  assert (NoDup [1; 2; 3]%positive) as Hnd
    by (apply (bool_decide_unpack _); by vm_compute).
  assert (carry_ids [1; 2; 3]%positive Examples.state3) as Hids.
  { intros l Hl. apply list_elem_of_In in Hl.
    destruct Hl as [<-|[<-|[<-|[]]]]; by eexists. }
  split; [done|]. split; [exact Hnd|]. split; [exact Hids|].
  split; [|by vm_compute].
  destruct (write_update_sends_ids_in_envelopes Examples.accepting
              Examples.quote_unreserved Examples.client2 [1; 2; 3]%positive
              "T" Examples.state3 eq_refl Hnd Hids (fun _ _ => eq_refl))
    as (chunks & st' & evs & Hrun & Htr & _ & _ & Hform).
  exists st', evs. split; [exact Hrun|]. split; [exact Htr|exact Hform].
Defined.

Lemma write_update_pops_ids_in_place_witness :
  0 < write_chunk_size Examples.client2
  /\ (update Examples.accepting Examples.quote_unreserved Examples.client2
        [1; 2; 3]%positive "T" Examples.state3).1 = Ok tt
  /\ (forall record, record ∈ [1; 2; 3]%positive ->
        heap_get record
          (heap (update Examples.accepting Examples.quote_unreserved
                   Examples.client2 [1; 2; 3]%positive "T"
                   Examples.state3).2) !! "id"%string = None).
Proof.
  split; [done|]. split; [by vm_compute|].
  intros record Hrecord.
  assert (update Examples.accepting Examples.quote_unreserved Examples.client2
            [1; 2; 3]%positive "T" Examples.state3
          = (Ok tt,
             (update Examples.accepting Examples.quote_unreserved
                Examples.client2 [1; 2; 3]%positive "T" Examples.state3).2))
    as Hrun.
  { rewrite (surjective_pairing (update _ _ _ _ _ _)) at 1.
    f_equal; by vm_compute. }
  destruct (write_update_pops_ids_in_place Examples.accepting
              Examples.quote_unreserved Examples.client2 [1; 2; 3]%positive
              "T" Examples.state3 _ eq_refl Hrun) as [Hin _].
  by destruct (Hin record Hrecord) as (_ & Hnone & _).
Defined.

(** ** [rename_column] and [result_to_df] *)

Example rename_column_created_time : rename_column "Created Time!!" = "created_time_"%string.
Proof. reflexivity. Qed.

Example rename_column_dashes : rename_column "A--B" = "a_b"%string.
Proof. reflexivity. Qed.

Section ShaperProperties.

Variable json_dumps : json -> string.
Variable pd : Pandas.

Implicit Types (rows : list (list cell)) (df : DataFrame).

Lemma set_column_length j values rows :
length (set_column j values rows) = length rows.
Proof. apply length_imap. Qed.

Lemma set_column_widths j values rows w :
Forall (fun row => length row = w) rows ->
Forall (fun row => length row = w) (set_column j values rows).
Proof.
rewrite !Forall_forall. intros Hrows row Hrow.
apply elem_of_lookup_imap in Hrow as (i & row0 & -> & Hi).
rewrite length_insert. by eapply Hrows, list_elem_of_lookup_2.
Qed.

Lemma map_columns_shape f width rows w :
length (map_columns f width rows) = length rows
/\ (Forall (fun row => length row = w) rows ->
  Forall (fun row => length row = w) (map_columns f width rows)).
Proof.
unfold map_columns. generalize (seq 0 width). intros js. revert rows.
induction js as [|j js IH]; intros rows; [done|].
cbn [fold_left]. destruct (IH (map_column f j rows)) as [Hlen Hw].
split.
- by rewrite Hlen; apply set_column_length.
- intros Hrows. by apply Hw, set_column_widths.
Qed.

Lemma map_columns_nil f width : map_columns f width [] = [].
Proof.
apply length_zero_iff_nil.
by destruct (map_columns_shape f width [] 0%nat) as [-> _].
Qed.

Lemma index_of_elem name (columns : list string) :
name ∈ columns -> is_Some (index_of name columns).
Proof.
induction columns as [|c columns IH]; [by intros ?%elem_of_nil|].
cbn [index_of]. destruct (String.eqb_spec c name) as [->|Hne];
[by eexists|].
intros [?|Hin]%elem_of_cons; [congruence|].
destruct (IH Hin) as [j ->]. by eexists.
Qed.

(** A column that was worked on keeps the labels, the number of rows and
the width of the rows. *)
Lemma apply_column_shape name f df df' w :
apply_column pd name f df = Ok df' ->
df_columns df' = df_columns df
/\ length (df_rows df') = length (df_rows df)
/\ (Forall (fun row => length row = w) (df_rows df) ->
  Forall (fun row => length row = w) (df_rows df')).
Proof.
unfold apply_column. destruct (index_of name (df_columns df)); [|done].
destruct (_ =? 1)%nat.
- intros [= <-]. cbn [df_columns df_rows]. split; [done|].
split; [apply set_column_length | apply set_column_widths].
- destruct (df_rows df) eqn:Hrows; [|done]. intros [= <-].
by rewrite Hrows.
Qed.

Lemma serialize_fields_shape (field_info : FieldInfo) df df' w :
serialize_fields json_dumps pd field_info df = Ok df' ->
df_columns df' = df_columns df
/\ length (df_rows df') = length (df_rows df)
/\ (Forall (fun row => length row = w) (df_rows df) ->
  Forall (fun row => length row = w) (df_rows df')).
Proof.
revert df. induction field_info as [|[name ty] rest IH]; intros df.
- by intros [= <-].
- cbn [serialize_fields]. destruct (is_serialized_type ty); [|apply IH].
destruct (apply_column pd name (maybe_jsonify json_dumps) df)
  as [df1| |] eqn:Happly; [|done|done].
intros Hrest.
destruct (apply_column_shape _ _ _ _ w Happly) as (Hc1 & Hl1 & Hw1).
destruct (IH _ Hrest) as (Hc & Hl & Hw).
rewrite Hc, Hl, Hc1, Hl1. split; [done|]. split; [done|]. auto.
Qed.

(** On a frame without rows the serialization of a column that the frame
has changes nothing, also under a label that two columns carry. *)
Lemma serialize_fields_no_rows (field_info : FieldInfo) (columns : list string) :
(forall field, field ∈ field_info -> field.1 ∈ columns) ->
serialize_fields json_dumps pd field_info
{| df_columns := columns; df_rows := [] |}
= Ok {| df_columns := columns; df_rows := [] |}.
Proof.
induction field_info as [|[name ty] rest IH]; intros Hcols; [done|].
cbn [serialize_fields].
assert (serialize_fields json_dumps pd rest
        {| df_columns := columns; df_rows := [] |}
      = Ok {| df_columns := columns; df_rows := [] |}) as Hrest.
{ apply IH. intros field Hfield. apply Hcols. by apply list_elem_of_further. }
destruct (is_serialized_type ty); [|exact Hrest].
unfold apply_column. cbn [df_columns df_rows].
destruct (index_of_elem name columns) as [j ->].
{ apply (Hcols (name, ty)). apply list_elem_of_here. }
by destruct (_ =? 1)%nat.
Qed.

Lemma frame_columns_renamed field_info :
rename_column <$> source_columns field_info = frame_columns field_info.
Proof.
unfold source_columns, frame_columns. by rewrite !fmap_app.
Qed.

Lemma process_records_length data records :
process_records data = Ok records -> length records = length data.
Proof.
revert records. induction data as [|d data IH]; intros records H.
- by injection H as <-.
- cbn in H. destruct (process_record d); [|done|done].
destruct (process_records data) as [rs| |]; [|done|done].
injection H as <-. cbn. f_equal. by apply IH.
Qed.

(** Whatever the records, a frame that [result_to_df] returns has the
renamed labels, one row per record and in every row one cell per
label. *)
Lemma result_to_df_frame data field_info df :
result_to_df json_dumps pd data field_info = Ok df ->
df_columns df = frame_columns field_info
/\ length (df_rows df) = length data
/\ Forall (fun row => length row = length (df_columns df)) (df_rows df).
Proof.
unfold result_to_df. fold (source_columns field_info).
destruct (process_records data) as [records| |] eqn:Hrec; [|done|done].
cbv zeta.
destruct (serialize_fields json_dumps pd field_info _) as [df1| |] eqn:Hser;
[|done|done].
intros [= <-]. cbn [df_columns df_rows].
destruct (serialize_fields_shape _ _ _ (length (source_columns field_info))
          Hser) as (Hcols & Hrows & Hwidths).
cbn [frame_of_records df_columns df_rows] in Hcols, Hrows, Hwidths.
destruct (map_columns_shape (pd_convert pd) (length (df_columns df1))
          (df_rows df1) (length (source_columns field_info)))
as [Hlen Hw].
destruct (map_columns_shape (pd_construct pd)
          (length (source_columns field_info))
          ((fun record =>
              (fun c => match obj_get c record with
                        | Some v => CVal v
                        | None => CNaN
                        end) <$> source_columns field_info) <$> records)
          (length (source_columns field_info)))
as [Hlen0 Hw0].
rewrite Hcols in Hlen, Hw |- *. split; [apply frame_columns_renamed|]. split.
- rewrite Hlen, Hrows, Hlen0, length_fmap.
by apply process_records_length.
- rewrite length_fmap. apply Hw, Hwidths, Hw0.
apply Forall_fmap, Forall_forall. intros record _. cbn.
by rewrite length_fmap.
Qed.

Lemma result_to_df_shape data field_info df :
result_to_df json_dumps pd data field_info = Ok df ->
df_columns df = frame_columns field_info
/\ length (df_rows df) = length data.
Proof.
intros H. destruct (result_to_df_frame _ _ _ H) as (? & ? & _). done.
Qed.

(** C7 (as amended): on zero records [result_to_df] returns a frame
without rows whose labels are, in this order, [id], the renamed
([rename_column]) key of every field of the FieldInfo in its order,
and [createdtime]. *)
Theorem result_to_df_no_records field_info :
result_to_df json_dumps pd [] field_info
= Ok {| df_columns :=
        ["id"%string] ++ (rename_column <$> (fst <$> field_info))
        ++ ["createdtime"%string];
      df_rows := [] |}.
Proof.
unfold result_to_df. fold (source_columns field_info).
cbn [process_records]. cbv zeta. unfold frame_of_records.
cbn [fmap list_fmap]. rewrite map_columns_nil.
rewrite serialize_fields_no_rows.
- cbn [df_columns df_rows]. rewrite map_columns_nil.
by rewrite frame_columns_renamed.
- intros field Hfield. unfold source_columns.
apply elem_of_cons. right. apply elem_of_app. left.
apply list_elem_of_fmap. by exists field.
Qed.

End ShaperProperties.

(** C7, as stated, fails: the labels are renamed, so the frame has neither
    a [createdTime] column nor the FieldInfo key as it is written. *)
Lemma result_to_df_labels_are_renamed :
  df_columns <$> (match result_to_df Examples.dumps_unused Examples.as_given
                          [] Examples.one_field with
                  | Ok df => Some df
                  | _ => None
                  end)
  = Some ["id"; "created_time_"; "createdtime"]%string
  /\ ["id"; "created_time_"; "createdtime"]%string
     <> ["id"%string] ++ (fst <$> Examples.one_field) ++ ["createdTime"%string]
  /\ ~ In "createdTime"%string ["id"; "created_time_"; "createdtime"]%string.
Proof.
  split; [reflexivity|]. split; [discriminate|].
  cbn. intros [H|[H|[H|[]]]]; discriminate H.
Qed.

(** ** [row_to_record] *)

Section SenderProperties.

Variable float_of_decimal : decimal -> float64.

Implicit Types (row : pydict) (result : pydict).

Lemma first_candidate_selected row query_names :
first_candidate float_of_decimal row query_names
= match selected row query_names with
| None => Ok None
| Some (q, v) =>
match encode_value float_of_decimal q v with
| Ok v' => Ok (Some v')
| Raise e => Raise e
| Diverge => Diverge
end
end.
Proof.
unfold selected. induction query_names as [|q rest IH]; [done|].
cbn [first_candidate omap list_omap]. 
destruct (row !! q) as [v|]; [|exact IH].
destruct v; try reflexivity. exact IH.
Qed.

Lemma selected_not_none row query_names q :
selected row query_names <> Some (q, PNone).
Proof.
unfold selected. induction query_names as [|q' rest IH]; [done|].
cbn [omap list_omap]. destruct (row !! q') as [v|]; [|exact IH].
destruct v; first [exact IH | cbn; congruence].
Qed.

(** The selected candidate is one of the candidates, holds the selected
value, and every candidate before it is absent or [None]. *)
Lemma selected_first row query_names q v :
selected row query_names = Some (q, v) ->
exists before after,
query_names = before ++ q :: after
/\ row !! q = Some v /\ v <> PNone
/\ Forall (fun q' => row !! q' = None \/ row !! q' = Some PNone) before.
Proof.
unfold selected. induction query_names as [|q' rest IH]; [done|].
cbn [omap list_omap].
destruct (row !! q') as [v'|] eqn:E.
- destruct v';
try (cbn; intros [= <- <-]; exists [], rest;
   repeat split; [done | done | constructor]).
intros H. destruct (IH H) as (before & after & -> & Hq & Hv & Hall).
exists (q' :: before), after. repeat split; try done.
constructor; [by right | done].
- intros H. destruct (IH H) as (before & after & -> & Hq & Hv & Hall).
exists (q' :: before), after. repeat split; try done.
constructor; [by left | done].
Qed.

Lemma encode_value_encoded q v :
(forall d, v <> PDate d) ->
exists v', encode_value float_of_decimal q v = Ok v'
     /\ encoded float_of_decimal q v v'.
Proof.
intros Hdate. destruct v; try (eexists; split; [reflexivity|]; by constructor).
- cbn [encode_value].
destruct (PyStr.truthy (PyStr.strip s)) eqn:Hs;
destruct (PyStr.endswith q "_list") eqn:Hq; cbn [andb];
eexists; (split; [reflexivity|]).
+ apply encoded_list; [|done]. intros H. by rewrite H in Hs.
+ apply encoded_string. by right.
+ apply encoded_string. left. by destruct (PyStr.strip s).
+ apply encoded_string. by right.
- by destruct (Hdate d).
Qed.

Lemma row_to_record_loop_spec row field_mappings acc :
NoDup (fst <$> field_mappings) ->
(forall name candidates q d,
 (name, candidates) ∈ field_mappings ->
 selected row (default [] candidates) <> Some (q, PDate d)) ->
exists result,
row_to_record_loop float_of_decimal row field_mappings acc = Ok result
/\ (forall name, name ∉ (fst <$> field_mappings) ->
  result !! name = acc !! name)
/\ (forall name candidates,
  (name, candidates) ∈ field_mappings ->
  match selected row (default [] candidates) with
  | None => result !! name = acc !! name
  | Some (q, v) =>
      exists v', result !! name = Some v'
                 /\ encoded float_of_decimal q v v'
  end).
Proof.
revert acc. induction field_mappings as [|[name0 cands0] rest IH];
intros acc Hnd Hdate.
- exists acc. split; [done|]. split; [done|]. by intros ?? ?%elem_of_nil.
- cbn [fmap list_fmap fst] in Hnd. apply NoDup_cons in Hnd as [Hfresh Hnd].
assert (forall name candidates q d,
      (name, candidates) ∈ rest ->
      selected row (default [] candidates) <> Some (q, PDate d))
as Hdate'.
{ intros name candidates q d Hmem. apply (Hdate name candidates).
by apply list_elem_of_further. }
cbn [row_to_record_loop]. rewrite first_candidate_selected.
destruct (selected row (default [] cands0)) as [[q v]|] eqn:Hsel.
+ destruct (encode_value_encoded q v) as (v' & Henc & Hv').
{ intros d ->. eapply Hdate; [apply list_elem_of_here | exact Hsel]. }
rewrite Henc.
destruct (IH (<[name0 := v']> acc) Hnd Hdate')
as (result & Hrun & Hout & Hin).
exists result. split; [exact Hrun|]. split.
* intros name [Hne Hname]%not_elem_of_cons. rewrite Hout by done.
by rewrite lookup_insert_ne.
* intros name candidates [[= -> ->]|Hrest]%elem_of_cons.
-- rewrite Hsel. exists v'. split; [|done].
   rewrite Hout by done. apply lookup_insert_eq.
-- specialize (Hin name candidates Hrest).
   destruct (selected row (default [] candidates)) as [[q' w]|];
     [done|].
   rewrite Hin. apply lookup_insert_ne. intros <-. apply Hfresh.
   apply list_elem_of_fmap. by exists (name0, candidates).
+ destruct (IH acc Hnd Hdate') as (result & Hrun & Hout & Hin).
exists result. split; [exact Hrun|]. split.
* intros name [Hne Hname]%not_elem_of_cons. by apply Hout.
* intros name candidates [[= -> ->]|Hrest]%elem_of_cons.
-- rewrite Hsel. by apply Hout.
-- by apply Hin.
Qed.

(** C8 (as amended): on a row in which no field's first candidate with a
value that is not null holds a plain date, [row_to_record] returns a
record that holds, for every destination field, the encoding of the
value of the first candidate column whose value is not null: a
Decimal becomes a float, a datetime the text [%m/%d/%Y %H:%M:%S], a
string that is not blank, from a column whose name ends in [_list],
the list of its pipe-separated items, each trimmed; any other string
and any other value (a bool, an int, a float, a list) is sent as it
is; a field without such a candidate is left out.  Rows with a
selected plain date are left aside: see [row_to_record_date_raises]. *)
Theorem row_to_record_selects_and_encodes row field_mappings :
NoDup (fst <$> field_mappings) ->
(forall name candidates q d,
 (name, candidates) ∈ field_mappings ->
 selected row (default [] candidates) <> Some (q, PDate d)) ->
exists result,
row_to_record float_of_decimal row field_mappings = Ok result
/\ (forall name, name ∉ (fst <$> field_mappings) -> result !! name = None)
/\ (forall name candidates,
  (name, candidates) ∈ field_mappings ->
  match selected row (default [] candidates) with
  | None => result !! name = None
  | Some (q, v) =>
      exists v', result !! name = Some v'
                 /\ encoded float_of_decimal q v v'
  end).
Proof.
intros Hnd Hdate.
destruct (row_to_record_loop_spec row field_mappings ∅ Hnd Hdate)
as (result & Hrun & Hout & Hin).
exists result. split; [exact Hrun|]. split.
- intros name Hname. by rewrite Hout.
- intros name candidates Hmem. specialize (Hin name candidates Hmem).
destruct (selected row (default [] candidates)) as [[q v]|]; [done|].
by rewrite Hin.
Qed.

End SenderProperties.

(** C8, as stated, fails on a blank string: it is not empty, its column is a
    [_list] column, and it is sent as the string it is, not as a list. *)
Lemma row_to_record_keeps_blank_string :
  row_to_record Examples.float_of_whole Examples.blank_row
    [("Tags"%string, Some ["tags_list"%string])]
  = Ok {[ "Tags"%string := PStr " " ]}
  /\ PStr " " <> PList ((fun item => PStr (PyStr.strip item))
                        <$> PyStr.split "|" " ")
  /\ " "%string <> EmptyString
  /\ PyStr.endswith "tags_list" "_list" = true.
Proof.
  split; [by vm_compute|]. split; [discriminate|].
  split; [discriminate | reflexivity].
Qed.

(** A selected [datetime.date] makes [row_to_record] raise: the call
    [value.isoformat("%m/%d/%Y")] passes an argument to a method that takes
    none. *)
Lemma row_to_record_date_raises :
  row_to_record Examples.float_of_whole Examples.day_row
    [("Day"%string, Some ["day"%string])]
  = Raise TypeError.
Proof. by vm_compute. Qed.

Lemma row_to_record_selects_and_encodes_witness :
  NoDup (fst <$> Examples.mappings)
  /\ (forall name candidates q d,
        (name, candidates) ∈ Examples.mappings ->
        selected Examples.row (default [] candidates) <> Some (q, PDate d))
  /\ (exists result,
        row_to_record Examples.float_of_whole Examples.row Examples.mappings
        = Ok result
        /\ forall name candidates,
             (name, candidates) ∈ Examples.mappings ->
             match selected Examples.row (default [] candidates) with
             | None => result !! name = None
             | Some (q, v) =>
                 exists v', result !! name = Some v'
                            /\ encoded Examples.float_of_whole q v v'
             end)
  /\ row_to_record Examples.float_of_whole Examples.row Examples.mappings
     = Ok {[ "Amount"%string := PFloat (F64 3 0);
             "Seen"%string := PStr "03/09/2021 14:05:00";
             "Tags"%string := PList [PStr "a"; PStr "b"];
             "Name"%string := PStr "x" ]}.
Proof.
  assert (NoDup (fst <$> Examples.mappings)) as Hnd
    by (apply (bool_decide_unpack _); by vm_compute).
  assert (forall name candidates q d,
            (name, candidates) ∈ Examples.mappings ->
            selected Examples.row (default [] candidates) <> Some (q, PDate d))
    as Hdate.
  { intros name candidates q d Hmem. apply list_elem_of_In in Hmem.
    repeat (destruct Hmem as [[= <- <-]|Hmem]; [by vm_compute|]).
    destruct Hmem. }
  split; [exact Hnd|]. split; [exact Hdate|]. split; [|by vm_compute].
  destruct (row_to_record_selects_and_encodes Examples.float_of_whole
              Examples.row Examples.mappings Hnd Hdate)
    as (result & Hrun & _ & Hspec).
  exists result. split; [exact Hrun | exact Hspec].
Defined.

(** ** [_load_chunks] *)

Lemma string_length_app (s t : string) :
  String.length (s +:+ t) = (String.length s + String.length t)%nat.
Proof.
  induction s as [|c s IH]; [done|].
  change (S (String.length (s +:+ t))
          = S (String.length s + String.length t)). by rewrite IH.
Qed.

(** The temporary table never has the name of the final one. *)
Lemma temporary_name_differs (schema table : string) :
  identifier schema (table +:+ "__loader_tmp") <> identifier schema table.
Proof.
  unfold identifier. intros H. apply (f_equal String.length) in H.
  rewrite !string_length_app in H. cbn in H. lia.
Qed.

(** *** The table that [to_sql] makes of a frame *)

Lemma elem_of_distinct_labels c (seen labels : list string) :
  c ∈ Sql.distinct_labels seen labels <-> c ∈ labels /\ c ∉ seen.
Proof.
  revert seen. induction labels as [|l labels IH]; intros seen.
  - cbn. split; [by intros ?%elem_of_nil | by intros [?%elem_of_nil _]].
  - cbn [Sql.distinct_labels]. destruct (decide (l ∈ seen)) as [Hl|Hl].
    + rewrite bool_decide_eq_true_2 by done. rewrite IH, elem_of_cons.
      split; [by intros [? ?]; split; [right|]|].
      intros [[->|?] ?]; [done | by split].
    + rewrite bool_decide_eq_false_2 by done.
      rewrite !elem_of_cons, IH, not_elem_of_cons.
      split.
      * intros [->|[? [? ?]]]; [by split; [left|] | by split; [right|]].
      * intros [[->|?] ?]; [by left|].
        destruct (decide (c = l)) as [->|?]; [by left | by right].
Qed.

Lemma elem_of_table_columns c (labels : list string) :
  c ∈ Sql.table_columns labels <-> c ∈ labels.
Proof.
  unfold Sql.table_columns. rewrite elem_of_distinct_labels.
  split; [by intros [? _] | intros ?; split; [done | apply not_elem_of_nil]].
Qed.

Lemma distinct_labels_NoDup (seen labels : list string) :
  NoDup labels -> (forall c, c ∈ labels -> c ∉ seen) ->
  Sql.distinct_labels seen labels = labels.
Proof.
  revert seen. induction labels as [|l labels IH]; intros seen Hnd Hseen;
    [done|].
  apply NoDup_cons in Hnd as [Hl Hnd]. cbn [Sql.distinct_labels].
  rewrite bool_decide_eq_false_2 by (apply Hseen, list_elem_of_here).
  f_equal. apply IH; [done|]. intros c Hc [->|?]%elem_of_cons; [done|].
  by apply (Hseen c); [apply list_elem_of_further|].
Qed.

(** Labels that are distinct are the columns of the table. *)
Lemma table_columns_NoDup (labels : list string) :
  NoDup labels -> Sql.table_columns labels = labels.
Proof.
  intros Hnd. apply distinct_labels_NoDup; [done|].
  intros c _. apply not_elem_of_nil.
Qed.

Lemma last_value_absent label (labels : list string) (row : list cell)
    (value : cell) :
  label ∉ labels ->
  fold_left
    (fun value item => if String.eqb item.1 label then item.2 else value)
    (zip labels row) value = value.
Proof.
  revert row value. induction labels as [|c labels IH]; intros row value Hl;
    [done|].
  apply not_elem_of_cons in Hl as [Hne Hl].
  destruct row as [|x row]; [done|]. cbn [zip zip_with fold_left fst snd].
  rewrite (proj2 (String.eqb_neq c label)) by done. by apply IH.
Qed.

(** Under distinct labels a row is stored as it is. *)
Lemma stored_row_NoDup (labels : list string) (row : list cell) :
  NoDup labels -> length row = length labels ->
  Sql.stored_row labels labels row = row.
Proof.
  revert row. induction labels as [|c labels IH]; intros row Hnd Hlen.
  - by destruct row.
  - destruct row as [|x row]; [done|]. injection Hlen as Hlen.
    apply NoDup_cons in Hnd as [Hc Hnd].
    unfold Sql.stored_row. cbn [fmap list_fmap].
    rewrite bool_decide_eq_true_2 by apply list_elem_of_here. f_equal.
    + unfold Sql.last_value. cbn [zip zip_with fold_left fst snd].
      rewrite String.eqb_refl. by apply last_value_absent.
    + etrans; [|exact (IH row Hnd Hlen)]. unfold Sql.stored_row.
      apply list_fmap_ext. intros i c' Hi.
      assert (c' ∈ labels) as Hc' by (by eapply list_elem_of_lookup_2).
      rewrite !bool_decide_eq_true_2;
        [|done | by apply list_elem_of_further].
      unfold Sql.last_value. cbn [zip zip_with fold_left fst snd].
      rewrite (proj2 (String.eqb_neq c c')); [done|]. by intros ->.
Qed.

Section LoaderProperties.

Variable json_dumps : json -> string.
Variable pd : Pandas.

Implicit Types (wh : Warehouse) (chunks : ChunkStream).

(** Under distinct labels the rows of a frame are stored as they are. *)
Lemma loaded_rows_NoDup data field_info df :
NoDup (frame_columns field_info) ->
result_to_df json_dumps pd data field_info = Ok df ->
loaded_rows field_info df = df_rows df.
Proof.
intros Hnd Hdf. destruct (result_to_df_frame _ _ _ _ _ Hdf) as (Hcols & _ & Hw).
unfold loaded_rows. rewrite table_columns_NoDup by done.
etrans; [|apply list_fmap_id].
apply list_fmap_ext. intros i row Hi. cbv beta.
apply stored_row_NoDup; [done|]. rewrite <- Hcols.
rewrite Forall_forall in Hw. by eapply Hw, list_elem_of_lookup_2.
Qed.

Lemma loaded_rows_length field_info df :
length (loaded_rows field_info df) = length (df_rows df).
Proof. unfold loaded_rows. by rewrite length_fmap. Qed.

Lemma load_loop_spec chunks field_info schema temporary_table count wh n wh'
before :
wh !! identifier schema temporary_table = appended field_info before ->
load_loop json_dumps pd chunks field_info schema temporary_table count wh
= (Ok n, wh') ->
exists frames,
Forall2 (fun chunk df => result_to_df json_dumps pd chunk field_info = Ok df)
  (yielded chunks) frames
/\ n = (count + length (concat (df_rows <$> frames)))%nat
/\ (forall other, other <> identifier schema temporary_table ->
      wh' !! other = wh !! other)
/\ wh' !! identifier schema temporary_table
   = appended field_info (before ++ frames).
Proof.
revert count wh before.
induction chunks as [|chunk rest IH|e]; intros count wh before Htmp Hrun.
- cbn in Hrun. injection Hrun as <- <-. exists []. cbn.
split; [constructor|]. split; [lia|]. split; [done|].
by rewrite app_nil_r.
- cbn [load_loop] in Hrun. unfold bind at 1, lift in Hrun.
destruct (result_to_df json_dumps pd chunk field_info) as [df| |] eqn:Hdf;
  [|done|done].
destruct (result_to_df_shape _ _ _ _ _ Hdf) as [Hcols _].
unfold bind at 1, materialize, Sql.to_sql in Hrun.
set (tmp := identifier schema temporary_table) in *.
assert (forall wh1,
          (forall other, other <> tmp -> wh1 !! other = wh !! other) ->
          wh1 !! tmp = appended field_info (before ++ [df]) ->
          load_loop json_dumps pd rest field_info schema temporary_table
            (count + length (df_rows df)) wh1 = (Ok n, wh') ->
          exists frames,
            Forall2 (fun chunk df =>
                       result_to_df json_dumps pd chunk field_info = Ok df)
              (chunk :: yielded rest) frames
            /\ n = (count + length (concat (df_rows <$> frames)))%nat
            /\ (forall other, other <> tmp -> wh' !! other = wh !! other)
            /\ wh' !! tmp = appended field_info (before ++ frames))
  as Hstep.
{ intros wh1 Hother1 Htmp1 Hrest.
  destruct (IH _ _ _ Htmp1 Hrest) as (frames & Hframes & -> & Hother & Ht).
  exists (df :: frames). split; [by constructor|].
  cbn [fmap list_fmap concat]. rewrite length_app. split; [lia|].
  split.
  - intros other Hne. by rewrite Hother, Hother1.
  - by rewrite Ht, <- app_assoc. }
rewrite Htmp in Hrun.
destruct before as [|df0 earlier] eqn:Hbefore.
+ cbn [appended] in Hrun. apply (Hstep _) in Hrun; [done| |].
  * intros other Hne. by rewrite lookup_insert_ne.
  * rewrite lookup_insert_eq. cbn [app appended fmap list_fmap concat].
    unfold loaded_rows. by rewrite Hcols, app_nil_r.
+ rewrite <- Hbefore in *.
  assert (appended field_info before
          = Some {| t_columns := Sql.table_columns (frame_columns field_info);
                    t_rows := concat (loaded_rows field_info <$> before) |})
    as Happ by (by rewrite Hbefore).
  assert (appended field_info (before ++ [df])
          = Some {| t_columns := Sql.table_columns (frame_columns field_info);
                    t_rows := concat (loaded_rows field_info <$> before)
                              ++ loaded_rows field_info df |})
    as Happ'.
  { rewrite Hbefore. cbn [app appended].
    change (df0 :: earlier ++ [df]) with ((df0 :: earlier) ++ [df]).
    rewrite fmap_app, concat_app. cbn [fmap list_fmap concat].
    by rewrite app_nil_r. }
  rewrite Happ in Hrun. cbn [t_columns t_rows] in Hrun.
  destruct (df_rows df) as [|row rows] eqn:Hrows.
  * apply (Hstep _) in Hrun; [done|done|].
    rewrite Htmp, Happ, Happ'. unfold loaded_rows at 3.
    by rewrite Hrows, app_nil_r.
  * rewrite Hcols in Hrun.
    assert (forallb
              (fun c => bool_decide
                          (c ∈ Sql.table_columns (frame_columns field_info)))
              (frame_columns field_info) = true) as Hall.
    { apply forallb_forall. intros c Hc. apply bool_decide_eq_true_2.
      by apply elem_of_table_columns, list_elem_of_In. }
    rewrite Hall in Hrun. rewrite <- Hrows in Hrun, Hstep.
    apply (Hstep _) in Hrun; [done| |].
    -- intros other Hne. by rewrite lookup_insert_ne.
    -- by rewrite lookup_insert_eq, Happ'.
- done.
Qed.

(** The step that makes sure the temporary table exists: it leaves the
temporary table with the loaded rows, created without rows when nothing
was loaded. *)
Lemma ensure_table_spec field_info schema temporary_table frames wh wh' :
wh !! identifier schema temporary_table = appended field_info frames ->
(if (length (concat (df_rows <$> frames)) =? 0)%nat then
 let* nulls_df := lift (result_to_df json_dumps pd [] field_info) in
 let* nulls_df := lift (concat_null_row nulls_df) in
 let* _ := materialize nulls_df schema temporary_table Sql.IfExistsFail in
 Sql.delete_from (identifier schema temporary_table)
 else ret tt) wh = (Ok tt, wh') ->
wh' !! identifier schema temporary_table
= Some {| t_columns := Sql.table_columns (frame_columns field_info);
        t_rows := concat (loaded_rows field_info <$> frames) |}
/\ (forall other, other <> identifier schema temporary_table ->
    wh' !! other = wh !! other).
Proof.
set (tmp := identifier schema temporary_table). intros Htmp Hrun.
destruct (Nat.eqb_spec (length (concat (df_rows <$> frames))) 0) as [Hz|Hnz].
- unfold bind at 1, lift in Hrun. rewrite result_to_df_no_records in Hrun.
fold (frame_columns field_info) in Hrun.
unfold bind at 1, concat_null_row in Hrun. cbn [df_columns df_rows] in Hrun.
destruct (bool_decide (NoDup (frame_columns field_info))); [|done].
unfold bind at 1, materialize, Sql.to_sql in Hrun. fold tmp in Hrun.
rewrite Htmp in Hrun.
destruct frames as [|df frames]; cbn [appended] in Hrun; [|done].
cbn [df_columns df_rows] in Hrun.
unfold Sql.delete_from in Hrun. rewrite lookup_insert_eq in Hrun.
injection Hrun as <-. cbn [t_columns]. split.
+ by rewrite lookup_insert_eq.
+ intros other Hne. by rewrite !lookup_insert_ne.
- unfold ret in Hrun. injection Hrun as <-. split; [|done].
rewrite Htmp. destruct frames as [|df frames]; [done|]. reflexivity.
Qed.

(** The cutover: the temporary table takes the final name, whether or not
a table of that name was there, and the temporary name is free again. *)
Lemma cutover_spec schema table t wh (exists_ : bool) wh1 wh' :
let temporary := identifier schema (table +:+ "__loader_tmp") in
let final := identifier schema table in
wh !! temporary = Some t ->
table_exists schema table wh = (Ok exists_, wh1) ->
(if exists_ then
 let* _ := Sql.swap_with temporary final in
 Sql.drop_table temporary
 else Sql.rename_to temporary final) wh1 = (Ok tt, wh') ->
wh' !! final = Some t
/\ wh' !! temporary = None
/\ (forall other, other <> final -> other <> temporary ->
    wh' !! other = wh !! other).
Proof.
intros tmp final Htmp Hexists Hrun.
pose proof (temporary_name_differs schema table) as Hne. fold tmp final in Hne.
unfold table_exists, try_except, bind, Sql.describe_table in Hexists.
fold final in Hexists.
destruct (wh !! final) as [old|] eqn:Hfinal;
unfold ret in Hexists; injection Hexists as <- <-.
- unfold bind at 1, Sql.swap_with in Hrun.
rewrite Htmp, Hfinal in Hrun. unfold Sql.drop_table in Hrun.
rewrite lookup_insert_eq in Hrun. injection Hrun as <-.
split; [|split].
+ rewrite lookup_delete_ne, lookup_insert_ne by done.
  apply lookup_insert_eq.
+ apply lookup_delete_eq.
+ intros other H1 H2. by rewrite lookup_delete_ne, !lookup_insert_ne.
- unfold Sql.rename_to in Hrun.
rewrite Htmp, Hfinal in Hrun. injection Hrun as <-.
split; [|split].
+ apply lookup_insert_eq.
+ rewrite lookup_insert_ne by done. apply lookup_delete_eq.
+ intros other H1 H2. by rewrite lookup_insert_ne, lookup_delete_ne.
Qed.

(** What a completed [_load_chunks] leaves. *)
Lemma load_chunks_returns chunks field_info destination wh count wh' :
load_chunks json_dumps pd chunks field_info destination wh = (Ok count, wh') ->
exists database schema table frames,
parse_table_name destination = Ok (database, schema, table)
/\ Forall2
     (fun chunk df => result_to_df json_dumps pd chunk field_info = Ok df)
     (yielded chunks) frames
/\ let final := identifier (effective_schema database schema) table in
   let temporary := identifier (effective_schema database schema)
                      (table +:+ "__loader_tmp") in
   wh' !! final
   = Some {| t_columns := Sql.table_columns (frame_columns field_info);
             t_rows := concat (loaded_rows field_info <$> frames) |}
   /\ wh' !! temporary = None
   /\ count = length (concat (df_rows <$> frames))
   /\ (forall other, other <> final -> other <> temporary ->
         wh' !! other = wh !! other).
Proof.
intros Hrun. unfold load_chunks in Hrun. unfold bind at 1, lift in Hrun.
destruct (parse_table_name destination) as [[[database schema] table]| |]
eqn:Hparse; [|done|done].
fold (effective_schema database schema) in Hrun.
set (sch := effective_schema database schema) in *.
set (tmp := identifier sch (table +:+ "__loader_tmp")) in *.
set (final := identifier sch table) in *.
unfold bind at 1, Sql.drop_table_if_exists in Hrun.
unfold bind at 1 in Hrun.
destruct (load_loop json_dumps pd chunks field_info sch
          (table +:+ "__loader_tmp") 0 (delete tmp wh))
as [[n| |] wh2] eqn:Hloop; [|done|done].
apply (load_loop_spec _ _ _ _ _ _ _ _ []) in Hloop
as (frames & Hframes & Hn & Hother2 & Htmp2);
[|by fold tmp; rewrite lookup_delete_eq].
fold tmp in Hother2, Htmp2. cbn [app] in Htmp2.
cbn [Nat.add] in Hn. subst n.
unfold bind at 1 in Hrun.
match type of Hrun with
| match ?phase wh2 with _ => _ end = _ =>
  destruct (phase wh2) as [[[]| |] wh3] eqn:Hensure; [|done|done]
end.
apply (ensure_table_spec field_info sch (table +:+ "__loader_tmp") frames)
in Hensure as [Htmp3 Hother3]; [|exact Htmp2].
fold tmp in Htmp3, Hother3.
unfold bind at 1 in Hrun.
destruct (table_exists sch table wh3) as [[exists_| |] wh4] eqn:Hexists;
[|done|done].
unfold bind at 1 in Hrun.
match type of Hrun with
| match ?phase wh4 with _ => _ end = _ =>
  destruct (phase wh4) as [[[]| |] wh5] eqn:Hcut; [|done|done]
end.
unfold ret in Hrun. injection Hrun as <- <-.
destruct (cutover_spec sch table _ wh3 exists_ wh4 wh5 Htmp3 Hexists Hcut)
as (Hfinal & Hgone & Hother5).
exists database, schema, table, frames.
split; [done|]. split; [exact Hframes|]. cbn zeta. fold sch tmp final.
split; [exact Hfinal|]. split; [exact Hgone|]. split; [done|].
intros other H1 H2. rewrite Hother5, Hother3, Hother2 by done.
by apply lookup_delete_ne.
Qed.

Lemma shaped_lengths (parts : list (list json)) field_info frames :
Forall2 (fun chunk df => result_to_df json_dumps pd chunk field_info = Ok df)
parts frames ->
length (concat (df_rows <$> frames)) = length (concat parts)
/\ length (concat (loaded_rows field_info <$> frames))
 = length (concat parts).
Proof.
induction 1 as [|chunk df cs fs Hdf _ [IH1 IH2]]; [done|].
cbn [fmap list_fmap concat]. rewrite !length_app, IH1, IH2.
rewrite loaded_rows_length.
by destruct (result_to_df_shape _ _ _ _ _ Hdf) as [_ ->].
Qed.

Lemma loaded_rows_NoDup_all (parts : list (list json)) field_info frames :
NoDup (frame_columns field_info) ->
Forall2 (fun chunk df => result_to_df json_dumps pd chunk field_info = Ok df)
parts frames ->
loaded_rows field_info <$> frames = df_rows <$> frames.
Proof.
intros Hnd. induction 1 as [|chunk df cs fs Hdf _ IH]; [done|].
cbn [fmap list_fmap]. rewrite IH. f_equal.
by eapply loaded_rows_NoDup.
Qed.

(** C1: when [_load_chunks] completes, the warehouse has under the final
name a table holding exactly the rows shaped from the chunks of this
load, in order, as [to_sql] stores them - whatever was or was not
under that name before - and no table under the temporary name
[<table>__loader_tmp]; the count returned is the number of those
rows, one per record, and no other table has changed.  The table has
one column for every label of the frame, a label that two fields
share after renaming giving one column, with the value of the later
field; when the labels are distinct, the table has the labels and the
rows of the frames as they are. *)
Theorem load_chunks_cutover chunks field_info destination wh count wh' :
load_chunks json_dumps pd chunks field_info destination wh = (Ok count, wh') ->
exists database schema table frames,
parse_table_name destination = Ok (database, schema, table)
/\ Forall2
     (fun chunk df => result_to_df json_dumps pd chunk field_info = Ok df)
     (yielded chunks) frames
/\ let final := identifier (effective_schema database schema) table in
   let temporary := identifier (effective_schema database schema)
                      (table +:+ "__loader_tmp") in
   wh' !! final
   = Some {| t_columns := Sql.table_columns (frame_columns field_info);
             t_rows := concat (loaded_rows field_info <$> frames) |}
   /\ (NoDup (frame_columns field_info) ->
       wh' !! final
       = Some {| t_columns := frame_columns field_info;
                 t_rows := concat (df_rows <$> frames) |})
   /\ wh' !! temporary = None
   /\ count = length (concat (loaded_rows field_info <$> frames))
   /\ count = length (concat (df_rows <$> frames))
   /\ count = length (concat (yielded chunks))
   /\ (forall other, other <> final -> other <> temporary ->
         wh' !! other = wh !! other).
Proof.
intros Hrun.
destruct (load_chunks_returns _ _ _ _ _ _ Hrun)
as (database & schema & table & frames & Hparse & Hframes & Hfacts).
cbn zeta in Hfacts. destruct Hfacts as (Hfinal & Hgone & Hcount & Hother).
destruct (shaped_lengths _ _ _ Hframes) as [Hlen1 Hlen2].
exists database, schema, table, frames.
split; [done|]. split; [exact Hframes|]. cbn zeta.
split; [exact Hfinal|]. split.
{ intros Hnd. rewrite Hfinal, table_columns_NoDup by done.
by rewrite (loaded_rows_NoDup_all _ _ _ Hnd Hframes). }
split; [exact Hgone|]. split; [congruence|]. split; [done|].
split; [congruence | exact Hother].
Qed.

End LoaderProperties.

Lemma load_chunks_cutover_witness :
  (load_chunks Examples.dumps_unused Examples.as_given Examples.two_chunks
     Examples.name_field "db.sch.tbl" Examples.used_warehouse).1 = Ok 3%nat
  /\ (exists frames,
        let wh' := (load_chunks Examples.dumps_unused Examples.as_given
                      Examples.two_chunks Examples.name_field "db.sch.tbl"
                      Examples.used_warehouse).2 in
        wh' !! "db.sch.tbl"%string
        = Some {| t_columns := frame_columns Examples.name_field;
                  t_rows := concat (df_rows <$> frames) |}
        /\ wh' !! "db.sch.tbl__loader_tmp"%string = None
        /\ 3%nat = length (concat (df_rows <$> frames)))
  /\ (load_chunks Examples.dumps_unused Examples.as_given Examples.two_chunks
        Examples.name_field "db.sch.tbl" Examples.used_warehouse).2
     = {[ "db.sch.tbl"%string
          := {| t_columns := ["id"; "name"; "createdtime"]%string;
                t_rows := [Examples.shaped_row "a"; Examples.shaped_row "b";
                           Examples.shaped_row "c"] |};
          "db.sch.other"%string := Examples.old_table ]}
  /\ (load_chunks Examples.dumps_unused Examples.as_given Examples.two_chunks
        Examples.name_field "sch.tbl" ∅).2
     = {[ "sch.tbl"%string
          := {| t_columns := ["id"; "name"; "createdtime"]%string;
                t_rows := [Examples.shaped_row "a"; Examples.shaped_row "b";
                           Examples.shaped_row "c"] |} ]}
  /\ load_chunks Examples.dumps_unused Examples.as_given
       (Yield [Examples.colliding_record] Stop) Examples.colliding_fields
       "sch.tbl" ∅
     = (Ok 1%nat,
        {[ "sch.tbl"%string
           := {| t_columns := ["id"; "a_b"; "createdtime"]%string;
                 t_rows := [[CVal (JStr "rec1"); CVal (JStr "second");
                             CVal (JStr "2020-01-01")]] |} ]}).
Proof.
  split; [by vm_compute|]. split; [|split; [|split]; by vm_compute].
  destruct (load_chunks_cutover Examples.dumps_unused Examples.as_given
              Examples.two_chunks Examples.name_field "db.sch.tbl"
              Examples.used_warehouse 3%nat
              (load_chunks Examples.dumps_unused Examples.as_given
                 Examples.two_chunks Examples.name_field "db.sch.tbl"
                 Examples.used_warehouse).2)
    as (database & schema & table & frames & Hparse & _ & Hfacts).
  { rewrite (surjective_pairing (load_chunks _ _ _ _ _ _)) at 1.
    f_equal; by vm_compute. }
  injection Hparse as <- <- <-. cbn zeta in Hfacts.
  destruct Hfacts as (_ & Hfinal & Hgone & _ & Hcount & _).
  exists frames. cbn zeta. split; [|split; [exact Hgone | exact Hcount]].
  apply Hfinal. apply (bool_decide_unpack _). by vm_compute.
Defined.

(** * Further properties *)

(** ** [AirtableClient.request] *)

Section RequestBounds.

Variable server : nat -> Response.
Variable self : AirtableClient.

Implicit Types (st : State) (req : Request).

(** The loop sends the same request at every turn, sleeps between two
turns only, and takes at most [4 - retries] turns. *)
Lemma request_loop_events fuel req retries wait st :
(4 <= retries + fuel)%nat -> (retries <= 3)%nat ->
exists evs,
request_loop server fuel req retries wait st
= (Ok (server (exchanges (trace st ++ evs))),
 with_trace st (trace st ++ evs ++ [EvRequest req]))
/\ (exchanges evs <= 3 - retries)%nat
/\ requests evs = repeat req (exchanges evs).
Proof.
revert retries wait st.
induction fuel as [|fuel IH]; intros retries wait st Hfuel Hret; [lia|].
destruct (decide (status_code (server (exchanges (trace st))) = 429
            /\ retries <> 3%nat)) as [[H429 Hne] | Hbreak].
- rewrite request_loop_retry by done.
destruct (IH (S retries) (next_wait wait)
        (with_trace st (trace st ++ [EvRequest req; EvSleep (inject_Z wait)])))
as (evs & Hevs & Hcount & Hreqs); [lia | lia |].
exists ([EvRequest req; EvSleep (inject_Z wait)] ++ evs).
rewrite Hevs. rewrite with_trace_trace, with_trace_twice.
split; [by rewrite <- !app_assoc|].
rewrite exchanges_app. change (exchanges [_; _]) with 1%nat.
split; [lia|]. unfold requests in *. rewrite omap_app, Hreqs. reflexivity.
- exists []. rewrite request_loop_break.
+ rewrite app_nil_r. repeat split. cbn. lia.
+ destruct (decide (retries = 3%nat)); [by right | left].
intros H; apply Hbreak; done.
Qed.

(** A call of [request] always ends, after one to four HTTP exchanges that
all carry the same request; it changes no record. *)
Theorem request_at_most_four_exchanges method url json headers st :
exists evs,
trace (request server self method url json headers st).2 = trace st ++ evs
/\ (1 <= exchanges evs <= 4)%nat
/\ requests evs
 = repeat (request_of method url json headers) (exchanges evs)
/\ heap (request server self method url json headers st).2 = heap st
/\ (request server self method url json headers st).1 <> Diverge.
Proof.
destruct (request_loop_events 4 (request_of method url json headers)
      0 30 st) as (evs & Hevs & Hcount & Hreqs); [lia | lia |].
set (req := request_of method url json headers) in *.
assert (exists r evs',
    request server self method url json headers st
    = (r, with_trace st (trace st ++ evs'))
    /\ r <> Diverge
    /\ exchanges evs' = S (exchanges evs)
    /\ requests evs' = repeat req (S (exchanges evs)))
as (r & evs' & Hrun & Hr & Hcount' & Hreqs').
{ unfold request. fold (request_of method url json headers). fold req.
unfold bind at 1. rewrite Hevs. unfold bind at 1, raise_for_status.
destruct ((400 <=? status_code (server (exchanges (trace st ++ evs))))
      && (status_code (server (exchanges (trace st ++ evs))) <? 600)).
- eexists _, (evs ++ [EvRequest req]). split; [reflexivity|].
split; [done|]. rewrite exchanges_app. change (exchanges [_]) with 1%nat.
split; [lia|]. unfold requests in *. rewrite omap_app, Hreqs.
cbn [omap list_omap]. by rewrite <- repeat_cons.
- eexists _, (evs ++ [EvRequest req;
                  EvSleep (1 # requests_per_second_limit self)]).
unfold ret at 1. unfold bind, sleep, emit, ret.
rewrite with_trace_trace, with_trace_twice. rewrite <- !app_assoc.
split; [reflexivity|]. split; [done|].
rewrite exchanges_app. change (exchanges [_; _]) with 1%nat.
split; [lia|]. unfold requests in *. rewrite omap_app, Hreqs.
cbn [omap list_omap]. by rewrite <- repeat_cons. }
exists evs'. rewrite Hrun. cbn [fst snd].
split; [done|]. split; [lia|]. split; [by rewrite Hcount'|]. done.
Qed.

Lemma request_after_429s method url json headers st k :
(k <= 3)%nat ->
(forall i, (i < k)%nat ->
 status_code (server (exchanges (trace st) + i)) = 429) ->
status_code (server (exchanges (trace st) + k)) <> 429 ->
let final := server (exchanges (trace st) + k) in
exists evs,
request server self method url json headers st
= (if is_error_status final then Raise (HTTPError final) else Ok final,
 with_trace st (trace st ++ evs))
/\ exchanges evs = S k
/\ sleeps evs
 = take k backoff_delays
 ++ (if is_error_status final then []
     else [1 # requests_per_second_limit self]).
Proof.
intros Hk H429 Hfinal final. subst final.
set (req := request_of method url json headers).
assert (forall fuel retries wait s,
    status_code (server (exchanges (trace s))) <> 429 ->
    request_loop server (S fuel) req retries wait s
    = (Ok (server (exchanges (trace s))),
       with_trace s (trace s ++ [EvRequest req]))) as Hbreak.
{ intros. apply request_loop_break. by left. }
assert (forall s final evs,
    bind (fun s0 : State => (Ok final, with_trace s (trace s ++ evs)))
      (fun response =>
         let* _ := raise_for_status response in
         let* _ := sleep (1 # requests_per_second_limit self) in
         ret response) s
    = (if is_error_status final then Raise (HTTPError final)
       else Ok final,
       with_trace s
         (trace s ++ evs
          ++ (if is_error_status final then []
              else [EvSleep (1 # requests_per_second_limit self)]))))
as Htail.
{ intros s final evs. unfold bind at 1, raise_for_status.
fold (is_error_status final). destruct (is_error_status final).
- unfold bind, raise. by rewrite app_nil_r.
- unfold bind, ret, sleep, emit.
rewrite with_trace_trace, with_trace_twice. by rewrite <- app_assoc. }
unfold request. fold req.
destruct k as [|[|[|[|k]]]]; [| | | |lia].
- rewrite Nat.add_0_r in *.
eexists. split; [|split].
+ etransitivity; [|apply (Htail st _ [EvRequest req])].
unfold bind at 1 3. by rewrite Hbreak.
+ by destruct (is_error_status _).
+ by destruct (is_error_status _).
- pose proof (H429 0%nat ltac:(lia)) as H0. rewrite Nat.add_0_r in H0.
eexists. split; [|split].
+ etransitivity;
[|apply (Htail st _ [EvRequest req; EvSleep (30 # 1); EvRequest req])].
unfold bind at 1 3. rewrite request_loop_retry by done.
rewrite Hbreak; rewrite with_trace_trace, (exchanges_app _ [_; _]);
[|exact Hfinal].
rewrite with_trace_twice. by rewrite <- !app_assoc.
+ by destruct (is_error_status _).
+ by destruct (is_error_status _).
- pose proof (H429 0%nat ltac:(lia)) as H0. rewrite Nat.add_0_r in H0.
pose proof (H429 1%nat ltac:(lia)) as H1.
eexists. split; [|split].
+ etransitivity;
[|apply (Htail st _ [EvRequest req; EvSleep (30 # 1);
                     EvRequest req; EvSleep (45 # 1); EvRequest req])].
unfold bind at 1 3. rewrite request_loop_retry by done.
rewrite request_loop_retry;
rewrite ?with_trace_trace, ?(exchanges_app _ [_; _]); [|exact H1|done].
rewrite Hbreak;
rewrite ?with_trace_trace, ?(exchanges_app _ [_; _]),
  <- ?Nat.add_assoc; [|exact Hfinal].
rewrite !with_trace_twice. by rewrite <- !app_assoc.
+ by destruct (is_error_status _).
+ by destruct (is_error_status _).
- pose proof (H429 0%nat ltac:(lia)) as H0. rewrite Nat.add_0_r in H0.
pose proof (H429 1%nat ltac:(lia)) as H1.
pose proof (H429 2%nat ltac:(lia)) as H2.
eexists. split; [|split].
+ etransitivity;
[|apply (Htail st _ [EvRequest req; EvSleep (30 # 1);
                     EvRequest req; EvSleep (45 # 1);
                     EvRequest req; EvSleep (68 # 1); EvRequest req])].
unfold bind at 1 3. rewrite request_loop_retry by done.
rewrite request_loop_retry;
rewrite ?with_trace_trace, ?(exchanges_app _ [_; _]); [|exact H1|done].
rewrite request_loop_retry;
rewrite ?with_trace_trace, ?(exchanges_app _ [_; _]),
  <- ?Nat.add_assoc; [|exact H2|done].
rewrite request_loop_break;
rewrite ?with_trace_trace, ?(exchanges_app _ [_; _]),
  <- ?Nat.add_assoc; [|by right].
rewrite !with_trace_twice. by rewrite <- !app_assoc.
+ by destruct (is_error_status _).
+ by destruct (is_error_status _).
Qed.

(** After [k] 429 responses, [k] at most three, a response that is no 429
ends the call: [request] has slept the first [k] backoff delays, and
returns the response after the throttle sleep, or raises [HTTPError]
for it without that sleep when it is an error. *)
Theorem request_retries_then_answers method url json headers st k :
(k <= 3)%nat ->
(forall i, (i < k)%nat ->
 status_code (server (exchanges (trace st) + i)) = 429) ->
status_code (server (exchanges (trace st) + k)) <> 429 ->
let final := server (exchanges (trace st) + k) in
exists evs,
request server self method url json headers st
= (if is_error_status final then Raise (HTTPError final) else Ok final,
 with_trace st (trace st ++ evs))
/\ exchanges evs = S k
/\ sleeps evs
 = take k backoff_delays
 ++ (if is_error_status final then []
     else [1 # requests_per_second_limit self]).
Proof. exact (request_after_429s method url json headers st k). Qed.

End RequestBounds.

Lemma request_retries_then_answers_witness :
  (2 <= 3)%nat
  /\ (forall i, (i < 2)%nat ->
        status_code (Examples.twice_limited
                       (exchanges (trace Examples.init) + i)) = 429)
  /\ status_code (Examples.twice_limited
                    (exchanges (trace Examples.init) + 2)) <> 429
  /\ exists evs,
       request Examples.twice_limited Examples.client "get" "u" None ∅
         Examples.init
       = (Ok (Examples.accepting 2),
          with_trace Examples.init (trace Examples.init ++ evs))
       /\ sleeps evs = [30 # 1; 45 # 1; 1 # 5]%Q.
Proof.
  assert (forall i, (i < 2)%nat ->
            status_code (Examples.twice_limited
                           (exchanges (trace Examples.init) + i)) = 429) as H.
  { intros [|[|i]] Hi; [reflexivity | reflexivity | lia]. }
  split; [lia|]. split; [exact H|]. split; [discriminate|].
  destruct (request_retries_then_answers Examples.twice_limited
              Examples.client "get" "u" None ∅ Examples.init 2
              ltac:(lia) H ltac:(discriminate)) as (evs & Hrun & _ & Hsleeps).
  exists evs. split; [exact Hrun | exact Hsleeps].
Defined.

(** ** [iter_chunks] and [read] *)

Section ReaderEdges.

Variable server : nat -> Response.
Variable quote : string -> string.
Variable format_json : json -> string.
Variable self : AirtableClient.

Implicit Types (st : State).

(** What a step of [iter_chunks] makes of the [HTTPError] of its request. *)
Lemma iter_chunks_next_raises url offset st r st' :
request server self "get" (page_url format_json url offset) None ∅ st
= (Raise (HTTPError r), st') ->
iter_chunks_next server format_json self url offset st
= (match is_iterator_error r with
 | Ok true => Raise AirtableIteratorError
 | Ok false => Raise (HTTPError r)
 | Raise e => Raise e
 | Diverge => Diverge
 end, st').
Proof.
intros Hreq. unfold iter_chunks_next. fold (page_url format_json url offset).
unfold bind at 1, try_except. rewrite Hreq. unfold bind at 1, lift.
by destruct (is_iterator_error r) as [[|]| |].
Qed.

(** The error response that ends the request of a step of [iter_chunks] -
an error other than a 429, after [k] responses (at most three) that
were 429 - is classified when the [k + 1] exchanges are made and the
first [k] delays slept, without a throttle sleep: if it is no 422, or
its body is no JSON, the step raises the [HTTPError] of that response;
if it is a 422 whose body is an object, the step raises
[AirtableIteratorError] when the [error] member is a string that
contains the iterator code, and the [HTTPError] when it is a string
that does not, or is absent. *)
Theorem iter_chunks_classifies_errors url offset st k :
(k <= 3)%nat ->
(forall i, (i < k)%nat ->
 status_code (server (exchanges (trace st) + i)) = 429) ->
let final := server (exchanges (trace st) + k) in
status_code final <> 429 ->
is_error_status final = true ->
exists evs,
exchanges evs = S k
/\ sleeps evs = take k backoff_delays
/\ let st' := with_trace st (trace st ++ evs) in
   (status_code final <> 422 \/ body final = None ->
    iter_chunks_next server format_json self url offset st
    = (Raise (HTTPError final), st'))
   /\ (forall members message,
         status_code final = 422 ->
         body final = Some (JObj members) ->
         obj_get "error" members = Some (JStr message) ->
         iter_chunks_next server format_json self url offset st
         = (if PyStr.contains message "LIST_RECORDS_ITERATOR_NOT_AVAILABLE"
            then Raise AirtableIteratorError
            else Raise (HTTPError final), st'))
   /\ (forall members,
         status_code final = 422 ->
         body final = Some (JObj members) ->
         obj_get "error" members = None ->
         iter_chunks_next server format_json self url offset st
         = (Raise (HTTPError final), st')).
Proof.
intros Hk H429 final Hfinal Herr.
destruct (request_after_429s server self "get"
          (page_url format_json url offset) None ∅ st k Hk H429 Hfinal)
as (evs & Hreq & Hex & Hsl).
fold final in Hreq, Hsl. rewrite Herr in Hreq, Hsl.
rewrite app_nil_r in Hsl.
exists evs. split; [exact Hex|]. split; [exact Hsl|]. cbn zeta.
pose proof (iter_chunks_next_raises url offset st _ _ Hreq) as Hstep.
split; [|split].
- intros Hcase. rewrite Hstep. unfold is_iterator_error, response_json.
destruct Hcase as [Hne | Hnone].
+ by destruct (Z.eqb_spec (status_code final) 422).
+ rewrite Hnone. by destruct (_ =? 422).
- intros members message H422 Hbody Hmsg. rewrite Hstep.
unfold is_iterator_error, response_json, data_get.
rewrite H422, Hbody, Hmsg. cbn.
by destruct (PyStr.contains message _).
- intros members H422 Hbody Hnone. rewrite Hstep.
unfold is_iterator_error, response_json, data_get.
by rewrite H422, Hbody, Hnone.
Qed.

(** An exception of a scan other than [AirtableIteratorError] ends [read]
at once: it is raised after that one scan, without a restart. *)
Theorem read_propagates_other_errors fuel table st e st' :
scan server quote format_json self fuel table st = (Raise e, st') ->
e <> AirtableIteratorError ->
read server quote format_json self fuel table st = (Raise e, st').
Proof.
intros Hscan He. unfold read. cbn [read_loop]. unfold try_except.
rewrite Hscan. by destruct e.
Qed.

Lemma iter_chunks_next_success url offset st members page :
is_success (server (exchanges (trace st))) = true ->
body (server (exchanges (trace st))) = Some (JObj members) ->
obj_get "records" members = Some (JArr page) ->
iter_chunks_next server format_json self url offset st
= (Ok (JArr page, default JNull (obj_get "offset" members)),
 with_trace st
 (trace st
++ [EvRequest (request_of "get" (page_url format_json url offset)
                 None ∅);
    EvSleep (1 # requests_per_second_limit self)])).
Proof.
intros Hok Hbody Hrec. unfold iter_chunks_next.
fold (page_url format_json url offset).
unfold bind at 1, try_except. rewrite request_success by done.
unfold bind at 1, lift, response_json. rewrite Hbody.
unfold bind at 1, data_get. rewrite Hrec. cbn [default].
unfold bind, ret. reflexivity.
Qed.

Lemma drain_follows_cursors n pages :
serves_cursors server n pages ->
forall fuel url offset acc st,
exchanges (trace st) = n -> (length pages <= fuel)%nat ->
exists evs,
drain server format_json self fuel url offset acc st
= (Ok (acc ++ concat (fst <$> pages)), with_trace st (trace st ++ evs))
/\ requests evs
 = (fun o => request_of "get" (page_url format_json url o) None ∅)
     <$> (offset :: take (length pages - 1) (snd <$> pages)).
Proof.
induction 1 as [n members page Hok Hbody Hrec Hoff
         | n members page off pages Hok Hbody Hrec Hoff Hnn Hrest IH];
intros fuel url offset acc st Hn Hfuel; subst n;
(destruct fuel as [|fuel]; [cbn in Hfuel; lia|]);
cbn [drain]; unfold bind at 1;
rewrite (iter_chunks_next_success url offset st members page) by done;
cbn [fst snd]; unfold bind at 1, lift, json_iter.
- rewrite Hoff. eexists. split; [unfold ret|].
+ cbn [fmap list_fmap concat fst]. by rewrite app_nil_r.
+ reflexivity.
- rewrite Hoff.
destruct (IH fuel url off (acc ++ page)
        (with_trace st
           (trace st
            ++ [EvRequest (request_of "get"
                             (page_url format_json url offset) None ∅);
                EvSleep (1 # requests_per_second_limit self)])))
as (evs & Hdrain & Hreqs).
{ rewrite with_trace_trace, (exchanges_app _ [_; _]). cbn. lia. }
{ cbn in Hfuel. lia. }
eexists. split.
+ destruct off; try done; rewrite Hdrain; rewrite with_trace_trace,
with_trace_twice; cbn [fmap list_fmap concat fst];
rewrite <- !app_assoc; reflexivity.
+ unfold requests in *. rewrite omap_app, Hreqs. cbn [omap list_omap app].
destruct pages as [|p pages]; [inversion Hrest|].
simpl. by rewrite ?Nat.sub_0_r.
Qed.

(** The requests of a scan follow the cursor: the first asks for the table
URL, each next one for the URL built from the offset of the page
before (the table URL again when that offset is falsy, such as an
empty string); the scan ends at the first page without an offset and
returns the records of all pages in order. *)
Theorem scan_follows_cursors fuel table pages st :
serves_cursors server (exchanges (trace st)) pages ->
(length pages <= fuel)%nat ->
exists evs,
scan server quote format_json self fuel table st
= (Ok (concat (fst <$> pages)), with_trace st (trace st ++ evs))
/\ requests evs
 = (fun o => request_of "get"
             (page_url format_json (table_url quote self table) o)
             None ∅)
   <$> (JNull :: take (length pages - 1) (snd <$> pages))
/\ page_url format_json (table_url quote self table) JNull
 = table_url quote self table
/\ page_url format_json (table_url quote self table) (JStr "")
 = table_url quote self table.
Proof.
intros Hpages Hfuel. unfold scan.
destruct (drain_follows_cursors _ _ Hpages fuel
      (table_url quote self table) JNull [] st eq_refl Hfuel)
as (evs & Hdrain & Hreqs).
exists evs. split; [exact Hdrain|]. split; [exact Hreqs|]. done.
Qed.

End ReaderEdges.

Lemma iter_chunks_classifies_errors_witness :
  exists evs,
    exchanges evs = 2%nat /\ sleeps evs = [30 # 1]
    /\ iter_chunks_next Examples.limited_then_expired Examples.format_unused
         Examples.client "https://api.airtable.com/v0/appBase/T" JNull
         Examples.init
       = (Raise AirtableIteratorError,
          with_trace Examples.init (trace Examples.init ++ evs)).
Proof.
  destruct (iter_chunks_classifies_errors Examples.limited_then_expired
              Examples.format_unused Examples.client
              "https://api.airtable.com/v0/appBase/T" JNull Examples.init 1)
    as (evs & Hex & Hsl & _ & Hcode & _).
  - lia.
  - intros i Hi. by replace i with 0%nat by lia.
  - discriminate.
  - reflexivity.
  - exists evs. split; [exact Hex|]. split; [exact Hsl|].
    exact (Hcode _ _ eq_refl eq_refl eq_refl).
Defined.

Lemma read_propagates_other_errors_witness :
  Examples.unavailable
  = {| status_code := 503; body := None |}
  /\ (read Examples.always_unavailable Examples.quote_unreserved
        Examples.format_unused Examples.client 5 "T" Examples.init).1
     = Raise (HTTPError Examples.unavailable)
  /\ exchanges
       (trace (read Examples.always_unavailable Examples.quote_unreserved
                 Examples.format_unused Examples.client 5 "T"
                 Examples.init).2) = 1%nat.
Proof.
  split; [reflexivity|].
  assert (scan Examples.always_unavailable Examples.quote_unreserved
            Examples.format_unused Examples.client 5 "T" Examples.init
          = (Raise (HTTPError Examples.unavailable),
             (scan Examples.always_unavailable Examples.quote_unreserved
                Examples.format_unused Examples.client 5 "T"
                Examples.init).2)) as Hscan.
  { rewrite (surjective_pairing (scan _ _ _ _ _ _ _)) at 1.
    f_equal; by vm_compute. }
  rewrite (read_propagates_other_errors Examples.always_unavailable
             Examples.quote_unreserved Examples.format_unused Examples.client
             5 "T" Examples.init _ _ Hscan ltac:(discriminate)).
  split; [reflexivity | by vm_compute].
Defined.

Lemma scan_follows_cursors_witness :
  serves_cursors Examples.odd_cursors (exchanges (trace Examples.init))
    [([Examples.rec_ "a"], JStr "itrA"); ([Examples.rec_ "b"], JStr "");
     ([Examples.rec_ "c"], JNull)]
  /\ exists evs,
       scan Examples.odd_cursors Examples.quote_unreserved
         Examples.format_unused Examples.client 3 "T" Examples.init
       = (Ok [Examples.rec_ "a"; Examples.rec_ "b"; Examples.rec_ "c"],
          with_trace Examples.init (trace Examples.init ++ evs))
       /\ req_url <$> requests evs
          = ["https://api.airtable.com/v0/appBase/T";
             "https://api.airtable.com/v0/appBase/T?offset=itrA";
             "https://api.airtable.com/v0/appBase/T"]%string.
Proof.
  assert (serves_cursors Examples.odd_cursors (exchanges (trace Examples.init))
            [([Examples.rec_ "a"], JStr "itrA"); ([Examples.rec_ "b"], JStr "");
             ([Examples.rec_ "c"], JNull)]) as Hserves.
  { eapply cursors_more; [reflexivity | reflexivity | reflexivity
                         | reflexivity | discriminate |].
    eapply cursors_more; [reflexivity | reflexivity | reflexivity
                         | reflexivity | discriminate |].
    eapply cursors_last; reflexivity. }
  split; [exact Hserves|].
  destruct (scan_follows_cursors Examples.odd_cursors Examples.quote_unreserved
              Examples.format_unused Examples.client 3 "T" _ Examples.init
              Hserves ltac:(cbn; lia)) as (evs & Hscan & Hreqs & _).
  exists evs. split; [exact Hscan|]. rewrite Hreqs. reflexivity.
Defined.

(** ** [chunked] and [AirtableClient.write] *)

(** For a positive size [chunked] cuts the list into [ceil(len / n)]
    chunks that, put end to end, are the list; no chunk is empty or longer
    than [n], and every chunk but the last has exactly [n] items. *)
Theorem chunked_partitions {St A} (l : list A) (n : Z) (st : St) :
  0 < n ->
  exists chunks,
    chunked l n st = (Ok chunks, st)
    /\ concat chunks = l
    /\ length chunks = ceil_div (length l) (Z.to_nat n)
    /\ (forall i chunk,
          chunks !! i = Some chunk ->
          (0 < length chunk <= Z.to_nat n)%nat
          /\ ((S i < length chunks)%nat -> length chunk = Z.to_nat n)).
Proof.
  intros Hn. exists (chunks_of l (Z.to_nat n)).
  split; [by apply chunked_positive|].
  split; [apply chunks_of_concat; lia|].
  split; [apply chunks_of_length|].
  intros i chunk Hi. apply chunks_of_sizes; [lia | done].
Qed.

Lemma chunked_partitions_witness :
  0 < 10
  /\ (chunked (seq 0 25) 10 tt).1
     = Ok [seq 0 10; seq 10 10; seq 20 5]
  /\ exists chunks,
       chunked (seq 0 25) 10 tt = (Ok chunks, tt) /\ concat chunks = seq 0 25.
Proof.
  split; [done|]. split; [reflexivity|].
  destruct (chunked_partitions (seq 0 25) 10 tt eq_refl)
    as (chunks & Hrun & Hcat & _).
  exists chunks. split; [exact Hrun | exact Hcat].
Defined.

Section WriterEdges.

Variable server : nat -> Response.
Variable quote : string -> string.
Variable self : AirtableClient.

Implicit Types (st : State) (chunk : list loc) (chunks : list (list loc)).

(** With a chunk size of zero [write] raises [ValueError] - the step of
[range] - before it sends or touches anything, in both modes and even
for no records. *)
Theorem write_zero_chunk_size records table update_ st :
write_chunk_size self = 0 ->
write server quote self records table update_ st = (Raise ValueError, st).
Proof.
intros Hsize. unfold write. destruct update_; unfold bind, chunked;
by rewrite Hsize.
Qed.

(** With a negative chunk size, or with no records and a chunk size other
than zero, [write] returns without a request; in update mode the
records then keep their ids. *)
Theorem write_nothing_to_send records table update_ st :
write_chunk_size self < 0 \/ (records = [] /\ write_chunk_size self <> 0) ->
write server quote self records table update_ st = (Ok tt, st).
Proof.
intros Hcase. unfold write.
assert (chunked records (write_chunk_size self) st = (Ok [], st)) as Hchunks.
{ unfold chunked. destruct Hcase as [Hneg | [-> Hnz]].
- destruct (Z.eqb_spec (write_chunk_size self) 0); [lia|].
destruct (Z.ltb_spec (write_chunk_size self) 0); [done | lia].
- destruct (Z.eqb_spec (write_chunk_size self) 0); [done|].
destruct (Z.ltb_spec (write_chunk_size self) 0); [done|].
unfold ret, range_starts. cbn [length Nat.add].
rewrite Nat.div_small by lia. reflexivity. }
destruct update_; unfold bind; by rewrite Hchunks.
Qed.

Lemma exchanges_of_turns (f : list loc -> Request) chunks :
exchanges (concat ((fun c => exchange_events self (f c)) <$> chunks))
= length chunks.
Proof.
induction chunks as [|c chunks IH]; [done|].
cbn [fmap list_fmap concat length]. rewrite exchanges_app, IH.
reflexivity.
Qed.

Lemma for_each_app {A} (xs ys : list A) (body : A -> M State unit) st :
for_each (xs ++ ys) body st
= (let* _ := for_each xs body in for_each ys body) st.
Proof.
revert st. induction xs as [|x xs IH]; intros st; [done|].
cbn [app for_each]. unfold bind.
destruct (body x st) as [[[]| |] st1]; [|done|done].
specialize (IH st1). unfold bind in IH. exact IH.
Qed.

(** An error response that is no 429 makes [request] raise at once. *)
Lemma request_error method url json headers st :
status_code (server (exchanges (trace st))) <> 429 ->
is_error_status (server (exchanges (trace st))) = true ->
request server self method url json headers st
= (Raise (HTTPError (server (exchanges (trace st)))),
 with_trace st (trace st ++ [EvRequest (request_of method url json headers)])).
Proof.
intros H429 Herr. unfold request. fold (request_of method url json headers).
unfold bind at 1. rewrite request_loop_break by by left.
unfold bind at 1, raise_for_status.
fold (is_error_status (server (exchanges (trace st)))). by rewrite Herr.
Qed.

(** A failed request ends [write]: when the first [j] requests are
accepted and the next is answered by an error, [write] in append mode
raises the [HTTPError] of that answer, having sent the first [j + 1]
chunks and none after. *)
Theorem write_append_aborts_on_error records table st j :
0 < write_chunk_size self ->
let size := Z.to_nat (write_chunk_size self) in
(j < ceil_div (length records) size)%nat ->
(forall k, (k < j)%nat ->
 is_success (server (exchanges (trace st) + k)) = true) ->
status_code (server (exchanges (trace st) + j)) <> 429 ->
is_error_status (server (exchanges (trace st) + j)) = true ->
exists evs,
write server quote self records table false st
= (Raise (HTTPError (server (exchanges (trace st) + j))),
 with_trace st (trace st ++ evs))
/\ requests evs
 = (fun chunk =>
    request_of "post" (table_url quote self table)
      (Some (append_body (heap st) chunk)) ∅)
   <$> take (S j) (chunks_of records size).
Proof.
intros Hsize size Hj Hok H429 Herr.
set (url := table_url quote self table).
pose proof (chunks_of_length records size) as Hlen.
destruct (chunks_of records size !! j) as [c|] eqn:Hc;
[|apply lookup_ge_None in Hc; lia].
pose proof (take_drop_middle _ _ _ Hc) as Hsplit.
assert (length (take j (chunks_of records size)) = j) as Htake
by (rewrite length_take; lia).
eexists. split.
- unfold write. cbn iota. unfold bind at 1.
rewrite chunked_positive by done. fold size url.
rewrite <- Hsplit. rewrite for_each_app. unfold bind at 1.
rewrite for_each_append by (intros k Hk; apply Hok; lia).
cbn [for_each]. unfold bind at 1. unfold bind at 1.
unfold build_append_payload at 1, ret at 1. unfold bind at 1.
unfold serialize at 1. cbn [po_records po_typecast].
rewrite <- list_fmap_compose. unfold bind at 1.
rewrite request_error.
+ rewrite with_trace_trace, with_trace_twice, with_trace_heap.
rewrite exchanges_app, exchanges_of_turns, Htake.
rewrite <- app_assoc. reflexivity.
+ rewrite with_trace_trace, exchanges_app.
rewrite exchanges_of_turns. by rewrite Htake.
+ rewrite with_trace_trace, exchanges_app.
rewrite exchanges_of_turns. by rewrite Htake.
- unfold requests. rewrite omap_app.
change (omap _ ?l) with (requests l).
rewrite (requests_exchange_events self
       (fun c => request_of "post" url (Some (append_body (heap st) c)) ∅)).
rewrite (take_S_r _ _ _ Hc), fmap_app. reflexivity.
Qed.

(** Whatever the server answers, [write] in append mode changes no record:
the heap after the call is the heap before it. *)
Theorem write_append_keeps_records records table st :
heap (write server quote self records table false st).2 = heap st.
Proof.
unfold write. cbn iota. unfold bind at 1, chunked.
destruct (write_chunk_size self =? 0); [done|].
destruct (write_chunk_size self <? 0); [done|]. unfold ret at 1.
generalize ((fun i => slice records i (i + Z.to_nat (write_chunk_size self)))
        <$> range_starts (length records)
              (Z.to_nat (write_chunk_size self))).
intros chunks. revert st. induction chunks as [|c chunks IH]; intros st;
[done|].
cbn [for_each]. unfold bind at 1. unfold bind at 1.
unfold build_append_payload at 1, ret at 1. unfold bind at 1.
unfold serialize at 1. unfold bind at 1.
match goal with
| |- context [request server self ?m ?u ?j ?h st] =>
pose proof (request_heap server self m u j h st) as Hreq;
destruct (request server self m u j h st) as [[r| |] st1]
end; cbn [snd] in Hreq; [|done|done].
unfold ret at 1. rewrite IH. exact Hreq.
Qed.

(** When a record of the only chunk has no [id], [write] in update mode
raises [KeyError] before any request; the records ahead of it in the
list have lost their ids all the same. *)
Lemma update_envelopes_missing before missing after st :
NoDup before -> carry_ids before st -> missing ∉ before ->
heap_get missing (heap st) !! "id"%string = None ->
exists st',
update_envelopes (before ++ missing :: after) st
= (Raise (KeyError "id"), st')
/\ trace st' = trace st
/\ popped before st st'.
Proof.
revert st. induction before as [|l before IH]; intros st Hnd Hids Hnot Hnone.
- exists st. cbn [app update_envelopes]. unfold bind, dict_pop.
rewrite Hnone. split; [done|]. split; [done|].
intros l. by rewrite bool_decide_eq_false_2 by apply not_elem_of_nil.
- apply NoDup_cons in Hnd as [Hl Hnd].
apply not_elem_of_cons in Hnot as [Hne Hnot].
destruct (Hids l) as [v Hv]; [apply list_elem_of_here|].
set (st1 := {| heap := <[l := delete "id"%string (heap_get l (heap st))]>
                     (heap st);
           trace := trace st |}).
destruct (IH st1 Hnd) as (st' & Hrun & Htrace & Hpop).
{ intros l' Hl'. cbn [heap st1]. rewrite heap_get_insert_ne.
- apply Hids. by apply list_elem_of_further.
- by intros ->. }
{ done. }
{ cbn [heap st1]. by rewrite heap_get_insert_ne. }
exists st'. split; [|split; [done|]].
+ cbn [app update_envelopes]. unfold bind at 1, dict_pop. rewrite Hv.
fold st1. unfold bind at 1. by rewrite Hrun.
+ assert (popped [l] st st1) as Hpop1.
{ intros l'. cbn [heap st1]. destruct (decide (l' = l)) as [->|Hne'].
- rewrite bool_decide_eq_true_2 by apply list_elem_of_here.
  apply heap_get_insert.
- rewrite bool_decide_eq_false_2
    by (by intros [?|?%elem_of_nil]%elem_of_cons).
  by apply heap_get_insert_ne. }
apply (popped_app [l] before st st1 st' Hpop1 Hpop).
Qed.

Theorem write_update_missing_id before missing after table st :
(Z.of_nat (length (before ++ missing :: after)) <= write_chunk_size self) ->
NoDup before -> carry_ids before st -> missing ∉ before ->
heap_get missing (heap st) !! "id"%string = None ->
exists st',
write server quote self (before ++ missing :: after) table true st
= (Raise (KeyError "id"), st')
/\ trace st' = trace st
/\ popped before st st'.
Proof.
intros Hsize Hnd Hids Hnot Hnone.
set (records := before ++ missing :: after) in *.
assert (0 < length records)%nat as Hlen
by (unfold records; rewrite length_app; cbn; lia).
destruct (update_envelopes_missing before missing after st Hnd Hids Hnot Hnone)
as (st' & Hrun & Htrace & Hpop). fold records in Hrun.
exists st'. split; [|done].
unfold write. cbn iota. unfold bind at 1.
rewrite chunked_positive by lia.
assert (chunks_of records (Z.to_nat (write_chunk_size self)) = [records])
as ->.
{ unfold chunks_of, range_starts.
replace ((length records + (Z.to_nat (write_chunk_size self) - 1))
     `div` Z.to_nat (write_chunk_size self))%nat with 1%nat.
- cbn [seq fmap list_fmap]. unfold slice. cbn [Nat.mul drop].
rewrite Nat.add_0_l, Nat.sub_0_r, drop_0. by rewrite take_ge by lia.
- apply Nat.div_unique with (r := (length records - 1)%nat); lia. }
cbn [for_each]. unfold bind at 1. unfold bind at 1.
unfold build_update_payload, bind at 1. by rewrite Hrun.
Qed.

End WriterEdges.

Lemma write_zero_chunk_size_witness :
  write_chunk_size Examples.client0 = 0
  /\ write Examples.accepting Examples.quote_unreserved Examples.client0
       [1; 2; 3]%positive "T" true Examples.state3
     = (Raise ValueError, Examples.state3).
Proof.
  split; [reflexivity|].
  by apply (write_zero_chunk_size Examples.accepting Examples.quote_unreserved
              Examples.client0 [1; 2; 3]%positive "T" true Examples.state3).
Defined.

Lemma write_nothing_to_send_witness :
  ([] = @nil loc /\ write_chunk_size Examples.client <> 0)
  /\ write Examples.accepting Examples.quote_unreserved Examples.client
       [] "T" true Examples.state3
     = (Ok tt, Examples.state3).
Proof.
  assert ([] = @nil loc /\ write_chunk_size Examples.client <> 0) as H
    by (split; [reflexivity | discriminate]).
  split; [exact H|].
  apply (write_nothing_to_send Examples.accepting Examples.quote_unreserved
           Examples.client [] "T" true Examples.state3). by right.
Defined.

Lemma write_append_aborts_on_error_witness :
  0 < write_chunk_size Examples.client
  /\ (exists evs,
        write Examples.fails_second Examples.quote_unreserved Examples.client
          Examples.refs25 "T" false Examples.state25
        = (Raise (HTTPError Examples.unavailable),
           with_trace Examples.state25 (trace Examples.state25 ++ evs))
        /\ length (requests evs) = 2%nat).
Proof.
  split; [done|].
  assert (forall k, (k < 1)%nat ->
            is_success (Examples.fails_second
                          (exchanges (trace Examples.state25) + k)) = true)
    as Hok by (intros [|k] Hk; [reflexivity | lia]).
  destruct (write_append_aborts_on_error Examples.fails_second
              Examples.quote_unreserved Examples.client Examples.refs25 "T"
              Examples.state25 1 eq_refl ltac:(vm_compute; lia) Hok
              ltac:(discriminate) eq_refl) as (evs & Hrun & Hreqs).
  exists evs. split; [exact Hrun|]. rewrite Hreqs. reflexivity.
Defined.

Lemma write_update_missing_id_witness :
  Z.of_nat (length ([1%positive] ++ 2%positive :: [3%positive]))
  <= write_chunk_size Examples.client
  /\ (exists st',
        write Examples.accepting Examples.quote_unreserved Examples.client
          ([1%positive] ++ 2%positive :: [3%positive]) "T" true
          Examples.state_missing
        = (Raise (KeyError "id"), st')
        /\ trace st' = []
        /\ heap_get 1%positive (heap st') = {[ "Name"%string := PStr "a" ]}
        /\ heap_get 3%positive (heap st')
           = {[ "id"%string := PStr "recC" ]}).
Proof.
  split; [by vm_compute|].
  assert (NoDup [1%positive]) as Hnd
    by (apply (bool_decide_unpack _); by vm_compute).
  assert (carry_ids [1%positive] Examples.state_missing) as Hids.
  { intros l Hl%list_elem_of_In. destruct Hl as [<-|[]]. by eexists. }
  assert (2%positive ∉ [1%positive]) as Hnot
    by (apply (bool_decide_unpack _); by vm_compute).
  destruct (write_update_missing_id Examples.accepting
              Examples.quote_unreserved Examples.client [1%positive]
              2%positive [3%positive] "T" Examples.state_missing
              ltac:(by vm_compute) Hnd Hids Hnot eq_refl)
    as (st' & Hrun & Htrace & Hpop).
  exists st'. split; [exact Hrun|]. split; [exact Htrace|].
  rewrite !Hpop. split; by vm_compute.
Defined.

(** ** [parse_table_name] *)

Lemma split_not_nil (sep : ascii) (s : string) : PyStr.split sep s <> [].
Proof.
  destruct s as [|c s]; [done|]. cbn [PyStr.split].
  destruct (Ascii.eqb c sep); [done|]. by destruct (PyStr.split sep s).
Qed.

Lemma split_join (sep : ascii) (s : string) : join sep (PyStr.split sep s) = s.
Proof.
  induction s as [|c s IH]; [done|]. cbn [PyStr.split].
  pose proof (split_not_nil sep s) as Hnil.
  destruct (PyStr.split sep s) as [|w ws]; [done|].
  destruct (Ascii.eqb_spec c sep) as [->|Hne].
  - change (join sep (EmptyString :: w :: ws))
      with (String sep (join sep (w :: ws))). by rewrite IH.
  - destruct ws as [|w' ws]; cbn [join] in *; by rewrite <- IH.
Qed.

Lemma split_length (sep : ascii) (s : string) :
  length (PyStr.split sep s) = S (count_char sep s).
Proof.
  induction s as [|c s IH]; [done|]. cbn [PyStr.split count_char].
  destruct (Ascii.eqb c sep).
  - cbn. by rewrite IH.
  - destruct (PyStr.split sep s); cbn in *; lia.
Qed.

Lemma split_parts_free (sep : ascii) (s : string) :
  Forall (fun part => count_char sep part = 0%nat) (PyStr.split sep s).
Proof.
  induction s as [|c s IH]; [by repeat constructor|]. cbn [PyStr.split].
  destruct (Ascii.eqb c sep) eqn:E.
  - by constructor.
  - destruct (PyStr.split sep s) as [|w ws]; [by repeat constructor; cbn; rewrite E|].
    inversion IH as [|? ? Hw Hws]; subst. constructor; [|done].
    cbn. by rewrite E, Hw.
Qed.

(** [parse_table_name] accepts exactly the names with one or two dots and
    cuts them at the dots: the parts have no dot and, joined by dots, give
    the name back; any other name raises [ValueError]. *)
Theorem parse_table_name_cuts_at_dots (name : string) :
  match parse_table_name name with
  | Ok (Some database, schema, table) =>
      count_char "." name = 2%nat
      /\ name = database +:+ "." +:+ schema +:+ "." +:+ table
      /\ count_char "." database = 0%nat
      /\ count_char "." schema = 0%nat /\ count_char "." table = 0%nat
  | Ok (None, schema, table) =>
      count_char "." name = 1%nat
      /\ name = schema +:+ "." +:+ table
      /\ count_char "." schema = 0%nat /\ count_char "." table = 0%nat
  | Raise e =>
      e = ValueError
      /\ count_char "." name <> 1%nat /\ count_char "." name <> 2%nat
  | Diverge => False
  end.
Proof.
  unfold parse_table_name.
  pose proof (split_join "." name) as Hjoin.
  pose proof (split_length "." name) as Hlen.
  pose proof (split_parts_free "." name) as Hfree.
  destruct (PyStr.split "." name) as [|a [|b [|c [|d rest]]]];
    cbn [length] in Hlen.
  - lia.
  - split; [done|]. lia.
  - apply Forall_cons in Hfree as [Ha Hfree].
    apply Forall_cons in Hfree as [Hb _].
    split; [lia|]. split; [by rewrite <- Hjoin|]. done.
  - apply Forall_cons in Hfree as [Ha Hfree].
    apply Forall_cons in Hfree as [Hb Hfree].
    apply Forall_cons in Hfree as [Hc _].
    split; [lia|]. split; [by rewrite <- Hjoin|]. done.
  - split; [done|]. lia.
Qed.

(** ** [process_record] *)

Lemma obj_get_dict_set k k' v (d : list (string * json)) :
  obj_get k (dict_set k' v d) = if String.eqb k' k then Some v else obj_get k d.
Proof.
  induction d as [|[k1 v1] d IH]; cbn [dict_set obj_get].
  - by destruct (String.eqb k' k).
  - destruct (String.eqb_spec k1 k') as [->|Hne]; cbn [obj_get].
    + by destruct (String.eqb k' k).
    + rewrite IH. destruct (String.eqb_spec k1 k) as [->|Hne'];
        [|done]. by destruct (String.eqb_spec k' k) as [->|].
Qed.

Lemma obj_get_dict_update k (d other : list (string * json)) :
  NoDup (fst <$> other) ->
  obj_get k (dict_update d other)
  = match obj_get k other with
    | Some v => Some v
    | None => obj_get k d
    end.
Proof.
  unfold dict_update. revert d.
  induction other as [|[k1 v1] other IH]; intros d Hnd; [done|].
  cbn [fmap list_fmap fst] in Hnd. apply NoDup_cons in Hnd as [Hfresh Hnd].
  cbn [fold_left fst snd obj_get]. rewrite IH by done.
  rewrite obj_get_dict_set.
  destruct (String.eqb_spec k1 k) as [->|Hne]; [|done].
  destruct (obj_get k other) as [v|] eqn:Hk; [|done].
  exfalso. apply Hfresh. clear -Hk.
  induction other as [|[k2 v2] other IH]; [done|]. cbn in *.
  destruct (String.eqb_spec k2 k) as [->|]; [by left | right; by apply IH].
Qed.

Lemma obj_get_dict_remove k k' (d : list (string * json)) :
  obj_get k (dict_remove k' d)
  = if String.eqb k' k then None else obj_get k d.
Proof.
  unfold dict_remove. induction d as [|[k1 v1] d IH]; cbn [List.filter obj_get fst].
  - by destruct (String.eqb k' k).
  - destruct (String.eqb_spec k1 k') as [->|Hne]; cbn [negb obj_get].
    + rewrite IH. destruct (String.eqb_spec k' k); done.
    + rewrite IH. destruct (String.eqb_spec k1 k) as [->|]; [|done].
      by destruct (String.eqb_spec k' k) as [->|].
Qed.

(** [process_record] lifts the members of [fields] to the top level: a key
    of [fields] takes the value it has there, also when the record has a
    top-level member of the same name ([id], [createdTime]); any other key
    but [fields] keeps its top-level value, and [fields] itself is gone. *)
Theorem process_record_fields_win members fmembers :
  obj_get "fields" members = Some (JObj fmembers) ->
  NoDup (fst <$> fmembers) ->
  exists record,
    process_record (JObj members) = Ok record
    /\ forall k,
         obj_get k record
         = match obj_get k fmembers with
           | Some v => Some v
           | None => if String.eqb "fields" k then None else obj_get k members
           end.
Proof.
  intros Hfields Hnd. eexists. split.
  - unfold process_record. rewrite Hfields. cbn [default]. reflexivity.
  - intros k. rewrite obj_get_dict_update by done.
    by rewrite obj_get_dict_remove.
Qed.

(** A record without [fields] is returned as it is; a record whose
    [fields] is no object, or that is no object itself, raises. *)
Theorem process_record_edges (record : json) :
  (forall members,
     record = JObj members -> obj_get "fields" members = None ->
     process_record record = Ok members)
  /\ (forall members fields,
        record = JObj members -> obj_get "fields" members = Some fields ->
        (forall fmembers, fields <> JObj fmembers) ->
        process_record record = Raise AttributeError)
  /\ ((forall members, record <> JObj members) ->
      process_record record = Raise AttributeError
      \/ process_record record = Raise TypeError).
Proof.
  split; [|split].
  - intros members -> Hnone. unfold process_record. rewrite Hnone.
    cbn [default dict_update fold_left]. f_equal.
    unfold dict_remove. induction members as [|[k v] members IH]; [done|].
    cbn [obj_get] in Hnone. cbn [List.filter fst].
    destruct (String.eqb k "fields"); [done|]. cbn [negb]. f_equal.
    by apply IH.
  - intros members fields -> Hsome Hno. unfold process_record.
    rewrite Hsome. cbn [default]. destruct fields; try done.
    by destruct (Hno members0).
  - intros Hno. destruct record; cbn; auto. by destruct (Hno members).
Qed.

(** ** [rename_column] *)

Lemma lower_char_word (c : ascii) :
  Rename.is_word c = true -> PyStr.lower_char c = c.
Proof.
  unfold Rename.is_word, PyStr.lower_char, PyStr.is_upper.
  intros H.
  destruct ((65 <=? nat_of_ascii c)%nat && (nat_of_ascii c <=? 90)%nat) eqn:E;
    [|done]. exfalso.
  apply andb_prop in E as [E1 E2].
  apply Nat.leb_le in E1, E2.
  apply orb_prop in H as [H|H]; [apply orb_prop in H as [H|H]|].
  - apply andb_prop in H as [H1 H2]. apply Nat.leb_le in H1, H2. lia.
  - apply andb_prop in H as [H1 H2]. apply Nat.leb_le in H1, H2. lia.
  - apply Nat.eqb_eq in H. lia.
Qed.

Lemma lower_word (s : string) :
  all_chars Rename.is_word s = true -> PyStr.lower s = s.
Proof.
  induction s as [|c s IH]; [done|]. cbn. intros [Hc Hs]%andb_prop.
  by rewrite lower_char_word, IH.
Qed.

Lemma sub_non_word_word (in_run : bool) (s : string) :
  all_chars Rename.is_word (Rename.sub_non_word in_run s) = true.
Proof.
  revert in_run. induction s as [|c s IH]; intros in_run; [done|].
  cbn [Rename.sub_non_word]. destruct (Rename.is_word c) eqn:Hc.
  - cbn. by rewrite Hc, IH.
  - destruct in_run; [apply IH|]. cbn [all_chars]. by rewrite IH.
Qed.

Lemma sub_non_word_id (in_run : bool) (s : string) :
  all_chars Rename.is_word s = true -> Rename.sub_non_word in_run s = s.
Proof.
  revert in_run. induction s as [|c s IH]; intros in_run; [done|].
  cbn. intros [Hc Hs]%andb_prop. by rewrite Hc, IH.
Qed.

Lemma squeeze_underscores_word (after : bool) (s : string) :
  all_chars Rename.is_word s = true ->
  all_chars Rename.is_word (Rename.squeeze_underscores after s) = true.
Proof.
  revert after. induction s as [|c s IH]; intros after; [done|].
  cbn. intros [Hc Hs]%andb_prop.
  destruct (Ascii.eqb c "_"); [destruct after|]; cbn; rewrite ?Hc; by apply IH.
Qed.

Lemma squeeze_underscores_single (after : bool) (s : string) :
  single_underscores after (Rename.squeeze_underscores after s) = true.
Proof.
  revert after. induction s as [|c s IH]; intros after; [done|].
  cbn [Rename.squeeze_underscores]. destruct (Ascii.eqb c "_") eqn:Hc.
  - destruct after; [apply IH|]. cbn. by rewrite Hc, IH.
  - cbn. by rewrite Hc, IH.
Qed.

Lemma squeeze_underscores_id (after : bool) (s : string) :
  single_underscores after s = true -> Rename.squeeze_underscores after s = s.
Proof.
  revert after. induction s as [|c s IH]; intros after; [done|].
  cbn. destruct (Ascii.eqb c "_").
  - intros [Ha Hs]%andb_prop. destruct after; [done|]. by rewrite IH.
  - intros Hs. by rewrite IH.
Qed.

Lemma sub_non_word_length (in_run : bool) (s : string) :
  (String.length (Rename.sub_non_word in_run s) <= String.length s)%nat.
Proof.
  revert in_run. induction s as [|c s IH]; intros in_run; [done|].
  cbn [Rename.sub_non_word]. destruct (Rename.is_word c).
  - cbn. specialize (IH false). lia.
  - destruct in_run; cbn; specialize (IH true); lia.
Qed.

Lemma squeeze_underscores_length (after : bool) (s : string) :
  (String.length (Rename.squeeze_underscores after s) <= String.length s)%nat.
Proof.
  revert after. induction s as [|c s IH]; intros after; [done|].
  cbn [Rename.squeeze_underscores]. destruct (Ascii.eqb c "_").
  - destruct after; cbn; specialize (IH true); lia.
  - cbn. specialize (IH false). lia.
Qed.

Lemma lower_length (s : string) : String.length (PyStr.lower s) = String.length s.
Proof. induction s as [|c s IH]; [done|]. cbn. by rewrite IH. Qed.

Lemma rename_column_word (name : string) :
  all_chars Rename.is_word (rename_column name) = true.
Proof. apply squeeze_underscores_word, sub_non_word_word. Qed.

Lemma rename_column_single (name : string) :
  single_underscores false (rename_column name) = true.
Proof. apply squeeze_underscores_single. Qed.

(** A renamed column consists of lower-case letters, digits and
    underscores only, has no two underscores in a row, and is never longer
    than the name it comes from. *)
Theorem rename_column_canonical (name : string) :
  all_chars Rename.is_word (rename_column name) = true
  /\ single_underscores false (rename_column name) = true
  /\ (String.length (rename_column name) <= String.length name)%nat.
Proof.
  split; [apply rename_column_word|]. split; [apply rename_column_single|].
  unfold rename_column.
  pose proof (squeeze_underscores_length false
                (Rename.sub_non_word false (PyStr.lower name))).
  pose proof (sub_non_word_length false (PyStr.lower name)).
  pose proof (lower_length name). lia.
Qed.

(** Renaming is idempotent: a renamed column is renamed to itself, as is
    every name that is canonical already. *)
Theorem rename_column_idempotent (name : string) :
  rename_column (rename_column name) = rename_column name
  /\ (all_chars Rename.is_word name = true ->
      single_underscores false name = true ->
      rename_column name = name).
Proof.
  assert (forall s, all_chars Rename.is_word s = true ->
                    single_underscores false s = true ->
                    rename_column s = s) as Hfix.
  { intros s Hw Hs. unfold rename_column.
    by rewrite lower_word, sub_non_word_id, squeeze_underscores_id. }
  split; [|apply Hfix].
  apply Hfix; [apply rename_column_word | apply rename_column_single].
Qed.

Lemma occurrences_elem name fields :
  occurrences name fields <> 0%nat <-> name ∈ fields.
Proof.
  unfold occurrences. induction fields as [|f fields IH].
  - split; [done | by intros ?%elem_of_nil].
  - cbn [List.filter]. rewrite elem_of_cons.
    destruct (String.eqb_spec name f) as [->|Hne].
    + split; [by left | done].
    + rewrite IH. split; [by right | by intros [?|?]].
Qed.

(** ** [result_to_df] *)

Section ShaperCells.

Variable json_dumps : json -> string.
Variable pd : Pandas.

(** Every frame [result_to_df] returns is rectangular: one row per record,
and in every row one cell per column - every column of the FieldInfo
next to [id] and [createdtime], whatever the records hold. *)
Theorem result_to_df_rectangular data field_info df :
result_to_df json_dumps pd data field_info = Ok df ->
df_columns df = frame_columns field_info
/\ length (df_columns df) = (length field_info + 2)%nat
/\ length (df_rows df) = length data
/\ Forall (fun row => length row = length (df_columns df)) (df_rows df).
Proof.
intros Hdf.
destruct (result_to_df_frame _ _ _ _ _ Hdf) as (Hcols & Hrows & Hwidths).
split; [done|]. split; [|split; done].
rewrite Hcols. unfold frame_columns.
rewrite !length_app, !length_fmap. cbn. lia.
Qed.

(** *** Column by column *)

Lemma column_set_column j values (rows : list (list cell)) :
length values = length rows ->
Forall (fun row => (j < length row)%nat) rows ->
column j (set_column j values rows) = values.
Proof.
intros Hlen Hw. apply list_eq. intros i. unfold column, set_column.
rewrite list_lookup_fmap, list_lookup_imap.
destruct (rows !! i) as [row|] eqn:Hrow; cbn.
- rewrite list_lookup_insert_eq.
+ cbn. apply lookup_lt_Some in Hrow. rewrite <- Hlen in Hrow.
  by destruct (lookup_lt_is_Some_2 _ _ Hrow) as [x ->].
+ rewrite Forall_forall in Hw. by eapply Hw, list_elem_of_lookup_2.
- symmetry. apply lookup_ge_None. apply lookup_ge_None in Hrow. lia.
Qed.

Lemma column_set_column_ne j j' values (rows : list (list cell)) :
j <> j' -> column j' (set_column j values rows) = column j' rows.
Proof.
intros Hne. apply list_eq. intros i. unfold column, set_column.
rewrite !list_lookup_fmap, list_lookup_imap.
destruct (rows !! i) as [row|]; [|done]. cbn.
by rewrite list_lookup_insert_ne.
Qed.

Lemma column_length j (rows : list (list cell)) :
length (column j rows) = length rows.
Proof. unfold column. by rewrite length_fmap. Qed.

(** Pandas works on every column by itself. *)
Lemma column_map_columns f width (rows : list (list cell)) W j :
(forall values, length (f values) = length values) ->
Forall (fun row => length row = W) rows -> (width <= W)%nat ->
column j (map_columns f width rows)
= if (j <? width)%nat then f (column j rows) else column j rows.
Proof.
intros Hf Hrows. unfold map_columns. induction width as [|width IH];
intros Hwidth; [done|].
rewrite seq_S, fold_left_app. cbn [fold_left Nat.add].
fold (map_columns f width rows). unfold map_column at 1.
destruct (map_columns_shape f width rows W) as [Hlen Hw].
specialize (Hw Hrows). specialize (IH ltac:(lia)).
fold (map_columns f width rows) in IH.
destruct (decide (j = width)) as [->|Hne].
- rewrite column_set_column.
+ rewrite IH. rewrite (proj2 (Nat.ltb_ge _ _)) by lia.
  by rewrite (proj2 (Nat.ltb_lt _ _)) by lia.
+ by rewrite Hf, column_length.
+ eapply Forall_impl; [exact Hw|]. cbn. intros row ->. lia.
- rewrite column_set_column_ne by done. rewrite IH.
destruct (Nat.ltb_spec j width), (Nat.ltb_spec j (S width));
  try done; lia.
Qed.

Lemma index_of_lookup name (columns : list string) j :
NoDup columns -> columns !! j = Some name ->
index_of name columns = Some j /\ occurrences name columns = 1%nat.
Proof.
revert j. induction columns as [|c columns IH]; intros j Hnd Hj; [done|].
apply NoDup_cons in Hnd as [Hc Hnd].
destruct j as [|j]; cbn in Hj.
- injection Hj as ->. unfold occurrences. cbn [index_of List.filter].
rewrite !String.eqb_refl. split; [done|]. cbn [length]. f_equal.
destruct (length (List.filter (String.eqb name) columns)) eqn:E; [done|].
exfalso. apply Hc. apply occurrences_elem. unfold occurrences.
by rewrite E.
- destruct (IH j Hnd Hj) as [Hidx Hocc].
assert (c <> name) as Hne.
{ intros ->. apply Hc. by eapply list_elem_of_lookup_2. }
unfold occurrences in *. cbn [index_of List.filter].
rewrite (proj2 (String.eqb_neq c name)) by done.
rewrite (proj2 (String.eqb_neq name c)) by done.
by rewrite Hidx.
Qed.

Lemma serialize_fields_columns (field_info : FieldInfo) df W :
keeps_lengths pd ->
NoDup (df_columns df) -> NoDup (fst <$> field_info) ->
(forall field, field ∈ field_info -> field.1 ∈ df_columns df) ->
Forall (fun row => length row = W) (df_rows df) ->
length (df_columns df) = W ->
exists df',
serialize_fields json_dumps pd field_info df = Ok df'
/\ df_columns df' = df_columns df
/\ forall j name,
     df_columns df !! j = Some name ->
     column j (df_rows df')
     = if serialized_in field_info name
       then pd_apply pd (maybe_jsonify json_dumps <$> column j (df_rows df))
       else column j (df_rows df).
Proof.
intros (_ & Happly & _). revert df.
induction field_info as [|[n ty] rest IH];
intros df Hnd Hnames Hin Hrows Hwidth.
- exists df. by split.
- cbn [fmap list_fmap fst] in Hnames.
apply NoDup_cons in Hnames as [Hn Hnames].
assert (forall field, field ∈ rest -> field.1 ∈ df_columns df) as Hin'.
{ intros field Hfield. apply Hin. by apply list_elem_of_further. }
cbn [serialize_fields serialized_in existsb fst snd].
destruct (is_serialized_type ty) eqn:Hty.
+ assert (n ∈ df_columns df) as Hcol
    by (apply (Hin (n, ty)); apply list_elem_of_here).
  apply list_elem_of_lookup_1 in Hcol as [jn Hjn].
  destruct (index_of_lookup _ _ _ Hnd Hjn) as [Hidx Hocc].
  unfold apply_column. rewrite Hidx, Hocc. cbn [Nat.eqb].
  set (df1 := {| df_columns := df_columns df; df_rows := _ |}).
  destruct (IH df1) as (df' & Hrun & Hcols & Hcells); try done.
  { cbn [df1 df_rows]. by apply set_column_widths. }
  exists df'. split; [exact Hrun|]. split; [exact Hcols|].
  intros j name Hj. rewrite (Hcells j name Hj). cbn [df1 df_rows].
  assert (jn < W)%nat as Hlt
    by (rewrite <- Hwidth; by eapply lookup_lt_Some).
  destruct (decide (j = jn)) as [->|Hne].
  * assert (name = n) as -> by congruence.
    rewrite String.eqb_refl. cbn [andb orb].
    assert (serialized_in rest n = false) as ->.
    { unfold serialized_in. apply not_true_is_false.
      intros H. apply existsb_exists in H as ([n' ty'] & Hmem & Heq).
      apply andb_prop in Heq as [Heq _]. apply String.eqb_eq in Heq.
      cbn in Heq. subst n'. apply Hn. apply list_elem_of_fmap.
      exists (n, ty'). split; [done|]. by apply list_elem_of_In. }
    unfold map_column. apply column_set_column.
    -- by rewrite Happly, length_fmap, column_length.
    -- eapply Forall_impl; [exact Hrows|]. cbn. intros row ->. done.
  * assert (n <> name) as Hname.
    { intros ->. apply Hne. exact (NoDup_lookup _ _ _ _ Hnd Hj Hjn). }
    rewrite (proj2 (String.eqb_neq n name)) by done. cbn [andb orb].
    fold (serialized_in rest name).
    unfold map_column. by rewrite !column_set_column_ne by done.
+ destruct (IH df) as (df' & Hrun & Hcols & Hcells); try done.
  exists df'. split; [exact Hrun|]. split; [exact Hcols|].
  intros j name Hj. rewrite andb_false_r. cbn [orb].
  by apply Hcells.
Qed.

(** For fields with distinct names, none of them [id] or [createdTime],
and a pandas that keeps the lengths of columns, [result_to_df]
returns a frame for all records that can be processed, and every
column of it depends on the values of that column alone: the values
the records have under the name before it is renamed, NaN for a
record that has none, as pandas stores them on construction, passed
through [maybe_jsonify] exactly when the field has one of the
serialized types, and then through [convert_dtypes]. *)
Theorem result_to_df_columns data field_info records :
keeps_lengths pd ->
NoDup (source_columns field_info) ->
process_records data = Ok records ->
exists df,
result_to_df json_dumps pd data field_info = Ok df
/\ df_columns df = frame_columns field_info
/\ forall j name,
     source_columns field_info !! j = Some name ->
     column j (df_rows df)
     = pd_convert pd
         (let stored := pd_construct pd (record_cell name <$> records) in
          if serialized_in field_info name
          then pd_apply pd (maybe_jsonify json_dumps <$> stored)
          else stored).
Proof.
intros Hpd Hnd Hrecords. pose proof Hpd as (Hconstruct & _ & Hconvert).
set (W := length (source_columns field_info)).
set (raw := (fun record =>
             (fun c => match obj_get c record with
                       | Some v => CVal v
                       | None => CNaN
                       end) <$> source_columns field_info) <$> records).
assert (Forall (fun row => length row = W) raw) as Hraw.
{ apply Forall_fmap, Forall_forall. intros record _. cbn.
by rewrite length_fmap. }
destruct (map_columns_shape (pd_construct pd) W raw W) as [_ Hw0].
specialize (Hw0 Hraw).
destruct (serialize_fields_columns field_info
          (frame_of_records pd records (source_columns field_info)) W)
as (df1 & Hser & Hcols1 & Hcells1); try done.
{ unfold source_columns in Hnd. cbn [app] in Hnd.
apply NoDup_cons in Hnd as [_ Hnd]. by apply NoDup_app in Hnd as [? _]. }
{ intros field Hfield. cbn [frame_of_records df_columns].
unfold source_columns. apply elem_of_cons. right. apply elem_of_app.
left. apply list_elem_of_fmap. by exists field. }
cbn [frame_of_records df_columns df_rows] in Hcols1, Hcells1.
fold W raw in Hcells1.
destruct (serialize_fields_shape json_dumps pd _ _ _ W Hser)
as (_ & _ & Hw1).
cbn [frame_of_records df_rows] in Hw1. fold W raw in Hw1.
specialize (Hw1 Hw0).
eexists. split; [|split].
- unfold result_to_df. fold (source_columns field_info).
rewrite Hrecords. cbv zeta. by rewrite Hser.
- cbn [df_columns]. rewrite Hcols1. apply frame_columns_renamed.
- intros j name Hj. cbn [df_rows]. rewrite Hcols1. fold W.
assert (j < W)%nat as Hlt by (by eapply lookup_lt_Some).
rewrite (column_map_columns _ _ _ W) by done.
rewrite (proj2 (Nat.ltb_lt _ _)) by done.
rewrite (Hcells1 j name Hj).
rewrite (column_map_columns _ _ _ W) by done.
rewrite (proj2 (Nat.ltb_lt _ _)) by done.
assert (column j raw = record_cell name <$> records) as ->; [|done].
unfold column, raw. rewrite <- list_fmap_compose.
apply list_fmap_ext. intros i record _. unfold compose.
by rewrite list_lookup_fmap, Hj.
Qed.

(** *** A label that two columns carry *)

Lemma serialize_fields_raises (field_info : FieldInfo) df e :
serialize_fields json_dumps pd field_info df = Raise e ->
(forall field, field ∈ field_info -> field.1 ∈ df_columns df) ->
e = ValueError.
Proof.
revert df. induction field_info as [|[n ty] rest IH]; intros df; [done|].
cbn [serialize_fields]. intros Hrun Hin.
assert (forall field, field ∈ rest -> field.1 ∈ df_columns df) as Hin'.
{ intros field Hfield. apply Hin. by apply list_elem_of_further. }
destruct (is_serialized_type ty); [|by apply (IH df)].
destruct (apply_column pd n (maybe_jsonify json_dumps) df) as [df1|e1|]
eqn:Happly; [| |done].
- destruct (apply_column_shape _ _ _ _ _ 0%nat Happly) as (Hc & _).
apply (IH df1 Hrun). by rewrite Hc.
- injection Hrun as <-. unfold apply_column in Happly.
destruct (index_of_elem n (df_columns df)) as [j Hj].
{ apply (Hin (n, ty)). apply list_elem_of_here. }
rewrite Hj in Happly. destruct (_ =? 1)%nat; [done|].
destruct (df_rows df); [done|]. by injection Happly as <-.
Qed.

Lemma serialize_fields_not_diverge (field_info : FieldInfo) df :
serialize_fields json_dumps pd field_info df <> Diverge.
Proof.
revert df. induction field_info as [|[n ty] rest IH]; intros df; [done|].
cbn [serialize_fields]. destruct (is_serialized_type ty); [|apply IH].
destruct (apply_column pd n (maybe_jsonify json_dumps) df) as [df1|e1|]
eqn:Happly; [apply IH|done|].
unfold apply_column in Happly. destruct (index_of _ _); [|done].
destruct (_ =? 1)%nat; [done|]. by destruct (df_rows df).
Qed.

(** The serialization of a column whose label another column carries too
does not return on a frame that has rows. *)
Lemma serialize_fields_duplicate (field_info : FieldInfo) df df1 name ty :
serialize_fields json_dumps pd field_info df = Ok df1 ->
(name, ty) ∈ field_info -> is_serialized_type ty = true ->
name ∈ df_columns df -> occurrences name (df_columns df) <> 1%nat ->
df_rows df <> [] ->
False.
Proof.
revert df. induction field_info as [|[n t] rest IH];
intros df Hser Hfield Hty Hcol Hocc Hrows;
[by apply elem_of_nil in Hfield|].
cbn [serialize_fields] in Hser.
apply elem_of_cons in Hfield as [Heq|Hfield].
- injection Heq as -> ->. rewrite Hty in Hser.
unfold apply_column in Hser.
destruct (index_of_elem n (df_columns df) Hcol) as [j Hj].
rewrite Hj in Hser.
rewrite (proj2 (Nat.eqb_neq _ _) Hocc) in Hser.
by destruct (df_rows df).
- destruct (is_serialized_type t); [|by apply (IH df)].
destruct (apply_column pd n (maybe_jsonify json_dumps) df) as [df'| |]
  eqn:Happly; [|done|done].
destruct (apply_column_shape _ _ _ _ _ 0%nat Happly) as (Hc & Hl & _).
apply (IH df' Hser Hfield Hty).
+ by rewrite Hc.
+ by rewrite Hc.
+ intros Hnil. rewrite Hnil in Hl. by destruct (df_rows df).
Qed.

Lemma occurrences_app name (l1 l2 : list string) :
occurrences name (l1 ++ l2)
= (occurrences name l1 + occurrences name l2)%nat.
Proof. unfold occurrences. by rewrite List.filter_app, length_app. Qed.

(** A field called [id] or [createdTime] that has one of the serialized
types cannot be loaded: the frame has two columns of that label, and
for any records that can be processed, one at least,
[result_to_df] raises [ValueError]. *)
Theorem result_to_df_serialized_id data field_info records name ty :
process_records data = Ok records -> data <> [] ->
(name, ty) ∈ field_info -> is_serialized_type ty = true ->
name = "id"%string \/ name = "createdTime"%string ->
result_to_df json_dumps pd data field_info = Raise ValueError.
Proof.
intros Hrecords Hdata Hfield Hty Hname.
unfold result_to_df. fold (source_columns field_info).
rewrite Hrecords. cbv zeta.
set (df0 := frame_of_records pd records (source_columns field_info)).
assert (forall field, field ∈ field_info -> field.1 ∈ df_columns df0) as Hin.
{ intros field Hmem. cbn [df0 frame_of_records df_columns].
unfold source_columns. apply elem_of_cons. right. apply elem_of_app.
left. apply list_elem_of_fmap. by exists field. }
destruct (serialize_fields json_dumps pd field_info df0) as [df1|e|] eqn:Hser.
- exfalso.
apply (serialize_fields_duplicate _ _ _ _ _ Hser Hfield Hty).
+ by apply (Hin (name, ty)).
+ cbn [df0 frame_of_records df_columns]. unfold source_columns.
  assert (occurrences name (fst <$> field_info) <> 0%nat) as Hocc.
  { apply occurrences_elem, list_elem_of_fmap. by exists (name, ty). }
  rewrite !occurrences_app.
  destruct Hname as [-> | ->]; unfold occurrences at 1 3;
    cbn [List.filter String.eqb Ascii.eqb Bool.eqb length]; lia.
+ cbn [df0 frame_of_records df_rows]. intros Hnil.
  apply (f_equal length) in Hnil.
  destruct (map_columns_shape (pd_construct pd)
              (length (source_columns field_info))
              ((fun record =>
                  (fun c => match obj_get c record with
                            | Some v => CVal v
                            | None => CNaN
                            end) <$> source_columns field_info)
                 <$> records) 0%nat) as [Hlen _].
  rewrite Hlen, length_fmap, (process_records_length _ _ Hrecords) in Hnil.
  by destruct data.
- by rewrite (serialize_fields_raises _ _ _ Hser Hin).
- by apply serialize_fields_not_diverge in Hser.
Qed.

End ShaperCells.

Lemma result_to_df_columns_witness :
  exists df,
    result_to_df Examples.dumps_kind Examples.as_given [Examples.tagged]
      Examples.tag_fields = Ok df
    /\ column 1 (df_rows df) = [CVal (JStr "n")]
    /\ column 2 (df_rows df) = [CVal (JStr "[...]")]
    /\ column 3 (df_rows df) = [CNaN].
Proof.
  destruct (result_to_df_columns Examples.dumps_kind Examples.as_given
              [Examples.tagged] Examples.tag_fields
              [[("id"%string, JStr "rec1");
                ("createdTime"%string, JStr "2020-01-01");
                ("Tags"%string, JArr [JStr "x"; JStr "y"]);
                ("Name"%string, JStr "n")]])
    as (df & Hdf & _ & Hcells).
  - by repeat split.
  - apply (bool_decide_unpack _). by vm_compute.
  - reflexivity.
  - exists df. split; [exact Hdf|].
    split; [exact (Hcells 1%nat "Name"%string eq_refl)|].
    split; [exact (Hcells 2%nat "Tags"%string eq_refl)
           | exact (Hcells 3%nat "Notes"%string eq_refl)].
Defined.

Lemma result_to_df_serialized_id_witness :
result_to_df Examples.dumps_unused Examples.as_given [Examples.rec_ "a"]
  Examples.id_formula = Raise ValueError.
Proof.
apply (result_to_df_serialized_id Examples.dumps_unused Examples.as_given
           [Examples.rec_ "a"] Examples.id_formula
           [[("id"%string, JStr "a");
             ("createdTime"%string, JStr "2020-01-01");
             ("Name"%string, JStr "a")]]
           "id" "formula").
  - reflexivity.
  - discriminate.
  - apply list_elem_of_further, list_elem_of_here.
  - reflexivity.
  - by left.
Defined.

Lemma result_to_df_rectangular_witness :
  exists df,
    result_to_df Examples.dumps_kind Examples.as_given [Examples.tagged]
      Examples.tag_fields
    = Ok df
    /\ length (df_columns df) = 5%nat
    /\ Forall (fun row => length row = length (df_columns df)) (df_rows df).
Proof.
  eexists. split; [reflexivity|].
  destruct (result_to_df_rectangular Examples.dumps_kind Examples.as_given
              [Examples.tagged] Examples.tag_fields _ eq_refl)
    as (_ & Hlen & _ & Hrows).
  split; [exact Hlen | exact Hrows].
Defined.

(** ** [rechunked] *)

Lemma rechunked_from_end xs chunks n :
  stream_end (rechunked_from xs chunks n) = stream_end chunks.
Proof.
  revert xs. induction chunks as [|chunk rest IH|e]; intros xs; cbn.
  - by destruct xs.
  - destruct (n <=? _); cbn; apply IH.
  - done.
Qed.

Lemma rechunked_from_records xs chunks n :
  exists lost,
    concat (yielded (rechunked_from xs chunks n)) ++ lost
    = xs ++ concat (yielded chunks)
    /\ (stream_end chunks = None -> lost = []).
Proof.
  revert xs. induction chunks as [|chunk rest IH|e]; intros xs;
    cbn [rechunked_from yielded concat stream_end].
  - exists []. split; [|done]. destruct xs; cbn; by rewrite ?app_nil_r.
  - destruct (n <=? _).
    + destruct (IH []) as (lost & Hlost & Hend). exists lost.
      split; [|done]. cbn [yielded concat app] in *.
      by rewrite <- !app_assoc, Hlost.
    + destruct (IH (xs ++ chunk)) as (lost & Hlost & Hend). exists lost.
      split; [|done]. by rewrite Hlost, <- app_assoc.
  - exists xs. split; [by rewrite app_nil_r|done].
Qed.

(** [rechunked] ends as the chunks it reads end - it stops when they stop
    and raises what they raise - and regroups the records without
    changing them or their order: when the chunks stop, the records it
    yields are the records it read; when they raise, a leading part of
    them (what was buffered is not yielded). *)
Theorem rechunked_keeps_records chunks n :
  stream_end (rechunked chunks n) = stream_end chunks
  /\ (exists lost,
        concat (yielded (rechunked chunks n)) ++ lost
        = concat (yielded chunks)
        /\ (stream_end chunks = None -> lost = [])).
Proof.
  split; [apply rechunked_from_end|].
  destruct (rechunked_from_records [] chunks n) as (lost & H & Hend).
  by exists lost.
Qed.

Lemma rechunked_from_sizes xs chunks n :
  0 < n -> Z.of_nat (length xs) < n ->
  Forall (fun chunk => chunk <> []) (yielded (rechunked_from xs chunks n))
  /\ (forall i chunk,
        yielded (rechunked_from xs chunks n) !! i = Some chunk ->
        (S i < length (yielded (rechunked_from xs chunks n)))%nat
        \/ stream_end chunks <> None ->
        n <= Z.of_nat (length chunk)).
Proof.
  intros Hn. revert xs.
  induction chunks as [|chunk rest IH|e]; intros xs Hxs;
    cbn [rechunked_from yielded stream_end].
  - destruct xs as [|x xs]; cbn [yielded].
    + split; [constructor|]. by intros i c ?.
    + split; [by repeat constructor|].
      intros [|i] c Hc [Hi|Hend]; cbn in *; try lia; done.
  - destruct (Z.leb_spec n (Z.of_nat (length (xs ++ chunk)))) as [Hfull|Hless].
    + destruct (IH [] ltac:(cbn; lia)) as [Hne Hsz]. cbn [yielded]. split.
      * constructor; [|done]. intros Heq. rewrite Heq in Hfull. cbn in Hfull. lia.
      * intros [|i] c Hc Hcase; cbn in Hc.
        -- by injection Hc as <-.
        -- apply (Hsz i c Hc). destruct Hcase as [Hi|Hend]; [left|by right].
           cbn [length] in Hi. lia.
    + apply (IH (xs ++ chunk) Hless).
  - split; [constructor|]. by intros i c ?.
Qed.

(** For a positive size, [rechunked] never yields an empty chunk, and
    every chunk it yields holds at least [n] records, except the last one
    of a stream that stops. *)
Theorem rechunked_chunk_sizes chunks n :
  0 < n ->
  Forall (fun chunk => chunk <> []) (yielded (rechunked chunks n))
  /\ (forall i chunk,
        yielded (rechunked chunks n) !! i = Some chunk ->
        (S i < length (yielded (rechunked chunks n)))%nat
        \/ stream_end chunks <> None ->
        n <= Z.of_nat (length chunk)).
Proof. intros Hn. apply rechunked_from_sizes; [done | cbn; lia]. Qed.

Lemma rechunked_chunk_sizes_witness :
  0 < 3
  /\ yielded (rechunked Examples.paged 3)
     = [[Examples.rec_ "a"; Examples.rec_ "b"; Examples.rec_ "c"];
        [Examples.rec_ "d"; Examples.rec_ "e"]]
  /\ Forall (fun chunk => chunk <> []) (yielded (rechunked Examples.paged 3))
  /\ rechunked Examples.dying 3 = Throw AirtableIteratorError.
Proof.
  split; [done|]. split; [reflexivity|]. split; [|reflexivity].
  by destruct (rechunked_chunk_sizes Examples.paged 3 eq_refl) as [H _].
Defined.

(** ** [_load_chunks]: failures, empty streams, buffering *)

Section LoaderEdges.

Variable json_dumps : json -> string.
Variable pd : Pandas.

Implicit Types (wh : Warehouse) (chunks : ChunkStream).

(** The loop and the step that makes sure the table exists touch the
temporary table only, however they end. *)
Lemma load_loop_frame chunks field_info schema temporary_table count wh other :
other <> identifier schema temporary_table ->
(load_loop json_dumps pd chunks field_info schema temporary_table count wh).2
!! other = wh !! other.
Proof.
intros Hne. revert count wh.
induction chunks as [|chunk rest IH|e]; intros count wh; [done| |done].
cbn [load_loop]. unfold bind at 1, lift.
destruct (result_to_df json_dumps pd chunk field_info) as [df| |];
[|done|done].
unfold bind at 1, materialize, Sql.to_sql.
destruct (wh !! identifier schema temporary_table) as [t|].
- destruct (df_rows df) as [|row rows]; [apply IH|].
destruct (forallb _ _); [|done]. rewrite IH. by apply lookup_insert_ne.
- rewrite IH. by apply lookup_insert_ne.
Qed.

Lemma ensure_table_frame field_info schema temporary_table (count : nat) wh other :
other <> identifier schema temporary_table ->
((if (count =? 0)%nat then
  let* nulls_df := lift (result_to_df json_dumps pd [] field_info) in
  let* nulls_df := lift (concat_null_row nulls_df) in
  let* _ := materialize nulls_df schema temporary_table Sql.IfExistsFail in
  Sql.delete_from (identifier schema temporary_table)
else ret tt) wh).2 !! other = wh !! other.
Proof.
intros Hne. destruct (count =? 0)%nat; [|done].
unfold bind at 1, lift. rewrite result_to_df_no_records.
unfold bind at 1, concat_null_row. cbn [df_columns df_rows].
destruct (bool_decide _); [|done].
unfold bind at 1, materialize, Sql.to_sql.
destruct (wh !! identifier schema temporary_table) as [t|]; [done|].
unfold Sql.delete_from. rewrite lookup_insert_eq. cbn [snd].
by rewrite !lookup_insert_ne.
Qed.

(** In a warehouse that refuses no statement, the cutover completes once
the temporary table is there. *)
Lemma cutover_runs schema table t (count : nat) wh :
wh !! identifier schema (table +:+ "__loader_tmp") = Some t ->
exists wh',
(let* exists_ := table_exists schema table in
 let* _ :=
   if exists_ : bool then
     let* _ := Sql.swap_with (identifier schema (table +:+ "__loader_tmp"))
                 (identifier schema table) in
     Sql.drop_table (identifier schema (table +:+ "__loader_tmp"))
   else
     Sql.rename_to (identifier schema (table +:+ "__loader_tmp"))
       (identifier schema table) in
 ret count) wh = (Ok count, wh').
Proof.
intros Htmp. unfold bind at 1, table_exists, try_except, Sql.describe_table.
unfold bind at 1.
destruct (wh !! identifier schema table) as [old|] eqn:Hfinal.
- unfold ret at 1. unfold bind at 1. unfold bind at 1, Sql.swap_with.
rewrite Htmp, Hfinal. unfold Sql.drop_table. rewrite lookup_insert_eq.
by eexists.
- unfold ret at 1. unfold bind at 1, Sql.rename_to. rewrite Htmp, Hfinal.
by eexists.
Qed.

(** A run that raises has stopped before the cutover: every table but the
temporary one is as it was. *)
Lemma load_chunks_failure_frame chunks field_info destination wh e wh' :
load_chunks json_dumps pd chunks field_info destination wh = (Raise e, wh') ->
match parse_table_name destination with
| Ok (database, schema, table) =>
  let schema := effective_schema database schema in
  wh' !! identifier schema table = wh !! identifier schema table
  /\ forall other,
       other <> identifier schema (table +:+ "__loader_tmp") ->
       wh' !! other = wh !! other
| _ => wh' = wh
end.
Proof.
intros Hrun. unfold load_chunks in Hrun. unfold bind at 1, lift in Hrun.
destruct (parse_table_name destination) as [[[database schema] table]| |]
eqn:Hparse; [|by injection Hrun as _ <-|done].
fold (effective_schema database schema) in Hrun. cbn zeta.
set (sch := effective_schema database schema) in *.
set (tmp := identifier sch (table +:+ "__loader_tmp")) in *.
assert (forall w : Warehouse,
        (forall other, other <> tmp -> w !! other = wh !! other) ->
        w !! identifier sch table = wh !! identifier sch table
        /\ forall other, other <> tmp -> w !! other = wh !! other) as Hfinal.
{ intros w Hall. split; [|exact Hall]. apply Hall. intros H. symmetry in H.
by apply temporary_name_differs in H. }
unfold bind at 1, Sql.drop_table_if_exists in Hrun.
unfold bind at 1 in Hrun.
pose proof (fun other H =>
            load_loop_frame chunks field_info sch
              (table +:+ "__loader_tmp") 0 (delete tmp wh) other H)
as Hframe2.
assert (forall other, other <> tmp ->
        delete tmp wh !! other = wh !! other) as Hframe1
by (intros; by apply lookup_delete_ne).
destruct (load_loop json_dumps pd chunks field_info sch
          (table +:+ "__loader_tmp") 0 (delete tmp wh))
as [[n| |] wh2] eqn:Hloop; cbn [snd] in Hframe2; [| |done].
- apply (load_loop_spec _ _ _ _ _ _ _ _ _ _ []) in Hloop
  as (frames & _ & Hn & _ & Htmp2);
  [|by fold tmp; rewrite lookup_delete_eq].
fold tmp in Htmp2. cbn [app] in Htmp2.
cbn [Nat.add] in Hn. subst n.
unfold bind at 1 in Hrun.
pose proof (fun other H =>
              ensure_table_frame field_info sch (table +:+ "__loader_tmp")
                (length (concat (df_rows <$> frames))) wh2 other H)
  as Hframe3.
match type of Hrun with
| match ?phase wh2 with _ => _ end = _ =>
    change (forall other, other <> tmp ->
              (phase wh2).2 !! other = wh2 !! other) in Hframe3;
    destruct (phase wh2) as [[[]| |] wh3] eqn:Hensure
end; cbn [snd] in Hframe3; [| |done].
+ apply (ensure_table_spec json_dumps pd field_info sch
           (table +:+ "__loader_tmp") frames) in Hensure as [Htmp3 _];
    [|exact Htmp2].
  destruct (cutover_runs sch table _
              (length (concat (df_rows <$> frames))) wh3 Htmp3)
    as [wh4 Hcut].
  fold tmp in Hcut. by rewrite Hcut in Hrun.
+ injection Hrun as _ <-. apply Hfinal.
  intros other H. by rewrite Hframe3, Hframe2, Hframe1.
- injection Hrun as _ <-. apply Hfinal.
intros other H. by rewrite Hframe2, Hframe1.
Qed.

Lemma load_loop_stops chunks field_info schema temporary_table count wh n wh' :
load_loop json_dumps pd chunks field_info schema temporary_table count wh
= (Ok n, wh') ->
stream_end chunks = None.
Proof.
revert count wh. induction chunks as [|chunk rest IH|e]; intros count wh;
[done| |done].
cbn [load_loop stream_end]. unfold bind at 1, lift.
destruct (result_to_df json_dumps pd chunk field_info) as [df| |];
[|done|done].
unfold bind at 1, materialize, Sql.to_sql.
destruct (wh !! _); [|apply IH].
destruct (df_rows df); [apply IH|]. destruct (forallb _ _); [apply IH|done].
Qed.

Lemma load_chunks_stops chunks field_info destination wh count wh' :
load_chunks json_dumps pd chunks field_info destination wh = (Ok count, wh') ->
stream_end chunks = None.
Proof.
intros Hrun. unfold load_chunks in Hrun. unfold bind at 1, lift in Hrun.
destruct (parse_table_name destination) as [[[database schema] table]| |];
[|done|done].
unfold bind at 1, Sql.drop_table_if_exists in Hrun.
unfold bind at 1 in Hrun.
match type of Hrun with
| match ?loop with _ => _ end = _ =>
  destruct loop as [[n| |] wh2] eqn:Hloop; [|done|done]
end.
by apply load_loop_stops in Hloop.
Qed.

(** The loop runs through a stream that stops and whose chunks can be
shaped, appending to the temporary table it has made. *)
Lemma load_loop_runs chunks field_info schema temporary_table frames count wh
before :
stream_end chunks = None ->
Forall2 (fun chunk df => result_to_df json_dumps pd chunk field_info = Ok df)
(yielded chunks) frames ->
wh !! identifier schema temporary_table = appended field_info before ->
exists wh',
load_loop json_dumps pd chunks field_info schema temporary_table count wh
= (Ok (count + length (concat (df_rows <$> frames)))%nat, wh')
/\ wh' !! identifier schema temporary_table
   = appended field_info (before ++ frames)
/\ (forall other, other <> identifier schema temporary_table ->
      wh' !! other = wh !! other).
Proof.
intros Hend Hframes Htmp.
enough (exists wh',
        load_loop json_dumps pd chunks field_info schema temporary_table
          count wh
        = (Ok (count + length (concat (df_rows <$> frames)))%nat, wh'))
as [wh' Hrun].
{ exists wh'. split; [exact Hrun|].
destruct (load_loop_spec _ _ _ _ _ _ _ _ _ _ _ Htmp Hrun)
  as (frames' & Hframes' & _ & Hother & Ht).
assert (frames' = frames) as ->; [|by split].
clear -Hframes Hframes'. revert frames' Hframes'.
induction Hframes as [|c df cs fs Hdf _ IH]; intros frames' H';
  inversion H' as [|? df' ? fs' Hdf' Hrest]; subst; [done|].
f_equal; [congruence | by apply IH]. }
revert frames Hframes count wh before Htmp.
induction chunks as [|chunk rest IH|e];
intros frames Hframes count wh before Htmp; cbn [yielded stream_end] in *.
- inversion Hframes; subst. exists wh. cbn. by rewrite Nat.add_0_r.
- inversion Hframes as [|? df ? frames' Hdf Hrest]; subst.
destruct (result_to_df_shape _ _ _ _ _ Hdf) as [Hcols _].
assert (forall wh1,
          wh1 !! identifier schema temporary_table
          = appended field_info (before ++ [df]) ->
          exists wh',
            load_loop json_dumps pd rest field_info schema temporary_table
              (count + length (df_rows df)) wh1
            = (Ok (count + length (concat (df_rows <$> df :: frames')))%nat,
               wh')) as Hstep.
{ intros wh1 Htmp1.
  destruct (IH Hend frames' Hrest (count + length (df_rows df))%nat wh1
              (before ++ [df]) Htmp1) as [wh' Hrun].
  exists wh'. rewrite Hrun. cbn [fmap list_fmap concat].
  rewrite length_app. do 2 f_equal. lia. }
cbn [load_loop]. unfold bind at 1, lift. rewrite Hdf.
unfold bind at 1, materialize, Sql.to_sql. rewrite Htmp.
destruct before as [|df0 earlier] eqn:Hbefore.
+ cbn [appended]. apply Hstep. rewrite lookup_insert_eq.
  cbn [app appended fmap list_fmap concat].
  unfold loaded_rows. by rewrite Hcols, app_nil_r.
+ rewrite <- Hbefore in *.
  assert (appended field_info before
          = Some {| t_columns := Sql.table_columns (frame_columns field_info);
                    t_rows := concat (loaded_rows field_info <$> before) |})
    as Happ by (by rewrite Hbefore).
  assert (appended field_info (before ++ [df])
          = Some {| t_columns := Sql.table_columns (frame_columns field_info);
                    t_rows := concat (loaded_rows field_info <$> before)
                              ++ loaded_rows field_info df |})
    as Happ'.
  { rewrite Hbefore. cbn [app appended].
    change (df0 :: earlier ++ [df]) with ((df0 :: earlier) ++ [df]).
    rewrite fmap_app, concat_app. cbn [fmap list_fmap concat].
    by rewrite app_nil_r. }
  rewrite Happ. cbn [t_columns t_rows].
  destruct (df_rows df) as [|row rows] eqn:Hrows.
  * apply Hstep. rewrite Htmp, Happ, Happ'. unfold loaded_rows at 3.
    by rewrite Hrows, app_nil_r.
  * rewrite Hcols.
    assert (forallb
              (fun c => bool_decide
                          (c ∈ Sql.table_columns (frame_columns field_info)))
              (frame_columns field_info) = true) as Hall.
    { apply forallb_forall. intros c Hc. apply bool_decide_eq_true_2.
      by apply elem_of_table_columns, list_elem_of_In. }
    rewrite Hall. rewrite <- Hrows in Hstep |- *.
    apply Hstep. by rewrite lookup_insert_eq, Happ'.
- done.
Qed.

(** The shared start of a run of [_load_chunks] whose loop completes. *)
Lemma load_chunks_after_loop chunks field_info destination database schema
table frames wh :
parse_table_name destination = Ok (database, schema, table) ->
stream_end chunks = None ->
Forall2 (fun chunk df => result_to_df json_dumps pd chunk field_info = Ok df)
(yielded chunks) frames ->
let sch := effective_schema database schema in
let tmp := identifier sch (table +:+ "__loader_tmp") in
exists wh2,
wh2 !! tmp = appended field_info frames
/\ (forall other, other <> tmp -> wh2 !! other = wh !! other)
/\ load_chunks json_dumps pd chunks field_info destination wh
   = (let* _ :=
        if (length (concat (df_rows <$> frames)) =? 0)%nat then
          let* nulls_df := lift (result_to_df json_dumps pd [] field_info) in
          let* nulls_df := lift (concat_null_row nulls_df) in
          let* _ := materialize nulls_df sch (table +:+ "__loader_tmp")
                      Sql.IfExistsFail in
          Sql.delete_from tmp
        else ret tt in
      let* exists_ := table_exists sch table in
      let* _ :=
        if exists_ : bool then
          let* _ := Sql.swap_with tmp (identifier sch table) in
          Sql.drop_table tmp
        else Sql.rename_to tmp (identifier sch table) in
      ret (length (concat (df_rows <$> frames)))) wh2.
Proof.
intros Hparse Hend Hframes sch tmp.
destruct (load_loop_runs chunks field_info sch (table +:+ "__loader_tmp")
          frames 0 (delete tmp wh) [] Hend Hframes)
as (wh2 & Hloop & Htmp & Hother).
{ fold tmp. by rewrite lookup_delete_eq. }
cbn [Nat.add app] in Hloop, Htmp. fold tmp in Htmp, Hother. exists wh2.
split; [exact Htmp|]. split.
- intros other Hne. rewrite Hother by done. by apply lookup_delete_ne.
- unfold load_chunks. unfold bind at 1, lift. rewrite Hparse.
fold (effective_schema database schema). fold sch. fold tmp.
unfold bind at 1, Sql.drop_table_if_exists. unfold bind at 1.
by rewrite Hloop.
Qed.

(** A stream that stops after yielding only empty chunks, and at least
one, makes [_load_chunks] fail: the empty append has created the
temporary table, so the step that creates it for an empty load finds it
there and raises [ValueError]; the temporary table is left behind. *)
Theorem load_chunks_only_empty_chunks chunks field_info destination database
schema table wh :
parse_table_name destination = Ok (database, schema, table) ->
stream_end chunks = None ->
yielded chunks <> [] ->
Forall (fun chunk => chunk = []) (yielded chunks) ->
NoDup (frame_columns field_info) ->
exists wh',
load_chunks json_dumps pd chunks field_info destination wh
= (Raise ValueError, wh')
/\ wh' !! identifier (effective_schema database schema)
            (table +:+ "__loader_tmp")
   = Some {| t_columns := frame_columns field_info; t_rows := [] |}.
Proof.
intros Hparse Hend Hsome Hempty Hnd.
set (frames := (fun _ : list json =>
                {| df_columns := frame_columns field_info; df_rows := [] |})
               <$> yielded chunks).
assert (Forall2 (fun chunk df =>
                 result_to_df json_dumps pd chunk field_info = Ok df)
        (yielded chunks) frames) as Hframes.
{ unfold frames. clear Hsome. induction Hempty as [|c cs -> _ IH];
  constructor; [apply result_to_df_no_records | exact IH]. }
assert (concat (df_rows <$> frames) = []) as Hrows.
{ unfold frames. clear. induction (yielded chunks); [done|]. by cbn. }
assert (concat (loaded_rows field_info <$> frames) = []) as Hloaded.
{ unfold frames. clear. induction (yielded chunks); [done|]. by cbn. }
destruct (load_chunks_after_loop chunks field_info destination database
          schema table frames wh Hparse Hend Hframes)
as (wh2 & Htmp & _ & ->).
rewrite Hrows in *. cbn [length Nat.eqb].
assert (frames <> []) as Hne.
{ unfold frames. by destruct (yielded chunks). }
destruct frames as [|df frames]; [done|]. cbn [appended] in Htmp.
rewrite Hloaded, table_columns_NoDup in Htmp by done.
exists wh2. split; [|exact Htmp].
unfold bind at 1. unfold bind at 1, lift. rewrite result_to_df_no_records.
unfold bind at 1, concat_null_row. cbn [df_columns df_rows].
fold (frame_columns field_info). rewrite bool_decide_eq_true_2 by done.
unfold bind at 1, materialize, Sql.to_sql. by rewrite Htmp.
Qed.

(** Buffering loses no record: when [_load_chunks] completes on the
regrouped chunks, the stream stopped, the count is the number of
records the chunks yielded, and the final table has one row for each
of them; the temporary table is gone. *)
Theorem load_chunks_rechunked chunks n field_info destination wh count wh' :
load_chunks json_dumps pd (rechunked chunks n) field_info destination wh
= (Ok count, wh') ->
stream_end chunks = None
/\ count = length (concat (yielded chunks))
/\ exists database schema table t,
   parse_table_name destination = Ok (database, schema, table)
   /\ wh' !! identifier (effective_schema database schema) table = Some t
   /\ t_columns t = Sql.table_columns (frame_columns field_info)
   /\ length (t_rows t) = length (concat (yielded chunks))
   /\ wh' !! identifier (effective_schema database schema)
               (table +:+ "__loader_tmp") = None.
Proof.
intros Hrun.
pose proof (load_chunks_stops _ _ _ _ _ _ Hrun) as Hend.
unfold rechunked in Hend. rewrite rechunked_from_end in Hend.
split; [exact Hend|].
destruct (load_chunks_returns _ _ _ _ _ _ _ _ Hrun)
as (database & schema & table & frames & Hparse & Hframes & Hfacts).
cbn zeta in Hfacts. destruct Hfacts as (Hfinal & Hgone & Hcount & _).
destruct (shaped_lengths _ _ _ _ _ Hframes) as [Hlen1 Hlen2].
destruct (rechunked_from_records [] chunks n) as (lost & Hrecords & Hlost).
rewrite (Hlost Hend), app_nil_r in Hrecords. cbn [app] in Hrecords.
fold (rechunked chunks n) in Hrecords.
rewrite Hrecords in Hlen1, Hlen2.
split; [congruence|].
exists database, schema, table. eexists.
split; [exact Hparse|]. split; [exact Hfinal|].
split; [done|]. split; [exact Hlen2 | exact Hgone].
Qed.

End LoaderEdges.

Lemma load_chunks_only_empty_chunks_witness :
  stream_end Examples.empty_pages = None
  /\ Forall (fun chunk => chunk = []) (yielded Examples.empty_pages)
  /\ exists wh',
       load_chunks Examples.dumps_unused Examples.as_given Examples.empty_pages
         Examples.name_field "sch.tbl" ∅
       = (Raise ValueError, wh')
       /\ wh' !! "sch.tbl__loader_tmp"%string
          = Some {| t_columns := ["id"; "name"; "createdtime"]%string;
                    t_rows := [] |}.
Proof.
  assert (Forall (fun chunk : list json => chunk = [])
            (yielded Examples.empty_pages)) as Hempty
    by (repeat constructor).
  split; [reflexivity|]. split; [exact Hempty|].
  apply (load_chunks_only_empty_chunks Examples.dumps_unused Examples.as_given
           Examples.empty_pages Examples.name_field "sch.tbl" None "sch" "tbl"
           ∅ eq_refl eq_refl ltac:(discriminate) Hempty).
  apply (bool_decide_unpack _). by vm_compute.
Defined.

Lemma load_chunks_rechunked_witness :
  exists wh',
    load_chunks Examples.dumps_unused Examples.as_given
      (rechunked Examples.paged 3) Examples.name_field "sch.tbl" ∅
    = (Ok 5%nat, wh')
    /\ length <$> (t_rows <$> wh' !! "sch.tbl"%string) = Some 5%nat.
Proof.
  exists (load_chunks Examples.dumps_unused Examples.as_given
            (rechunked Examples.paged 3) Examples.name_field "sch.tbl" ∅).2.
  split.
  - rewrite (surjective_pairing (load_chunks _ _ _ _ _ _)) at 1.
    f_equal; by vm_compute.
  - destruct (load_chunks_rechunked Examples.dumps_unused Examples.as_given
                Examples.paged 3 Examples.name_field "sch.tbl" ∅ 5%nat
                (load_chunks Examples.dumps_unused Examples.as_given
                   (rechunked Examples.paged 3) Examples.name_field
                   "sch.tbl" ∅).2)
      as (_ & _ & database & schema & table & t & Hparse & Hfinal & _ & Hlen & _).
    { rewrite (surjective_pairing (load_chunks _ _ _ _ _ _)) at 1.
      f_equal; by vm_compute. }
    set (final := (load_chunks _ _ _ _ _ _).2) in *.
    injection Hparse as <- <- <-.
    change (final !! "sch.tbl"%string)
      with (final !! identifier (effective_schema None "sch") "tbl").
    rewrite Hfinal. cbn [fmap option_fmap option_map]. by rewrite Hlen.
Defined.

Lemma process_record_fields_win_witness :
  exists record,
    process_record (JObj Examples.overlapping) = Ok record
    /\ obj_get "id" record = Some (JStr "shadow")
    /\ obj_get "createdTime" record = Some (JStr "2020-01-01")
    /\ obj_get "fields" record = None.
Proof.
  destruct (process_record_fields_win Examples.overlapping
              [("id"%string, JStr "shadow"); ("Name"%string, JStr "n")]
              eq_refl) as (record & Hrecord & Hget).
  { apply (bool_decide_unpack _). by vm_compute. }
  exists record. split; [exact Hrecord|].
  rewrite !Hget. by repeat split.
Defined.

(** ** send.py: the field mappings *)

Lemma candidates_of_append name key value field_mappings :
  candidates_of name (defaultdict_append key value field_mappings)
  = if String.eqb key name
    then Some (default [] (candidates_of key field_mappings) ++ [value])
    else candidates_of name field_mappings.
Proof.
  induction field_mappings as [|[k values] rest IH]; [done|].
  cbn [defaultdict_append candidates_of].
  destruct (String.eqb_spec k key) as [->|Hk].
  - cbn [candidates_of].
    by destruct (String.eqb_spec key name) as [->|].
  - cbn [candidates_of]. rewrite IH.
    destruct (String.eqb_spec key name) as [->|Hn].
    + by rewrite (proj2 (String.eqb_neq _ _) Hk).
    + by destruct (String.eqb k name).
Qed.

Lemma keys_append key value (field_mappings : list (string * list string)) :
  fst <$> defaultdict_append key value field_mappings
  = if bool_decide (key ∈ (fst <$> field_mappings))
    then fst <$> field_mappings
    else (fst <$> field_mappings) ++ [key].
Proof.
  induction field_mappings as [|[k values] rest IH]; [done|].
  cbn [defaultdict_append fmap list_fmap fst].
  destruct (String.eqb_spec k key) as [->|Hk].
  - by rewrite bool_decide_eq_true_2 by apply list_elem_of_here.
  - cbn [fmap list_fmap fst]. rewrite IH.
    destruct (decide (key ∈ (fst <$> rest))) as [Hin|Hnin].
    + rewrite !bool_decide_eq_true_2;
        [done | by apply list_elem_of_further | done].
    + rewrite !bool_decide_eq_false_2; [done | | done].
      intros [?|?]%elem_of_cons; congruence.
Qed.

Lemma keys_append_NoDup key value (field_mappings : list (string * list string)) :
  NoDup (fst <$> field_mappings) ->
  NoDup (fst <$> defaultdict_append key value field_mappings).
Proof.
  intros Hnd. rewrite keys_append.
  destruct (decide (key ∈ (fst <$> field_mappings))) as [Hin|Hnin].
  - by rewrite bool_decide_eq_true_2.
  - rewrite bool_decide_eq_false_2 by done. apply NoDup_app.
    split; [done|]. split; [|apply NoDup_singleton].
    by intros x Hx ->%list_elem_of_singleton.
Qed.

Lemma fold_append_NoDup fields (field_mappings : list (string * list string)) :
  NoDup (fst <$> field_mappings) ->
  NoDup (fst <$> fold_left
                   (fun result field =>
                      defaultdict_append field
                        (PyStr.replace " " "_" (PyStr.lower field)) result)
                   fields field_mappings).
Proof.
  revert field_mappings. induction fields as [|f fields IH]; [done|].
  intros field_mappings Hnd. cbn [fold_left]. apply IH.
  by apply keys_append_NoDup.
Qed.

Lemma fold_append_candidates fields field_mappings name :
  candidates_of name
    (fold_left
       (fun result field =>
          defaultdict_append field
            (PyStr.replace " " "_" (PyStr.lower field)) result)
       fields field_mappings)
  = match candidates_of name field_mappings, occurrences name fields with
    | None, O => None
    | before, n => Some (default [] before ++ replicate n (column_of name))
    end.
Proof.
  revert field_mappings. induction fields as [|f fields IH];
    intros field_mappings.
  - cbn. destruct (candidates_of name field_mappings); [|done].
    cbn. by rewrite app_nil_r.
  - cbn [fold_left]. rewrite IH, candidates_of_append.
    unfold occurrences. cbn [List.filter].
    rewrite (String.eqb_sym name f).
    destruct (String.eqb_spec f name) as [->|Hne].
    + cbn [length]. fold (column_of name).
      destruct (candidates_of name field_mappings) as [before|];
        cbn [default from_option id app]; [|done].
      by rewrite <- app_assoc.
    + done.
Qed.

Lemma candidates_of_elem name values field_mappings :
  NoDup (fst <$> field_mappings) ->
  (name, values) ∈ field_mappings ->
  candidates_of name field_mappings = Some values.
Proof.
  induction field_mappings as [|[k vs] rest IH]; [by intros _ ?%elem_of_nil|].
  cbn [fmap list_fmap fst]. intros [Hk Hnd]%NoDup_cons Hmem.
  cbn [candidates_of]. apply elem_of_cons in Hmem as [[= <- <-]|Hmem].
  - by rewrite String.eqb_refl.
  - destruct (String.eqb_spec k name) as [->|]; [|by apply IH].
    destruct Hk. apply list_elem_of_fmap. by exists (name, values).
Qed.

Lemma candidates_of_None name field_mappings :
  candidates_of name field_mappings = None <-> name ∉ (fst <$> field_mappings).
Proof.
  induction field_mappings as [|[k vs] rest IH].
  - split; [intros _ ?%elem_of_nil; done | done].
  - cbn [candidates_of fmap list_fmap fst].
    destruct (String.eqb_spec k name) as [->|Hne].
    + split; [done|]. intros []. apply list_elem_of_here.
    + rewrite IH, not_elem_of_cons.
      split; [intros ?; split; [congruence|done] | by intros [_ ?]].
Qed.

Lemma column_of_id : column_of "id" = "id"%string.
Proof. reflexivity. Qed.

Lemma get_field_mappings_candidates_aux (fields : list string) :
  NoDup (fst <$> get_field_mappings fields)
  /\ forall name,
       candidates_of name (get_field_mappings fields)
       = match (occurrences name fields
                + if String.eqb name "id" then 1 else 0)%nat with
         | O => None
         | n => Some (replicate n (column_of name))
         end.
Proof.
  split.
  - apply fold_append_NoDup. cbn. apply NoDup_singleton.
  - intros name. unfold get_field_mappings.
    rewrite fold_append_candidates. cbn [defaultdict_append candidates_of].
    rewrite (String.eqb_sym name "id").
    destruct (String.eqb_spec "id" name) as [<-|Hne].
    + rewrite Nat.add_1_r. reflexivity.
    + rewrite Nat.add_0_r. by destruct (occurrences name fields).
Qed.

(** The candidates of a field in [get_field_mappings] are copies of one
    column name, the field's name in lower case with every space replaced
    by an underscore, one copy for each time the field is listed; [id] is
    always a key and has a copy of its own; no other name is a key, and
    no key is listed twice. *)
Theorem get_field_mappings_candidates (fields : list string) :
  NoDup (fst <$> get_field_mappings fields)
  /\ forall name,
       candidates_of name (get_field_mappings fields)
       = match (occurrences name fields
                + if String.eqb name "id" then 1 else 0)%nat with
         | O => None
         | n => Some (replicate n (column_of name))
         end.
Proof. exact (get_field_mappings_candidates_aux fields). Qed.

Lemma mapping_items_keys (field_mappings : list (string * list string)) :
  fst <$> mapping_items field_mappings = fst <$> field_mappings.
Proof.
  unfold mapping_items. rewrite <- list_fmap_compose.
  by apply list_fmap_ext.
Qed.

Lemma get_field_mappings_keys fields name :
  name ∈ (fst <$> get_field_mappings fields) <-> name ∈ "id"%string :: fields.
Proof.
  destruct (get_field_mappings_candidates_aux fields) as [_ Hcand].
  specialize (Hcand name).
  rewrite elem_of_cons, <- (occurrences_elem name fields).
  destruct (decide (name ∈ (fst <$> get_field_mappings fields))) as [Hin|Hnin].
  - split; [intros _|done].
    destruct (decide (name = "id"%string)) as [Heq|Hne]; [by left|].
    right. intros Hocc.
    rewrite Hocc, (proj2 (String.eqb_neq _ _) Hne) in Hcand.
    by apply candidates_of_None in Hcand.
  - split; [done|]. intros Hname.
    apply candidates_of_None in Hnin as Hnone. rewrite Hnone in Hcand.
    destruct Hname as [->|Hocc].
    + by rewrite Nat.add_1_r in Hcand.
    + by destruct (occurrences name fields).
Qed.

Lemma get_field_mappings_items fields name candidates :
  (name, candidates) ∈ mapping_items (get_field_mappings fields) ->
  exists n, candidates = Some (replicate (S n) (column_of name)).
Proof.
  intros Hmem. unfold mapping_items in Hmem.
  apply list_elem_of_fmap in Hmem as ([k values] & [= -> ->] & Hmem).
  cbn [fst snd].
  destruct (get_field_mappings_candidates_aux fields) as [Hnd Hcand].
  specialize (Hcand k). rewrite (candidates_of_elem _ _ _ Hnd Hmem) in Hcand.
  destruct (_ + _)%nat as [|n]; [done|]. injection Hcand as ->. by exists n.
Qed.

Section SenderMappings.

Variable float_of_decimal : decimal -> float64.

Lemma selected_replicate (row : pydict) q n :
selected row (replicate (S n) q)
= match row !! q with
| None | Some PNone => None
| Some v => Some (q, v)
end.
Proof.
unfold selected. induction n as [|n IH].
- cbn. destruct (row !! q) as [[]|]; done.
- change (replicate (S (S n)) q) with (q :: replicate (S n) q).
cbn [omap list_omap]. destruct (row !! q) as [v|] eqn:Hq; [|exact IH].
by destruct v.
Qed.

(** The sender's pipeline: with the mappings of [get_field_mappings], the
record of a row holds, for [id] and for every field of the table, the
encoded value of the column named as the field in lower case with
underscores for spaces - when the row has that column and it is not
null - and holds nothing else. *)
Theorem row_to_record_reads_lowered_columns (row : pydict) fields :
(forall name d,
 name ∈ "id"%string :: fields -> row !! column_of name <> Some (PDate d)) ->
exists record,
row_to_record float_of_decimal row
(mapping_items (get_field_mappings fields)) = Ok record
/\ forall name,
   match (if bool_decide (name ∈ "id"%string :: fields)
          then row !! column_of name else None) with
   | None | Some PNone => record !! name = None
   | Some v =>
       exists v', record !! name = Some v'
                  /\ encoded float_of_decimal (column_of name) v v'
   end.
Proof.
intros Hdate.
destruct (row_to_record_loop_spec float_of_decimal row
        (mapping_items (get_field_mappings fields)) ∅)
as (record & Hrun & Hout & Hin).
{ rewrite mapping_items_keys.
by destruct (get_field_mappings_candidates_aux fields). }
{ intros name candidates q d Hmem.
assert (name ∈ "id"%string :: fields) as Hname.
{ apply get_field_mappings_keys. rewrite <- mapping_items_keys.
apply list_elem_of_fmap. by exists (name, candidates). }
destruct (get_field_mappings_items _ _ _ Hmem) as [n ->].
cbn [default from_option id]. rewrite selected_replicate.
specialize (Hdate name d Hname).
destruct (row !! column_of name) as [[]|]; congruence. }
exists record. split; [exact Hrun|]. intros name.
destruct (decide (name ∈ "id"%string :: fields)) as [Hname|Hname].
- rewrite bool_decide_eq_true_2 by done.
apply get_field_mappings_keys in Hname.
rewrite <- mapping_items_keys in Hname.
apply list_elem_of_fmap in Hname as ([k candidates] & -> & Hmem).
cbn [fst]. specialize (Hin k candidates Hmem).
destruct (get_field_mappings_items _ _ _ Hmem) as [n ->].
cbn [default from_option id] in Hin. rewrite selected_replicate in Hin.
destruct (row !! column_of k) as [v|]; [|by rewrite Hin].
destruct v; first [exact Hin | by rewrite Hin].
- rewrite bool_decide_eq_false_2 by done. rewrite Hout; [done|].
rewrite mapping_items_keys. by rewrite get_field_mappings_keys.
Qed.

End SenderMappings.

Lemma row_to_record_reads_lowered_columns_witness :
  exists record,
    row_to_record Examples.float_of_whole Examples.row
      (mapping_items (get_field_mappings Examples.table_fields)) = Ok record
    /\ (exists v',
          record !! "Tags List"%string = Some v'
          /\ encoded Examples.float_of_whole "tags_list" (PStr "a | b") v')
    /\ record !! "Name"%string = None
    /\ record !! "Missing"%string = None
    /\ record !! "tags_list"%string = None.
Proof.
  destruct (row_to_record_reads_lowered_columns Examples.float_of_whole
              Examples.row Examples.table_fields)
    as (record & Hrun & Hget).
  { intros name d Hname. apply list_elem_of_In in Hname.
    repeat (destruct Hname as [<-|Hname]; [by vm_compute|]).
    destruct Hname. }
  exists record. split; [exact Hrun|].
  split; [exact (Hget "Tags List"%string)|].
  split; [exact (Hget "Name"%string)|].
  split; [exact (Hget "Missing"%string) | exact (Hget "tags_list"%string)].
Defined.

(** ** send.py: [send_records] *)

Lemma chunks_of_fmap {A B} (f : A -> B) (l : list A) size :
  chunks_of (fmap (M:=list) f l) size
  = fmap (M:=list) (fmap (M:=list) f) (chunks_of l size).
Proof.
  unfold chunks_of. rewrite length_fmap, <- list_fmap_compose.
  apply list_fmap_ext. intros _ i _. cbn. unfold slice.
  by rewrite fmap_take, fmap_drop.
Qed.

Lemma chunks_of_nil {A} size : (0 < size)%nat -> chunks_of (@nil A) size = [].
Proof.
  intros Hs. apply length_zero_iff_nil. rewrite chunks_of_length.
  unfold ceil_div. apply Nat.div_small. cbn [length]. lia.
Qed.

Section SenderRecords.

Variable server : nat -> Response.
Variable quote : string -> string.
Variable self : AirtableClient.
Variable float_of_decimal : decimal -> float64.

Implicit Types (st : State) (rows : list pydict).

(** The records of the rows are new objects, each its own. *)
Lemma records_of_ok rows field_mappings records st :
Forall2 (fun row record =>
       row_to_record float_of_decimal row field_mappings = Ok record)
rows records ->
exists ls st',
records_of float_of_decimal rows field_mappings st = (Ok ls, st')
/\ trace st' = trace st
/\ NoDup ls
/\ (forall l, l ∈ ls -> l ∉ dom (heap st))
/\ (fun l => heap_get l (heap st')) <$> ls = records
/\ (forall l, l ∈ dom (heap st) ->
    l ∈ dom (heap st') /\ heap st' !! l = heap st !! l).
Proof.
intros Hrows. revert st.
induction Hrows as [|row record rows records Hrow _ IH]; intros st.
- exists [], st. split; [done|]. split; [done|]. split; [constructor|].
split; [by intros l ?%elem_of_nil|]. by split.
- set (l := fresh (dom (heap st))).
set (st1 := {| heap := <[l := record]> (heap st); trace := trace st |}).
assert (l ∉ dom (heap st)) as Hl by apply is_fresh.
destruct (IH st1) as (ls & st' & Hrun & Htr & Hnd & Hfresh & Hget & Hkeep).
assert (l ∈ dom (heap st1)) as Hl1.
{ cbn [heap st1]. apply elem_of_dom. rewrite lookup_insert_eq. by eexists. }
exists (l :: ls), st'. split; [|split; [done|split; [|split; [|split]]]].
+ cbn [records_of]. unfold bind at 1, lift. rewrite Hrow.
unfold bind at 1, new_dict. fold l. fold st1.
unfold bind at 1. by rewrite Hrun.
+ apply NoDup_cons. split; [|done]. intros Hin. by apply (Hfresh l).
+ intros l' [->|Hl']%elem_of_cons; [done|].
intros Hdom. apply (Hfresh l' Hl'). cbn [heap st1].
apply elem_of_dom. apply elem_of_dom in Hdom.
destruct (decide (l = l')) as [Heq|Hne].
* rewrite <- Heq, lookup_insert_eq. by eexists.
* by rewrite lookup_insert_ne.
+ cbn [fmap list_fmap]. f_equal; [|done].
unfold heap_get. destruct (Hkeep l Hl1) as [_ ->].
cbn [heap st1]. by rewrite lookup_insert_eq.
+ intros l' Hl'. assert (l <> l') as Hne by (by intros ->).
destruct (Hkeep l') as [Hdom Hsame].
{ cbn [heap st1]. apply elem_of_dom. rewrite lookup_insert_ne by done.
  by apply elem_of_dom. }
split; [done|]. rewrite Hsame. cbn [heap st1].
by rewrite lookup_insert_ne.
Qed.

Lemma records_of_raise rows bad after field_mappings records e st :
Forall2 (fun row record =>
       row_to_record float_of_decimal row field_mappings = Ok record)
rows records ->
row_to_record float_of_decimal bad field_mappings = Raise e ->
exists st',
records_of float_of_decimal (rows ++ bad :: after) field_mappings st
= (Raise e, st')
/\ trace st' = trace st.
Proof.
intros Hrows Hbad. revert st.
induction Hrows as [|row record rows records Hrow _ IH]; intros st.
- exists st. split; [|done]. cbn [app records_of].
unfold bind at 1, lift. by rewrite Hbad.
- set (l := fresh (dom (heap st))).
set (st1 := {| heap := <[l := record]> (heap st); trace := trace st |}).
destruct (IH st1) as (st' & Hrun & Htr).
exists st'. split; [|done].
cbn [app records_of]. unfold bind at 1, lift. rewrite Hrow.
unfold bind at 1, new_dict. fold l. fold st1.
unfold bind at 1. by rewrite Hrun.
Qed.

(** With a positive chunk size, [write] sends nothing for no records:
the test [if records] changes nothing. *)
Lemma write_guard (records : list loc) table update st :
0 < write_chunk_size self ->
match records with
| [] => ret tt
| _ => write server quote self records table update
end st
= write server quote self records table update st.
Proof.
intros Hsize. destruct records as [|l ls]; [|done].
unfold write. destruct update; cbn iota; unfold bind at 1;
rewrite chunked_positive by done; by rewrite chunks_of_nil by lia.
Qed.

Lemma converted_rows rows field_mappings :
Forall (fun row =>
      exists record,
        row_to_record float_of_decimal row field_mappings = Ok record)
rows ->
exists records,
Forall2 (fun row record =>
         row_to_record float_of_decimal row field_mappings = Ok record)
rows records.
Proof.
induction 1 as [|row rows [record Hrow] _ [records IH]].
- exists []. constructor.
- exists (record :: records). by constructor.
Qed.

(** [send_records] converts every row before it sends anything: when the
conversion of a row raises, [send_records] raises the same exception
and no request has been made, whatever the rows before it. *)
Theorem send_records_converts_before_sending
airtable_table before bad after table_info field_mappings e st :
is_Some (obj_get "table" table_info) ->
Forall (fun row =>
      exists record,
        row_to_record float_of_decimal row field_mappings = Ok record)
before ->
row_to_record float_of_decimal bad field_mappings = Raise e ->
exists st',
send_records server quote self float_of_decimal airtable_table
(before ++ bad :: after) table_info field_mappings st
= (Raise e, st')
/\ trace st' = trace st.
Proof.
intros [name Hname] Hbefore Hbad.
destruct (converted_rows _ _ Hbefore) as [records Hrecords].
destruct (records_of_raise before bad after field_mappings records e st
        Hrecords Hbad) as (st' & Hrun & Htr).
exists st'. split; [|done]. unfold send_records. rewrite Hname.
unfold bind at 1, lift. unfold bind at 1. by rewrite Hrun.
Qed.

(** In append mode [send_records] sends the records of the rows, in the
order of the rows, in POST requests of [write_chunk_size] records
(the last may hold fewer), none with an [id] beside the fields; for
no rows it sends nothing. *)
Theorem send_records_appends_rows
airtable_table rows records table_info field_mappings st :
is_Some (obj_get "table" table_info) ->
json_truthy (default (JBool false) (obj_get "update" table_info)) = false ->
0 < write_chunk_size self ->
Forall2 (fun row record =>
       row_to_record float_of_decimal row field_mappings = Ok record)
rows records ->
let size := Z.to_nat (write_chunk_size self) in
(forall k, (k < ceil_div (length rows) size)%nat ->
 is_success (server (exchanges (trace st) + k)) = true) ->
exists st' evs,
send_records server quote self float_of_decimal airtable_table rows
table_info field_mappings st = (Ok tt, st')
/\ trace st' = trace st ++ evs
/\ requests evs
 = (fun chunk =>
      {| req_method := "post";
         req_url := table_url quote self airtable_table;
         req_headers := {[ "Content-Type"%string
                           := "application/json"%string ]};
         req_json :=
           Some {| p_records :=
                     (fun record =>
                        {| env_id := None; env_fields := record |})
                       <$> chunk;
                   p_typecast := true |} |})
     <$> chunks_of records size.
Proof.
intros [name Hname] Hupdate Hsize Hrows size Hok.
destruct (records_of_ok rows field_mappings records st Hrows)
as (ls & st1 & Hrun & Htr & _ & _ & Hget & _).
assert (length ls = length rows) as Hlen.
{ apply Forall2_length in Hrows. rewrite Hrows, <- Hget.
by rewrite length_fmap. }
set (url := table_url quote self airtable_table).
set (evs := concat ((fun c => exchange_events self
                   (request_of "post" url
                      (Some (append_body (heap st1) c)) ∅))
                  <$> chunks_of ls size)).
exists (with_trace st1 (trace st1 ++ evs)), evs.
split; [|split].
- unfold send_records. rewrite Hname. unfold bind at 1, lift.
rewrite Hupdate. unfold bind at 1. rewrite Hrun.
rewrite write_guard by done. unfold write. cbn iota. unfold bind at 1.
rewrite chunked_positive by done. fold size. fold url.
apply for_each_append. intros k Hk. rewrite Htr. apply Hok.
by rewrite <- Hlen, <- chunks_of_length.
- cbn [trace with_trace]. by rewrite Htr.
- unfold evs.
rewrite (requests_exchange_events self
         (fun c => request_of "post" url
                     (Some (append_body (heap st1) c)) ∅)).
rewrite <- Hget, chunks_of_fmap, <- list_fmap_compose.
apply list_fmap_ext. intros i chunk _. cbn.
unfold request_of, append_body. rewrite <- list_fmap_compose.
f_equal; by rewrite (left_id_L ∅ (∪)).
Qed.

(** In update mode every row is sent with its own [id]: the records of
the rows are new objects, so - also when rows are equal - each
envelope of the PATCH requests carries the [id] of its row beside the
fields, from which the [id] is gone. *)
Theorem send_records_updates_rows
airtable_table rows records table_info field_mappings st :
is_Some (obj_get "table" table_info) ->
json_truthy (default (JBool false) (obj_get "update" table_info)) = true ->
0 < write_chunk_size self ->
Forall2 (fun row record =>
       row_to_record float_of_decimal row field_mappings = Ok record)
rows records ->
Forall (fun record => is_Some (record !! "id"%string)) records ->
let size := Z.to_nat (write_chunk_size self) in
(forall k, (k < ceil_div (length rows) size)%nat ->
 is_success (server (exchanges (trace st) + k)) = true) ->
exists st' evs,
send_records server quote self float_of_decimal airtable_table rows
table_info field_mappings st = (Ok tt, st')
/\ trace st' = trace st ++ evs
/\ requests evs
 = (fun chunk =>
      {| req_method := "patch";
         req_url := table_url quote self airtable_table;
         req_headers := {[ "Content-Type"%string
                           := "application/json"%string ]};
         req_json :=
           Some {| p_records :=
                     (fun record =>
                        {| env_id := record !! "id"%string;
                           env_fields := delete "id"%string record |})
                       <$> chunk;
                   p_typecast := true |} |})
     <$> chunks_of records size.
Proof.
intros [name Hname] Hupdate Hsize Hrows Hids size Hok.
destruct (records_of_ok rows field_mappings records st Hrows)
as (ls & st1 & Hrun & Htr & Hnd & _ & Hget & _).
assert (length ls = length rows) as Hlen.
{ apply Forall2_length in Hrows. rewrite Hrows, <- Hget.
by rewrite length_fmap. }
assert (carry_ids ls st1) as Hcarry.
{ intros l Hl. rewrite Forall_forall in Hids. apply Hids.
rewrite <- Hget. apply list_elem_of_fmap. by exists l. }
set (url := table_url quote self airtable_table).
pose proof (chunks_of_concat ls size ltac:(lia)) as Hcat.
destruct (for_each_update_ok server self url (chunks_of ls size) st1)
as (st' & Hloop & Htr' & _).
{ by rewrite Hcat. } { by rewrite Hcat. }
{ intros k Hk. rewrite Htr. apply Hok.
by rewrite <- Hlen, <- chunks_of_length. }
exists st'. eexists. split; [|split].
- unfold send_records. rewrite Hname. unfold bind at 1, lift.
rewrite Hupdate. unfold bind at 1. rewrite Hrun.
rewrite write_guard by done. unfold write. cbn iota. unfold bind at 1.
rewrite chunked_positive by done. exact Hloop.
- rewrite Htr', Htr. reflexivity.
- rewrite (requests_exchange_events self
         (fun c => request_of "patch" url
                     (Some (update_body (heap st1) c)) ∅)).
rewrite <- Hget, chunks_of_fmap, <- list_fmap_compose.
apply list_fmap_ext. intros i chunk _. cbn.
unfold request_of, update_body. rewrite <- list_fmap_compose.
f_equal; by rewrite (left_id_L ∅ (∪)).
Qed.

End SenderRecords.

Lemma send_records_converts_before_sending_witness :
  exists st',
    send_records Examples.accepting Examples.quote_unreserved Examples.client2
      Examples.float_of_whole "T"
      ([Examples.id_row] ++ Examples.day_row :: [Examples.id_row])
      Examples.update_info Examples.day_mappings Examples.init
    = (Raise TypeError, st')
    /\ trace st' = trace Examples.init.
Proof.
  apply (send_records_converts_before_sending Examples.accepting
           Examples.quote_unreserved Examples.client2 Examples.float_of_whole
           "T" [Examples.id_row] Examples.day_row [Examples.id_row]
           Examples.update_info Examples.day_mappings TypeError Examples.init).
  - by eexists.
  - repeat constructor. exists Examples.id_record. by vm_compute.
  - by vm_compute.
Defined.

Lemma send_records_appends_rows_witness :
  exists st' evs,
    send_records Examples.accepting Examples.quote_unreserved Examples.client2
      Examples.float_of_whole "T"
      [Examples.id_row; Examples.id_row; Examples.id_row]
      Examples.append_info Examples.name_mappings Examples.init
    = (Ok tt, st')
    /\ trace st' = trace Examples.init ++ evs
    /\ requests evs
       = (fun chunk =>
            {| req_method := "post";
               req_url := table_url Examples.quote_unreserved Examples.client2 "T";
               req_headers := {[ "Content-Type"%string
                                 := "application/json"%string ]};
               req_json :=
                 Some {| p_records :=
                           (fun record =>
                              {| env_id := None; env_fields := record |})
                             <$> chunk;
                         p_typecast := true |} |})
           <$> [[Examples.id_record; Examples.id_record];
                [Examples.id_record]].
Proof.
  apply (send_records_appends_rows Examples.accepting
           Examples.quote_unreserved Examples.client2 Examples.float_of_whole
           "T" [Examples.id_row; Examples.id_row; Examples.id_row]
           [Examples.id_record; Examples.id_record; Examples.id_record]
           Examples.append_info Examples.name_mappings Examples.init).
  - by eexists.
  - reflexivity.
  - reflexivity.
  - repeat constructor; by vm_compute.
  - intros k _. reflexivity.
Defined.

Lemma send_records_updates_rows_witness :
  exists st' evs,
    send_records Examples.accepting Examples.quote_unreserved Examples.client2
      Examples.float_of_whole "T"
      [Examples.id_row; Examples.id_row; Examples.id_row]
      Examples.update_info Examples.name_mappings Examples.init
    = (Ok tt, st')
    /\ trace st' = trace Examples.init ++ evs
    /\ requests evs
       = (fun chunk =>
            {| req_method := "patch";
               req_url := table_url Examples.quote_unreserved Examples.client2 "T";
               req_headers := {[ "Content-Type"%string
                                 := "application/json"%string ]};
               req_json :=
                 Some {| p_records :=
                           (fun record =>
                              {| env_id := record !! "id"%string;
                                 env_fields := delete "id"%string record |})
                             <$> chunk;
                         p_typecast := true |} |})
           <$> [[Examples.id_record; Examples.id_record];
                [Examples.id_record]].
Proof.
  apply (send_records_updates_rows Examples.accepting
           Examples.quote_unreserved Examples.client2 Examples.float_of_whole
           "T" [Examples.id_row; Examples.id_row; Examples.id_row]
           [Examples.id_record; Examples.id_record; Examples.id_record]
           Examples.update_info Examples.name_mappings Examples.init).
  - by eexists.
  - reflexivity.
  - reflexivity.
  - repeat constructor; by vm_compute.
  - repeat constructor; by eexists.
  - intros k _. reflexivity.
Defined.

(** ** load.py: [load] *)

Section LoadRestarts.

Variable json_dumps : json -> string.
Variable pd : Pandas.
Variable scans : nat -> ChunkStream.
Variable field_info : FieldInfo.
Variable destination : string.

Local Abbreviation run := (load_run json_dumps pd scans field_info destination).

Lemma load_from_aborted i n wh wh1 tries :
aborted_runs run i n wh wh1 ->
(i + n <= 3)%nat -> (n < tries)%nat ->
(i + n = 3)%nat \/ (run (i + n)%nat wh1).1 <> Raise AirtableIteratorError ->
load_from json_dumps pd scans tries i field_info destination wh
= run (i + n)%nat wh1.
Proof.
intros Hruns. revert tries.
induction Hruns as [i wh|i n wh wh1 wh2 Hrun _ IH]; intros tries Hle Hlt Hlast.
- rewrite Nat.add_0_r in *. destruct tries as [|tries]; [lia|].
cbn [load_from]. unfold try_except.
change (load_chunks json_dumps pd (rechunked (scans i) 5000) field_info
        destination wh) with (run i wh).
destruct (run i wh) as [[count|e|] wh'] eqn:Hrun; [done| |done].
destruct e; try done.
destruct Hlast as [->|Hother]; [done|]. by destruct Hother.
- destruct tries as [|tries]; [lia|].
cbn [load_from]. unfold try_except.
change (load_chunks json_dumps pd (rechunked (scans i) 5000) field_info
        destination wh) with (run i wh).
rewrite Hrun.
destruct (Nat.eqb_spec i 3) as [->|_]; [lia|].
replace (i + S n)%nat with (S i + n)%nat in * by lia.
apply IH; [lia | lia | done].
Qed.

Lemma aborted_runs_frame i n wh wh1 :
aborted_runs run i n wh wh1 ->
match parse_table_name destination with
| Ok (database, schema, table) =>
let schema := effective_schema database schema in
wh1 !! identifier schema table = wh !! identifier schema table
/\ forall other,
     other <> identifier schema (table +:+ "__loader_tmp") ->
     wh1 !! other = wh !! other
| _ => wh1 = wh
end.
Proof.
induction 1 as [i wh|i n wh wh1 wh2 Hrun _ IH].
- by destruct (parse_table_name destination) as [[[database schema] table]| |].
- pose proof (load_chunks_failure_frame json_dumps pd
            (rechunked (scans i) 5000) field_info destination wh _ _ Hrun)
as Hkeep.
destruct (parse_table_name destination) as [[[database schema] table]| |];
[|congruence|congruence].
cbn zeta in *. destruct IH as [IH1 IH2], Hkeep as [Hk1 Hk2].
split; [congruence|]. intros other Hother.
by rewrite IH2, Hk2.
Qed.

(** [load] answers as its first run that is not ended by an expired
iterator, or as its fourth run: after [k] runs (at most three) that
each raised [AirtableIteratorError], [load] returns or raises what the
next run of [_load_chunks], on a new scan, returns or raises; and the
aborted runs have left every table but the temporary one, the
destination included, as it was. *)
Theorem load_restarts_after_expired_iterator k wh wh1 :
(k <= 3)%nat ->
aborted_runs (load_run json_dumps pd scans field_info destination) 0 k wh wh1 ->
(k = 3)%nat
\/ (load_run json_dumps pd scans field_info destination k wh1).1
 <> Raise AirtableIteratorError ->
load json_dumps pd scans field_info destination wh
= load_run json_dumps pd scans field_info destination k wh1
/\ match parse_table_name destination with
 | Ok (database, schema, table) =>
   let schema := effective_schema database schema in
   wh1 !! identifier schema table = wh !! identifier schema table
   /\ forall other,
        other <> identifier schema (table +:+ "__loader_tmp") ->
        wh1 !! other = wh !! other
 | _ => wh1 = wh
 end.
Proof.
intros Hk Hruns Hlast. split.
- unfold load. by apply (load_from_aborted 0 k wh wh1 4 Hruns); [lia|lia|].
- exact (aborted_runs_frame 0 k wh wh1 Hruns).
Qed.

End LoadRestarts.

Lemma load_restarts_after_expired_iterator_witness :
  exists wh1,
    load Examples.dumps_unused Examples.as_given Examples.flaky_scans Examples.name_field
      "db.sch.tbl" Examples.used_warehouse
    = load_run Examples.dumps_unused Examples.as_given Examples.flaky_scans Examples.name_field
        "db.sch.tbl" 1 wh1
    /\ wh1 !! "db.sch.tbl"%string = Some Examples.old_table
    /\ (load Examples.dumps_unused Examples.as_given Examples.flaky_scans Examples.name_field
          "db.sch.tbl" Examples.used_warehouse).1 = Ok 5%nat.
Proof.
  set (wh1 := (load_run Examples.dumps_unused Examples.as_given Examples.flaky_scans
                 Examples.name_field "db.sch.tbl" 0
                 Examples.used_warehouse).2).
  assert (aborted_runs
            (load_run Examples.dumps_unused Examples.as_given Examples.flaky_scans
               Examples.name_field "db.sch.tbl")
            0 1 Examples.used_warehouse wh1) as Hruns.
  { eapply aborted_more; [|apply aborted_none].
    rewrite (surjective_pairing (load_run _ _ _ _ _ _ _)) at 1.
    f_equal; by vm_compute. }
  destruct (load_restarts_after_expired_iterator Examples.dumps_unused
              Examples.as_given Examples.flaky_scans Examples.name_field "db.sch.tbl" 1
              Examples.used_warehouse wh1 ltac:(lia) Hruns)
    as [Hload Hframe].
  { right. by vm_compute. }
  exists wh1. split; [exact Hload|]. split.
  - change (parse_table_name "db.sch.tbl")
      with (@Ok (option string * string * string)
              (Some "db", "sch", "tbl")%string) in Hframe.
    cbv beta iota zeta in Hframe. destruct Hframe as [Hfinal _].
    etrans; [exact Hfinal|]. reflexivity.
  - rewrite Hload. by vm_compute.
Defined.
